(** * A shallow embedding of the n-dimensional hypercube renderer

    The geometry engine of the renderer (src/modules/renderer.js with its
    collaborators matrix.js, point.js and global.js) is embedded as Rocq
    functions, module by module, and the properties of its specification
    are proved or refuted against that embedding.

    Conventions of the embedding.
    - A JavaScript number is an exact real number, or [NaN].  Rounding,
      overflow, signed zero and the infinities are outside the model; the
      quotient by zero, which JavaScript answers with an infinity or NaN,
      is represented by [NaN].
    - A thrown exception, and a loop that has not finished within its
      fuel, are outcomes of a computation ([Throw], [OutOfFuel]).
    - The keys of [for (const i in array)] are the decimal strings of the
      indices in ascending order; they are carried as [nat] and compared,
      where the source compares them, as strings.
    - 32-bit integer arithmetic is written over [Z] with the wrap-around
      spelled out.
    - Where a property needs two computed numbers to be different, the
      condition is put on the computed numbers ([separated]) and not on
      the inputs, so that it reads the same in double arithmetic. *)

From Stdlib Require Import ZArith QArith Reals Lra Lia List String Ascii Bool.
From Stdlib Require HexadecimalString HexadecimalN DecimalString DecimalNat.
From stdpp Require Import base list.

Local Open Scope Z_scope.

(* ================================================================== *)
(** * JavaScript values and primitives used by the renderer *)
(* ================================================================== *)

Module JS.

(** Exceptions the engine can raise: the engine's own [new Error(message)]
    and the TypeError of the language (property read on [undefined],
    [reduce] of an empty array without initial value). *)
Inductive exception : Type :=
  | TypeError
  | Error (message : string).

Inductive outcome (A : Type) : Type :=
  | Return (a : A)
  | Throw (e : exception)
  | OutOfFuel.

Arguments Return {A} a.
Arguments Throw {A} e.
Arguments OutOfFuel {A}.

Definition bind {A B} (m : outcome A) (k : A -> outcome B) : outcome B :=
  match m with
  | Return a => k a
  | Throw e => Throw e
  | OutOfFuel => OutOfFuel
  end.

Definition returns {A} (m : outcome A) : bool :=
  match m with Return _ => true | _ => false end.

Definition throws {A} (m : outcome A) : bool :=
  match m with Throw _ => true | _ => false end.

(** A generator drained by [Array.from]: the items yielded by [body] on
    each element in turn, or the first exception. *)
Fixpoint forEach {X Y} (body : X -> outcome (list Y)) (xs : list X)
  : outcome (list Y) :=
  match xs with
  | [] => Return []
  | x :: xs' =>
      bind (body x) (fun ys =>
      bind (forEach body xs') (fun zs => Return (ys ++ zs)))
  end.

(** ** Numbers *)

Inductive number : Type :=
  | Num (r : R)
  | NaN.

Definition lift2 (f : R -> R -> R) (a b : number) : number :=
  match a, b with
  | Num x, Num y => Num (f x y)
  | _, _ => NaN
  end.

Definition lift1 (f : R -> R) (a : number) : number :=
  match a with
  | Num x => Num (f x)
  | NaN => NaN
  end.

Definition add : number -> number -> number := lift2 Rplus.
Definition sub : number -> number -> number := lift2 Rminus.
Definition mul : number -> number -> number := lift2 Rmult.
Definition neg : number -> number := lift1 Ropp.
Definition cos : number -> number := lift1 Rtrigo_def.cos.
Definition sin : number -> number := lift1 Rtrigo_def.sin.

Definition div (a b : number) : number :=
  match a, b with
  | Num x, Num y => if Req_dec_T y 0 then NaN else Num (x / y)
  | _, _ => NaN
  end.

(** [a === b] on numbers: NaN is not equal to itself. *)
Definition strictEq (a b : number) : bool :=
  match a, b with
  | Num x, Num y => if Req_dec_T x y then true else false
  | _, _ => false
  end.

(** Truthiness of a number, as tested by [c ? x : y]. *)
Definition truthy (a : number) : bool :=
  match a with
  | Num x => if Req_dec_T x 0 then false else true
  | NaN => false
  end.

(** An integer as a number. *)
Definition ofZ (z : Z) : number := Num (IZR z).

(** ** Strings of digits *)

(** [n.toString(2)] for a non-negative integer. *)
Fixpoint binaryDigits (p : positive) (acc : string) : string :=
  match p with
  | xH => String "1" acc
  | xO p' => binaryDigits p' (String "0" acc)
  | xI p' => binaryDigits p' (String "1" acc)
  end.

Definition toString2 (n : N) : string :=
  match n with
  | N0 => "0"
  | Npos p => binaryDigits p ""
  end.

(** [n.toString(16)] for a non-negative integer: lower-case digits, no
    leading zero. *)
Definition toString16 (n : Z) : string :=
  HexadecimalString.NilZero.string_of_uint (N.to_hex_uint (Z.to_N n)).

(** [`${i}`] for an array index. *)
Definition key (i : nat) : string :=
  DecimalString.NilEmpty.string_of_uint (Nat.to_uint i).

(** [s.padStart(targetLength, 0)]: the filler is the one-character
    string of the number 0; a string already long enough is unchanged. *)
Definition padStart (s : string) (targetLength : nat) : string :=
  String.append
    (string_of_list_ascii
       (replicate (targetLength - String.length s) "0"%char)) s.

(** [Array.from(s)] on a string of ASCII characters. *)
Definition arrayFromString (s : string) : list ascii := list_ascii_of_string s.

(** [i >= j] on two strings: code-unit lexicographic order. *)
Definition stringGe (i j : string) : bool := String.leb j i.

(** ** 32-bit integer operators *)

Definition ToUint32 (x : Z) : Z := x mod 2 ^ 32.

Definition ToInt32 (x : Z) : Z :=
  let u := x mod 2 ^ 32 in if u <? 2 ^ 31 then u else u - 2 ^ 32.

(** [a ^ b] *)
Definition xor (a b : Z) : Z := ToInt32 (Z.lxor (ToInt32 a) (ToInt32 b)).

(** [a & b] *)
Definition and (a b : Z) : Z := ToInt32 (Z.land (ToInt32 a) (ToInt32 b)).

(** [a >>> n] *)
Definition ushr (a n : Z) : Z := Z.shiftr (ToUint32 a) (n mod 32).

(** [Math.imul(a, b)] *)
Definition imul (a b : Z) : Z := ToInt32 (ToUint32 a * ToUint32 b).

(** [parseInt(x)] on a number that is an integer below 10^21 in
    magnitude: printing and re-reading gives the integer back. *)
Definition parseIntOfInteger (x : Z) : Z := x.

(** [s.charCodeAt(i)] for every position of an ASCII string. *)
Definition charCodes (s : string) : list Z :=
  map (fun c => Z.of_N (N_of_ascii c)) (list_ascii_of_string s).

(** [a | b] *)
Definition or (a b : Z) : Z := ToInt32 (Z.lor (ToInt32 a) (ToInt32 b)).

(** [a << n] *)
Definition shl (a n : Z) : Z := ToInt32 (Z.shiftl (ToInt32 a) (n mod 32)).

End JS.

Import JS.

#[global] Instance outcome_ret : MRet outcome := @Return.
#[global] Instance outcome_bind : MBind outcome :=
  fun A B k m => JS.bind m k.

(* ================================================================== *)
(** * src/modules/global.js *)
(* ================================================================== *)

Module Global.

(** [Projection] *)
Inductive Projection : Type :=
  | PERSPECTIVE
  | ORTHOGRAPHIC.

(** The fields of the configuration object [Global] that the geometry
    reads. *)
Record config : Type := {
  DIMENSIONS : Z;
  PROJECTION : Projection;
  SPEED : number;
  SIZE : number;
  ROTATION_OFFSET : number;
  FAR_CLIPPING_PLANE : number
}.

(** The values of the frozen [Global] object of global.js. *)
Definition defaults : config := {|
  DIMENSIONS := 5;
  PROJECTION := PERSPECTIVE;
  SPEED := Num 30;
  SIZE := Num 300;
  ROTATION_OFFSET := Num 1;
  FAR_CLIPPING_PLANE := Num 1000
|}.

(** [hash(data, seed = 0)], with [data] given as the code units of
    [`${data}`]; one round of its loop updates the pair (h1, h2). *)
Definition hashRound (h : Z * Z) (ch : Z) : Z * Z :=
  (imul (xor (fst h) ch) 2654435761, imul (xor (snd h) ch) 1597334677).

(** The integer [Math.abs(parseInt(output % 256))] that [hash] prints. *)
Definition hashByte (data : list Z) (seed : Z) : Z :=
  let h1 := xor 0xdeadbeef seed in
  let h2 := xor 0x41c6ce57 seed in
  let h := fold_left hashRound data (h1, h2) in
  let h1 := fst h in
  let h2 := snd h in
  let h1 := xor (imul (xor h1 (ushr h1 16)) 2246822507)
                (imul (xor h2 (ushr h2 13)) 3266489909) in
  let h2 := xor (imul (xor h2 (ushr h2 16)) 2246822507)
                (imul (xor h1 (ushr h1 13)) 3266489909) in
  let output := 4294967296 * (and 2097151 h2) + ushr h1 0 in
  Z.abs (parseIntOfInteger (Z.rem output 256)).

Definition hash (data : list Z) (seed : Z) : string :=
  toString16 (hashByte data seed).

(** [Display]: the three flags, their unions, and the membership test
    [has], which reads the configured [Global.DISPLAY]. *)
Module Display.

Definition VERTICES : Z := shl 1 0.
Definition EDGES : Z := shl 1 1.
Definition FACES : Z := shl 1 2.
Definition VERTICES_EDGES : Z := or (shl 1 0) (shl 1 1).
Definition VERTICES_FACES : Z := or (shl 1 0) (shl 1 2).
Definition EDGES_FACES : Z := or (shl 1 1) (shl 1 2).
Definition VERTICES_EDGES_FACES : Z := or (or (shl 1 0) (shl 1 1)) (shl 1 2).

(** [has: (d) => (Global.DISPLAY & d) > 0] *)
Definition has (DISPLAY d : Z) : bool := 0 <? and DISPLAY d.

End Display.

End Global.

(* ================================================================== *)
(** * matrix.js (src/unnamed/part_002) *)
(* ================================================================== *)

Module Matrix.

(** A matrix is an array of rows. *)
Abbreviation matrix := (list (list number)).

(** [init(rows, cols, fillValue = 0)] *)
Definition init (rows cols : nat) (fillValue : number) : matrix :=
  replicate rows (replicate cols fillValue).

(** [m[i][k]] read as an operand of arithmetic: a missing entry is
    [undefined], which the multiplication turns into NaN. *)
Definition entry (m : matrix) (i k : nat) : number :=
  match m !! i with
  | Some row => match row !! k with Some x => x | None => NaN end
  | None => NaN
  end.

(** [m[r][c] = v] for a row [r] and a column [c] that exist (the only
    use the engine makes of it); nothing is written elsewhere. *)
Definition assign (m : matrix) (r c : nat) (v : number) : matrix :=
  alter (fun row => <[c := v]> row) r m.

Definition formatMessage : string :=
  "Arguments should be in 2-dimensional array format".

Definition shapeMessage : string :=
  "Number of columns in the first matrix should be the same as the number of rows in the second".

(** [mul(a, b)].  [a[0].length] on an empty array is a TypeError; the
    entry [product[i][j]] starts at the fill value 0 and receives the
    summands for k = 0 .. aCols-1 in that order. *)
Definition mul (a b : matrix) : outcome matrix :=
  match a with
  | [] => Throw TypeError
  | a0 :: _ =>
      match b with
      | [] => Throw TypeError
      | b0 :: _ =>
          let aRows := length a in
          let aCols := length a0 in
          let bRows := length b in
          let bCols := length b0 in
          if (aCols =? 0)%nat || (aRows =? 0)%nat
             || (bCols =? 0)%nat || (bRows =? 0)%nat
          then Throw (Error formatMessage)
          else if negb (aCols =? bRows)%nat
          then Throw (Error shapeMessage)
          else
            Return
              (map (fun i =>
                 map (fun j =>
                   fold_left
                     (fun product_ij k =>
                        JS.add product_ij (JS.mul (entry a i k) (entry b k j)))
                     (seq 0 aCols) (Num 0))
                   (seq 0 bCols))
                 (seq 0 aRows))
      end
  end.

(** [toPoint(matrix)]: the first entry of every row. *)
Definition toPoint (m : matrix) : list number :=
  map (fun row => match row with x :: _ => x | [] => NaN end) m.

End Matrix.

(* ================================================================== *)
(** * src/modules/point.js *)
(* ================================================================== *)

Module Point.

(** [toMatrix(point)]: every row [j] of a fresh [length point] x 1 matrix
    is replaced by the one-entry row [[point[j]]]. *)
Definition toMatrix (point : list number) : Matrix.matrix :=
  let pointMatrix := Matrix.init (length point) 1 (Num 0) in
  imap (fun j _ => [match point !! j with Some x => x | None => NaN end])
       pointMatrix.

End Point.

(* ================================================================== *)
(** * src/modules/renderer.js *)
(* ================================================================== *)

Module Renderer.

Import Global.

(** ** Vertex generator *)

(** [(2 ** dimension).toString(2)]: a one followed by [dimension] zeros;
    for a negative exponent down to -1074 the binary fraction 0.0...01;
    below, where the power is 0, the string of 0. *)
Definition endToString2 (dimension : Z) : string :=
  if 0 <=? dimension then toString2 (2 ^ Z.to_N dimension)
  else if -1074 <=? dimension
  then String.append "0."
         (String.append
            (string_of_list_ascii
               (replicate (Z.to_nat (- dimension) - 1) "0"%char)) "1")
  else "0".

(** The values taken by [i] in [for (let i = 0; i < end; i++)] with
    [end = 2 ** dimension]: the power of a negative exponent is below 1,
    and is 0 from the exponent -1075 downwards. *)
Definition loopIndices (dimension : Z) : list nat :=
  if 0 <=? dimension then seq 0 (Z.to_nat (2 ^ dimension))
  else if -1074 <=? dimension then [0%nat] else [].

(** The point yielded for the index [i]. *)
Definition cubePoint (dimension : Z) (size : number) (i : nat) : list number :=
  let binary :=
    padStart (toString2 (N.of_nat i))
             (String.length (endToString2 dimension) - 1) in
  map (fun x => JS.div (JS.mul x size) (Num 2))
    (map (fun x => if Ascii.eqb x "0" then Num (-1) else Num 1)
       (arrayFromString binary)).

Definition cubePointsGenerator (dimension : Z) (size : number)
  : list (list number) :=
  map (cubePoint dimension size) (loopIndices dimension).

(** ** Adjacency generators

    The coordinates are only ever compared with [===]; the generators are
    written over any type of coordinates with its comparison, and used
    on numbers with [JS.strictEq].  Two entries of [cubePoints] are the
    same array object ([a === b]) exactly when their keys are equal,
    since every point is a fresh array. *)

Section Adjacency.

Context {A : Type} (eq : A -> A -> bool).

(** [xs.reduce((x, y) => x + y)] *)
Definition reduceSum (xs : list nat) : outcome nat :=
  match xs with
  | [] => Throw TypeError
  | x :: xs' => Return (fold_left Nat.add xs' x)
  end.

(** [a.map((_, ii) => a[ii] === b[ii] ? 1 : 0).reduce(...)] *)
Definition matches (a b : list A) : outcome nat :=
  reduceSum
    (imap (fun ii x =>
             if match b !! ii with Some y => eq x y | None => false end
             then 1%nat else 0%nat) a).

(** The key-value pairs visited by [for (const i in cubePoints)]. *)
Definition entries (cubePoints : list (list A)) : list (nat * list A) :=
  imap (fun i a => (i, a)) cubePoints.

Definition lengthMessage : string := "Vectors do not have same length".

Definition edgeGenerator (dimension : Z) (cubePoints : list (list A))
  : outcome (list (nat * nat)) :=
  forEach (fun '(i, a) =>
    forEach (fun '(j, b) =>
      if (i =? j)%nat then Return []
      else if negb (length a =? length b)%nat
      then Throw (Error lengthMessage)
      else
        m ← matches a b;
        if negb (Z.of_nat m =? dimension - 1) then Return []
        else Return [(i, j)])
      (entries cubePoints))
    (entries cubePoints).

(** [facePoints[0].map((_, ii) => facePoints.every(p =>
    facePoints[0][ii] === p[ii]) ? 1 : 0).reduce(...)] *)
Definition matchesAll (facePoints : list (list A)) : outcome nat :=
  match facePoints with
  | [] => Throw TypeError
  | p0 :: _ =>
      reduceSum
        (imap (fun ii x =>
                 if forallb (fun p =>
                      match p !! ii with Some y => eq x y | None => false end)
                      facePoints
                 then 1%nat else 0%nat) p0)
  end.

(** The [while (faceIndices.length != 4)] loop; every iteration costs
    one unit of fuel. *)
Fixpoint orderFace (fuel : nat) (dimension : Z) (cubePoints : list (list A))
    (faceIndices rest : list nat) : outcome (list nat) :=
  if (length faceIndices =? 4)%nat then Return faceIndices
  else
    match fuel with
    | O => OutOfFuel
    | S fuel' =>
        match last faceIndices, rest with
        | Some lastIndex, rest0 :: rest' =>
            match cubePoints !! lastIndex, cubePoints !! rest0 with
            | Some p, Some q =>
                m ← matches p q;
                if negb (Z.of_nat m =? dimension - 1)
                then orderFace fuel' dimension cubePoints
                       faceIndices (rest' ++ [rest0])
                else orderFace fuel' dimension cubePoints
                       (faceIndices ++ [rest0]) rest'
            | _, _ => Throw TypeError
            end
        | _, _ => Throw TypeError
        end
    end.

Definition faceGenerator (fuel : nat) (dimension : Z)
    (cubePoints : list (list A)) : outcome (list (list nat)) :=
  forEach (fun '(i, a) =>
    forEach (fun '(j, b) =>
      if stringGe (key i) (key j) then Return [] else
      forEach (fun '(k, c) =>
        if stringGe (key j) (key k) then Return [] else
        forEach (fun '(l, d) =>
          if stringGe (key k) (key l) then Return [] else
          let facePoints := [a; b; c; d] in
          m ← matchesAll facePoints;
          if negb (Z.of_nat m =? dimension - 2) then Return []
          else
            faceIndices ← orderFace fuel dimension cubePoints [i] [j; k; l];
            Return [faceIndices])
          (entries cubePoints))
        (entries cubePoints))
      (entries cubePoints))
    (entries cubePoints).

End Adjacency.

(** ** Rotations *)

(** The closure yielded for the plane [(i, j)], applied to [theta]. *)
Definition rotation (dimension i j : nat) (theta : number) : Matrix.matrix :=
  let matrix := Matrix.init dimension dimension (Num 0) in
  let matrix :=
    fold_left (fun m k => Matrix.assign m k k (Num 1)) (seq 0 dimension) matrix in
  let matrix := Matrix.assign matrix i i (JS.cos theta) in
  let matrix := Matrix.assign matrix i j (JS.neg (JS.sin theta)) in
  let matrix := Matrix.assign matrix j i (JS.sin theta) in
  Matrix.assign matrix j j (JS.cos theta).

(** The planes in the order of the two nested loops:
    [i] from 0 while [i < dimension - 1], [j] from [i + 1] while
    [j < dimension]. *)
Definition planes (dimension : Z) : list (nat * nat) :=
  flat_map (fun i =>
      map (fun j => (i, j))
          (seq (i + 1) (Z.to_nat (dimension - (Z.of_nat i + 1)))))
    (seq 0 (Z.to_nat (dimension - 1))).

Definition rotationsGenerator (dimension : Z) : list (number -> Matrix.matrix) :=
  map (fun '(i, j) => rotation (Z.to_nat dimension) i j) (planes dimension).

(** [Math.PI / 180] *)
Definition degree : number := JS.div (Num PI) (Num 180).

(** [Global.DIMENSIONS * (Global.DIMENSIONS - 1) / 2] *)
Definition rotationLength (G : config) : number :=
  JS.div (JS.mul (ofZ (DIMENSIONS G)) (JS.sub (ofZ (DIMENSIONS G)) (Num 1)))
         (Num 2).

(** One iteration of [for (const rotation of memo)], on the pair of the
    two variables it updates. *)
Definition applyRotation (G : config) (theta : number)
    (state : outcome (Matrix.matrix * number))
    (rotation : number -> Matrix.matrix)
  : outcome (Matrix.matrix * number) :=
  '(pointMatrix, multiplier) ← state;
  let r := if truthy (ROTATION_OFFSET G)
           then rotation (JS.mul theta multiplier)
           else rotation theta in
  pointMatrix ← Matrix.mul r pointMatrix;
  Return (pointMatrix,
          JS.add multiplier (JS.div (ROTATION_OFFSET G) (rotationLength G))).

(** The body of [for (const point of points)] in [transformGenerator];
    [elapsed] is the reading [getSeconds() - start] taken for this point. *)
Definition transformPoint (G : config) (elapsed : number) (point : list number)
  : outcome (list number) :=
  let pointMatrix := Point.toMatrix point in
  let theta := JS.mul (JS.mul elapsed (SPEED G)) degree in
  let multiplier := Num 1 in
  let memo := rotationsGenerator (DIMENSIONS G) in
  '(pointMatrix, _) ←
     fold_left (applyRotation G theta) memo (Return (pointMatrix, multiplier));
  Return (Matrix.toPoint pointMatrix).

(** [transformGenerator(points)] drained by [Array.from]; [elapsed n] is
    the clock reading taken for the point of index [n]. *)
Definition transformGenerator (G : config) (elapsed : nat -> number)
    (points : list (list number)) : outcome (list (list number)) :=
  forEach (fun '(n, point) =>
             p ← transformPoint G (elapsed n) point; Return [p])
          (imap (fun n point => (n, point)) points).

(** ** Projection *)

(** The body of the loop over [i] in [projectionGenerator]; [len] is
    [point.length], the length of the point handed to the generator. *)
Definition projectionStep (G : config) (len i : nat) (newPoint : list number)
  : outcome (list number) :=
  let r := JS.div (FAR_CLIPPING_PLANE G)
             (JS.sub (FAR_CLIPPING_PLANE G)
                (match newPoint !! i with Some n => n | None => NaN end)) in
  let projectionMatrix := Matrix.init len len (Num 0) in
  let projectionMatrix :=
    fold_left (fun m j => Matrix.assign m j j r) (seq 0 len) projectionMatrix in
  let pointMatrix := Point.toMatrix newPoint in
  newPointMatrix ← Matrix.mul projectionMatrix pointMatrix;
  Return (Matrix.toPoint newPointMatrix).

(** [for (let i = ...; i > 1; i--)], entered with the current value of
    [i]. *)
Fixpoint projectionLoop (G : config) (len i : nat) (newPoint : list number)
  : outcome (list number) :=
  match i with
  | O => Return newPoint
  | S i' =>
      if (1 <? i)%nat
      then newPoint ← projectionStep G len i newPoint;
           projectionLoop G len i' newPoint
      else Return newPoint
  end.

Definition projectPoint (G : config) (point : list number)
  : outcome (list number) :=
  projectionLoop G (length point) (length point - 1) point.

Definition projectionGenerator (G : config) (points : list (list number))
  : outcome (list (list number)) :=
  forEach (fun point => p ← projectPoint G point; Return [p]) points.

(** The points handed to the drawing functions by [draw()]: the
    vertices rotated, and projected in perspective mode. *)
Definition framePoints (G : config) (elapsed : nat -> number)
    (cubePoints : list (list number)) : outcome (list (list number)) :=
  points ← transformGenerator G elapsed cubePoints;
  match PROJECTION G with
  | PERSPECTIVE => projectionGenerator G points
  | ORTHOGRAPHIC => Return points
  end.

(** ** Setup and drawing *)

(** [setup()]: the canvas apart, it stores the materialised vertex set in
    the module variable [cubePoints]. *)
Definition setup (G : config) : outcome (list (list number)) :=
  Return (cubePointsGenerator (DIMENSIONS G) (SIZE G)).

(** [drawEdges(cubePoints, points)] on its first call: the pairs it
    strokes, one [moveTo]/[lineTo]/[stroke] per item of the memoised
    edge list. *)
Definition drawEdges (G : config) (cubePoints : list (list number))
  : outcome (list (nat * nat)) :=
  memo ← edgeGenerator JS.strictEq (DIMENSIONS G) cubePoints;
  forEach (fun '(i, j) => Return [(i, j)]) memo.

(** The colour string built in [drawEdges] from the three hashed
    strings [`${i / j}`], [`${i + j}`] and [`${i * j}`]. *)
Definition edgeColor (quotient sum product : string) : string :=
  String.append "#"
    (String.append (hash (charCodes quotient) 0)
       (String.append (hash (charCodes sum) 0) (hash (charCodes product) 0))).

(** The drawing functions of [draw()], in the order in which it calls
    them. *)
Inductive drawing : Type :=
  | DrawFaces
  | DrawEdges
  | DrawVertices.

(** The three tests [Display.has(...)] of [draw()]. *)
Definition drawings (DISPLAY : Z) : list drawing :=
  (if Display.has DISPLAY Display.FACES then [DrawFaces] else [])
  ++ (if Display.has DISPLAY Display.EDGES then [DrawEdges] else [])
  ++ (if Display.has DISPLAY Display.VERTICES then [DrawVertices] else []).

End Renderer.

(* ================================================================== *)
(** * The earlier renderer (src/unnamed/part_001, second module) *)
(* ================================================================== *)

Module EarlierRenderer.

Definition dimensionMessage : string :=
  "Dimension must be positive integer greater than 1".

(** [parseInt(x)] on a number that is 0 or of a magnitude from 10^-6 to
    below 10^21, which [`${x}`] prints in decimal notation: the integer
    part of that notation, that is, truncation towards zero. *)
Definition parseInt (x : Q) : Z := Z.quot (Qnum x) (Zpos (Qden x)).

(** [setup()] with its guard on [Global.DIMENSIONS], a number given as a
    rational; it returns the vertex set of the [{canvas, cubePoints}]
    record. *)
Definition setup (DIMENSIONS : Q) (SIZE : number)
  : outcome (list (list number)) :=
  if negb (Qeq_bool DIMENSIONS (inject_Z (parseInt DIMENSIONS)))
  then Throw (Error dimensionMessage)
  else Return (Renderer.cubePointsGenerator (parseInt DIMENSIONS) SIZE).

(** The projection loop of this module builds an [i] x [i] matrix. *)
Definition projectionStep (G : Global.config) (i : nat) (newPoint : list number)
  : outcome (list number) :=
  let r := JS.div (Global.FAR_CLIPPING_PLANE G)
             (JS.sub (Global.FAR_CLIPPING_PLANE G)
                (match newPoint !! i with Some n => n | None => NaN end)) in
  let projectionMatrix := Matrix.init i i (Num 0) in
  let projectionMatrix :=
    fold_left (fun m j => Matrix.assign m j j r) (seq 0 i) projectionMatrix in
  let pointMatrix := Point.toMatrix newPoint in
  newPointMatrix ← Matrix.mul projectionMatrix pointMatrix;
  Return (Matrix.toPoint newPointMatrix).

(** [for (let i = point.length - 1; i > 1; i--)] of this module. *)
Fixpoint projectionLoop (G : Global.config) (i : nat) (newPoint : list number)
  : outcome (list number) :=
  match i with
  | O => Return newPoint
  | S i' =>
      if (1 <? i)%nat
      then newPoint ← projectionStep G i newPoint;
           projectionLoop G i' newPoint
      else Return newPoint
  end.

Definition projectPoint (G : Global.config) (point : list number)
  : outcome (list number) :=
  projectionLoop G (length point - 1) point.

Definition projectionGenerator (G : Global.config) (points : list (list number))
  : outcome (list (list number)) :=
  forEach (fun point => p ← projectPoint G point; Return [p]) points.

End EarlierRenderer.

(* ================================================================== *)
(** * The adjacency generators of the first module of
      src/unnamed/part_001 *)
(* ================================================================== *)

Module EarlierGenerators.

Section Adjacency.

Context {A : Type} (eq : A -> A -> bool).

(** [let matches = 0; for (const k in a) if (a[k] === b[k]) matches++;] *)
Definition countMatches (a b : list A) : nat :=
  fold_left
    (fun matches '(k, ak) =>
       if match b !! k with Some bk => eq ak bk | None => false end
       then S matches else matches)
    (imap (fun k ak => (k, ak)) a) 0%nat.

Definition edgeGenerator (dimension : Z) (cubePoints : list (list A))
  : outcome (list (nat * nat)) :=
  forEach (fun '(i, a) =>
    forEach (fun '(j, b) =>
      if (i =? j)%nat then Return []
      else if negb (length a =? length b)%nat
      then Throw (Error Renderer.lengthMessage)
      else if negb (Z.of_nat (countMatches a b) =? dimension - 1) then Return []
      else Return [(i, j)])
      (Renderer.entries cubePoints))
    (Renderer.entries cubePoints).

(** [for (const m in a) if ([a,b,c,d].every((x) => x[m] === a[m]))
    matches++;] *)
Definition countShared (a b c d : list A) : nat :=
  fold_left
    (fun matches '(m, am) =>
       if forallb (fun x : list A =>
            match x !! m with Some xm => eq xm am | None => false end)
            [a; b; c; d]
       then S matches else matches)
    (imap (fun m am => (m, am)) a) 0%nat.

(** The ordering of the four indices, decided by two tests. *)
Definition ordered (dimension : Z) (i j k l : nat) (a b c : list A)
  : list nat :=
  if Z.of_nat (countMatches a b) =? dimension - 1
  then if Z.of_nat (countMatches b c) =? dimension - 1
       then [i; j; k; l] else [i; j; l; k]
  else if Z.of_nat (countMatches c b) =? dimension - 1
       then [i; k; j; l] else [i; k; l; j].

Definition faceGenerator (dimension : Z) (cubePoints : list (list A))
  : outcome (list (list nat)) :=
  forEach (fun '(i, a) =>
    forEach (fun '(j, b) =>
      if stringGe (key i) (key j) then Return [] else
      forEach (fun '(k, c) =>
        if stringGe (key i) (key k) then Return [] else
        if stringGe (key j) (key k) then Return [] else
        forEach (fun '(l, d) =>
          if stringGe (key i) (key l) then Return [] else
          if stringGe (key j) (key l) then Return [] else
          if stringGe (key k) (key l) then Return [] else
          if negb (Z.of_nat (countShared a b c d) =? dimension - 2)
          then Return []
          else Return [ordered dimension i j k l a b c])
          (Renderer.entries cubePoints))
        (Renderer.entries cubePoints))
      (Renderer.entries cubePoints))
    (Renderer.entries cubePoints).

End Adjacency.

End EarlierGenerators.

(* ================================================================== *)
(** * Matrices described entry by entry *)
(* ================================================================== *)

Module Entrywise.

(** The [rows] x [cols] matrix whose entry (i, j) is [g i j]. *)
Definition tabulate (rows cols : nat) (g : nat -> nat -> number)
  : Matrix.matrix :=
  map (fun i => map (fun j => g i j) (seq 0 cols)) (seq 0 rows).

(** The sum of [f 0], ..., [f (n - 1)], added in that order to 0. *)
Fixpoint sigma (n : nat) (f : nat -> number) : number :=
  match n with
  | O => Num 0
  | S n' => JS.add (sigma n' f) (f n')
  end.

(** The same sum over the reals. *)
Fixpoint sumR (n : nat) (f : nat -> R) : R :=
  match n with
  | O => 0%R
  | S n' => (sumR n' f + f n')%R
  end.

(** A matrix of [rows] rows that all have [cols] entries. *)
Definition rectangular (rows cols : nat) (m : Matrix.matrix) : Prop :=
  length m = rows /\ Forall (fun row => length row = cols) m.

(** The length of the first row, [m[0].length]; 0 without rows. *)
Definition cols (m : Matrix.matrix) : nat :=
  match m with
  | [] => 0
  | row :: _ => length row
  end.

Definition isRectangular (m : Matrix.matrix) : bool :=
  forallb (fun row => (length row =? cols m)%nat) m.

End Entrywise.

Import Entrywise.

(* ================================================================== *)
(** * The geometry in the words of the specification

    Exact real arithmetic; a D x D matrix is given by its entries. *)
(* ================================================================== *)

Module Spec.

Local Open Scope R_scope.

(** The rotation planes (i, j): i ascending from 0 to D-2 and, for each
    i, j ascending from i+1 to D-1. *)
Definition planes (D : nat) : list (nat * nat) :=
  flat_map (fun i => map (fun j => (i, j)) (seq (S i) (D - S i)))
           (seq 0 (D - 1)).

(** m = D (D - 1) / 2 *)
Definition planeCount (D : nat) : nat := (D * (D - 1) / 2)%nat.

(** The elementary rotation of the plane (i, j): the identity except
    [i][i] = [j][j] = cos theta, [i][j] = - sin theta, [j][i] = sin theta. *)
Definition elementary (i j : nat) (theta : R) (r c : nat) : R :=
  if (r =? i)%nat && (c =? i)%nat || (r =? j)%nat && (c =? j)%nat
  then Rtrigo_def.cos theta
  else if (r =? i)%nat && (c =? j)%nat then - Rtrigo_def.sin theta
  else if (r =? j)%nat && (c =? i)%nat then Rtrigo_def.sin theta
  else if (r =? c)%nat then 1
  else 0.

(** theta_base = speed * elapsed * (pi / 180) *)
Definition thetaBase (s t : R) : R := s * t * (PI / 180).

(** theta_k = theta_base * (1 + k * o / m), and theta_base when the
    offset o is zero. *)
Definition thetaPlane (s t o : R) (m k : nat) : R :=
  if Req_dec_T o 0 then thetaBase s t
  else thetaBase s t * (1 + INR k * o / INR m).

(** The product M * p of a D x D matrix and a point taken as a column. *)
Definition apply (D : nat) (M : nat -> nat -> R) (p : list R) : list R :=
  map (fun r => sumR D (fun k => M r k * nth k p 0)) (seq 0 D).

(** R_{m-1}(theta_{m-1}) * ... * R_0(theta_0) * p *)
Definition rotated (D : nat) (s t o : R) (p : list R) : list R :=
  fold_left
    (fun v '(k, (i, j)) =>
       apply D (elementary i j (thetaPlane s t o (planeCount D) k)) v)
    (imap (fun k plane => (k, plane)) (planes D)) p.

(** Perspective projection as the specification words it: at the axis
    [i] the working point is restricted to its first [i] coordinates and
    scaled by r = F / (F - n). *)
Fixpoint projected (F : R) (i : nat) (w : list R) : list R :=
  match i with
  | O => w
  | S i' =>
      if (1 <? i)%nat
      then projected F i' (map (Rmult (F / (F - nth i w 0))) (take i w))
      else w
  end.

(** The same iteration without the restriction: every coordinate of the
    working point is kept and scaled. *)
Fixpoint scaled (F : R) (i : nat) (w : list R) : list R :=
  match i with
  | O => w
  | S i' =>
      if (1 <? i)%nat
      then scaled F i' (map (Rmult (F / (F - nth i w 0))) w)
      else w
  end.

(** No axis coordinate met on the way equals the far clipping plane. *)
Fixpoint regular (F : R) (i : nat) (w : list R) : Prop :=
  match i with
  | O => True
  | S i' =>
      if (1 <? i)%nat
      then F - nth i w 0 <> 0 /\
           regular F i' (map (Rmult (F / (F - nth i w 0))) w)
      else True
  end.

(** The end-to-end scenario: D = 3, size 2, speed 0, far clipping
    plane 1000. *)
Definition scenario : Global.config := {|
  Global.DIMENSIONS := 3;
  Global.PROJECTION := Global.PERSPECTIVE;
  Global.SPEED := Num 0;
  Global.SIZE := Num 2;
  Global.ROTATION_OFFSET := Num 1;
  Global.FAR_CLIPPING_PLANE := Num 1000
|}.

End Spec.

(* ================================================================== *)
(** * The vertex set as binary strings *)
(* ================================================================== *)

Module Binary.

Definition digit (b : bool) : ascii := if b then "1"%char else "0"%char.

(** The characters of the padded binary string of the index [i]. *)
Definition binaryPoint (D i : nat) : list ascii :=
  arrayFromString (padStart (toString2 (N.of_nat i)) D).

Definition binaryPoints (D : nat) : list (list ascii) :=
  map (binaryPoint D) (seq 0 (2 ^ D)).

(** The two mappings applied to a character, [x === "0" ? -1 : 1] and
    [x * size / 2]. *)
Definition coordinate (size : number) (c : ascii) : number :=
  JS.div (JS.mul (if Ascii.eqb c "0" then Num (-1) else Num 1) size) (Num 2).

(** The values computed for the two digits, [-1 * size / 2] and
    [1 * size / 2], are told apart by [===].  In exact arithmetic they
    are for every size other than zero; in the double arithmetic of the
    engine they are not for the sizes 5e-324 and -5e-324 either, whose
    halves are rounded to zero. *)
Definition separated (size : number) : bool :=
  negb (JS.strictEq (coordinate size "0") (coordinate size "1")).

Definition realCoordinate (s : R) (c : ascii) : R :=
  ((if Ascii.eqb c "0" then -1 else 1) * s / 2)%R.

(** The base vertex set of real size [s]. *)
Definition realPoints (D : nat) (s : R) : list (list R) :=
  map (map (realCoordinate s)) (binaryPoints D).

Definition isDigit (c : ascii) : Prop := c = "0"%char \/ c = "1"%char.

Fixpoint list_eqb (v w : list ascii) : bool :=
  match v, w with
  | [], [] => true
  | x :: v', y :: w' => Ascii.eqb x y && list_eqb v' w'
  | _, _ => false
  end.

(** Number of positions at which two lists of equal length agree. *)
Fixpoint agree {A} (eq : A -> A -> bool) (v w : list A) : nat :=
  match v, w with
  | x :: v', y :: w' => ((if eq x y then 1 else 0) + agree eq v' w')%nat
  | _, _ => 0%nat
  end.

(** Number of positions of [p0] at which all the points of [ps] carry
    the coordinate of [p0]. *)
Fixpoint agreeAll {A} (eq : A -> A -> bool) (p0 : list A) (ps : list (list A))
  : nat :=
  match p0 with
  | [] => 0%nat
  | x :: p0' =>
      ((if forallb (fun p => match p with y :: _ => eq x y | [] => false end) ps
        then 1 else 0)
       + agreeAll eq p0' (map tail ps))%nat
  end.

(** Number of positions at which they differ. *)
Definition differ {A} (eq : A -> A -> bool) (v w : list A) : nat :=
  (length v - agree eq v w)%nat.

(** The pairs yielded by [edgeGenerator] when no comparison throws. *)
Definition edgesOf {A} (eq : A -> A -> bool) (d : Z) (points : list (list A))
  : list (nat * nat) :=
  flat_map (fun '(i, a) =>
    flat_map (fun '(j, b) =>
      if (i =? j)%nat then []
      else if negb (Z.of_nat (agree eq a b) =? d - 1) then []
      else [(i, j)])
      (Renderer.entries points))
    (Renderer.entries points).

(** Two vertices whose points differ in exactly one coordinate. *)
Definition joined (points : list (list number)) (x y : nat) : Prop :=
  exists p q,
    points !! x = Some p /\ points !! y = Some q /\
    differ JS.strictEq p q = 1%nat.

(** Four indices such that each consecutive pair, the pair from the last
    back to the first included, is joined. *)
Definition closedWalk (points : list (list number)) (face : list nat) : Prop :=
  exists x0 x1 x2 x3,
    face = [x0; x1; x2; x3] /\
    joined points x0 x1 /\ joined points x1 x2 /\
    joined points x2 x3 /\ joined points x3 x0.

(** Four points side by side: the column of rank k holds their
    coordinates of rank k. *)
Definition column : Type := (ascii * ascii * ascii * ascii)%type.

Definition pick (slot : nat) (col : column) : ascii :=
  let '(x0, x1, x2, x3) := col in
  match slot with
  | 0%nat => x0
  | 1%nat => x1
  | 2%nat => x2
  | _ => x3
  end.

(** The four points carry the same coordinate in this column. *)
Definition constant (col : column) : bool :=
  let '(x0, x1, x2, x3) := col in
  Ascii.eqb x0 x0 && (Ascii.eqb x0 x1 && (Ascii.eqb x0 x2 && (Ascii.eqb x0 x3 && true))).

Definition mixed (cols : list column) : list column :=
  List.filter (fun col => negb (constant col)) cols.

(** The four points restricted to the columns in which they do not all
    agree. *)
Definition squareOf (cols : list column) : list (list ascii) :=
  [map (pick 0) (mixed cols); map (pick 1) (mixed cols);
   map (pick 2) (mixed cols); map (pick 3) (mixed cols)].

(** The index held by a slot of the loop, for the indices i, j, k, l. *)
Definition slotIndex (i j k l : nat) (slot : nat) : nat :=
  nth slot [i; j; k; l] 0%nat.

(** The vertices of the square, D = 2. *)
Definition corners : list (list ascii) :=
  [["0"; "0"]; ["0"; "1"]; ["1"; "0"]; ["1"; "1"]]%char.

Definition sameSet (f g : list nat) : bool :=
  forallb (fun x => existsb (Nat.eqb x) g) f
  && forallb (fun x => existsb (Nat.eqb x) f) g.

(** The test [matches === dimension - 1] between two points of a list. *)
Definition adjacentb (d : Z) (points : list (list ascii)) (x y : nat) : bool :=
  match points !! x, points !! y with
  | Some p, Some q => Z.of_nat (agree Ascii.eqb p q) =? d - 1
  | _, _ => false
  end.

(** A closed walk along edges through the given four points. *)
Definition traversal (d : Z) (points : list (list ascii)) (slots : list nat)
    (o : outcome (list nat)) : bool :=
  match o with
  | Return [x0; x1; x2; x3] =>
      sameSet [x0; x1; x2; x3] slots
      && adjacentb d points x0 x1 && adjacentb d points x1 x2
      && adjacentb d points x2 x3 && adjacentb d points x3 x0
  | _ => false
  end.

Definition distinct4 (a b c d : list ascii) : bool :=
  negb (list_eqb a b) && negb (list_eqb a c) && negb (list_eqb a d)
  && negb (list_eqb b c) && negb (list_eqb b d) && negb (list_eqb c d).

Fixpoint sameList (f g : list nat) : bool :=
  match f, g with
  | [], [] => true
  | x :: f', y :: g' => (x =? y)%nat && sameList f' g'
  | _, _ => false
  end.

(** The faces yielded for D = 4, in the order of the generator. *)
Definition tesseractFaces : list (list nat) :=
  [[0; 1; 3; 2]; [0; 1; 5; 4]; [0; 1; 9; 8]; [0; 2; 6; 4];
   [0; 2; 10; 8]; [0; 4; 12; 8]; [1; 3; 7; 5]; [1; 3; 11; 9];
   [1; 5; 13; 9]; [2; 3; 7; 6]; [4; 5; 7; 6]; [10; 11; 3; 2];
   [10; 11; 9; 8]; [10; 11; 15; 14]; [10; 14; 12; 8]; [10; 14; 6; 2];
   [11; 15; 13; 9]; [11; 15; 7; 3]; [12; 13; 5; 4]; [12; 13; 9; 8];
   [12; 13; 15; 14]; [12; 14; 6; 4]; [13; 15; 7; 5]; [14; 15; 7; 6]]%nat.

(** The four points of the indices share exactly [d - 2] coordinates,
    as tested by the face generator. *)
Definition qualifies (d : Z) (points : list (list ascii)) (i j k l : nat)
  : bool :=
  match points !! i, points !! j, points !! k, points !! l with
  | Some a, Some b, Some c, Some e =>
      match Renderer.matchesAll Ascii.eqb [a; b; c; e] with
      | Return m => Z.of_nat m =? d - 2
      | _ => false
      end
  | _, _, _, _ => false
  end.

(** For D = 4: the index sets of the faces are the qualifying sets of
    four indices. *)
Definition tesseractSetsCheck : bool :=
  forallb (fun i => forallb (fun j => forallb (fun k => forallb (fun l =>
    if (i <? j)%nat && (j <? k)%nat && (k <? l)%nat
    then Bool.eqb (qualifies 4 (binaryPoints 4) i j k l)
                  (existsb (fun face => sameSet face [i; j; k; l])
                           tesseractFaces)
    else true)
    (seq 0 16)) (seq 0 16)) (seq 0 16)) (seq 0 16).

(** Two faces never have the same index set. *)
Definition tesseractDistinctCheck : bool :=
  forallb (fun face => forallb (fun face' =>
    if sameSet face face' then sameList face face' else true)
    tesseractFaces) tesseractFaces.

(** Every face is a closed walk along edges. *)
Definition tesseractWalkCheck : bool :=
  forallb (fun face =>
    traversal 4 (binaryPoints 4) face (Return face)) tesseractFaces.

(** On every ordering of four distinct corners of the square, the
    ordering loop started at the first ends within five iterations with
    a closed walk along the sides. *)
Definition squareCheck : bool :=
  forallb (fun a => forallb (fun b => forallb (fun c => forallb (fun d =>
    if distinct4 a b c d
    then traversal 2 [a; b; c; d] [0; 1; 2; 3]%nat
           (Renderer.orderFace Ascii.eqb 5 2 [a; b; c; d]
              [0%nat] [1; 2; 3]%nat)
    else true)
    corners) corners) corners) corners.

End Binary.

Import Binary.

(* ================================================================== *)
(** * The two orderings of a face compared on the square *)
(* ================================================================== *)

Module Orderings.

(** The loop has returned this face. *)
Definition returned (o : outcome (list nat)) (face : list nat) : bool :=
  match o with
  | Return f => sameList f face
  | _ => false
  end.

(** On every ordering of four distinct corners of the square, the
    ordering loop of renderer.js returns the face that the two tests of
    the earlier module select. *)
Definition orderedCheck : bool :=
  forallb (fun a => forallb (fun b => forallb (fun c => forallb (fun d =>
    if distinct4 a b c d
    then returned
           (Renderer.orderFace Ascii.eqb 5 2 [a; b; c; d]
              [0%nat] [1; 2; 3]%nat)
           (EarlierGenerators.ordered Ascii.eqb 2 0 1 2 3 a b c)
    else true)
    corners) corners) corners) corners.

End Orderings.

(* ================================================================== *)
(** * Notions used in the statements about the engine *)
(* ================================================================== *)

Module Geometry.

Local Open Scope R_scope.

(** The square of the Euclidean norm. *)
Fixpoint normSq (p : list R) : R :=
  match p with
  | [] => 0
  | x :: p' => x * x + normSq p'
  end.

(** The square of the distance between two points. *)
Definition distSq (p q : list R) : R := normSq (zip_with Rminus p q).

(** The point turned by [theta] in the plane of the axes [i] and [j]:
    the two coordinates are replaced, the others kept. *)
Definition rotatePlane (i j : nat) (theta : R) (p : list R) : list R :=
  <[j := Rtrigo_def.sin theta * nth i p 0 + Rtrigo_def.cos theta * nth j p 0]>
    (<[i := Rtrigo_def.cos theta * nth i p 0 - Rtrigo_def.sin theta * nth j p 0]> p).

(** The union of the flags selected by three booleans. *)
Definition mask (vertices edges faces : bool) : Z :=
  Z.lor (if vertices then Global.Display.VERTICES else 0%Z)
    (Z.lor (if edges then Global.Display.EDGES else 0%Z)
           (if faces then Global.Display.FACES else 0%Z)).

(** The opposite binary digit. *)
Definition flip (c : ascii) : ascii :=
  if Ascii.eqb c "0" then "1"%char else "0"%char.

End Geometry.

(* ================================================================== *)
(** * Statements of the specification, kept as propositions: proved
      under the condition that the code needs, or refuted on a concrete
      input *)
(* ================================================================== *)

Module Stated.

(** The size s yields 2^D pairwise distinct vertices, the coordinate k
    of the vertex i being +s/2 or -s/2 after the bit k of i. *)
Definition vertices (D : nat) (s : R) : Prop :=
  let points := Renderer.cubePointsGenerator (Z.of_nat D) (Num s) in
  length points = (2 ^ D)%nat /\
  List.NoDup points /\
  forall i k, (i < 2 ^ D)%nat -> (k < D)%nat ->
    exists p, points !! i = Some p /\
      p !! k = Some (if N.testbit (N.of_nat i) (N.of_nat (D - 1 - k))
                     then Num (s / 2) else Num (- (s / 2))).

(** Every unordered edge is emitted once, D * 2^(D-1) pairs in all. *)
Definition edges (D : nat) (s : R) : Prop :=
  exists es,
    Renderer.edgeGenerator JS.strictEq (Z.of_nat D)
      (Renderer.cubePointsGenerator (Z.of_nat D) (Num s)) = Return es /\
    length es = (D * 2 ^ (D - 1))%nat /\
    forall i j, In (i, j) es -> ~ In (j, i) es.

(** The projected point is the one obtained by restricting the working
    point to its first i coordinates at every axis i. *)
Definition projection (G : Global.config) (F : R) (p : list R) : Prop :=
  Renderer.projectPoint G (map Num p)
  = Return (map Num (Spec.projected F (length p - 1) p)).

(** [mul] fails exactly on an empty or non-rectangular argument and on
    mismatched dimensions. *)
Definition mulFails (a b : Matrix.matrix) : Prop :=
  throws (Matrix.mul a b) = true <->
  (length a = 0%nat \/ cols a = 0%nat \/ length b = 0%nat \/ cols b = 0%nat \/
   isRectangular a = false \/ isRectangular b = false \/
   cols a <> length b).

End Stated.


(* ================================================================== *)
(** * Outcomes and matrices: basic facts *)
(* ================================================================== *)

(** Stdlib's [map] under stdpp's lookup. *)
Lemma lookup_map {A B} (f : A -> B) (l : list A) (i : nat) :
  map f l !! i = f <$> (l !! i).
Proof. exact (list_lookup_fmap f l i). Qed.

Lemma fold_left_sigma (n : nat) (f : nat -> number) :
  fold_left (fun acc k => JS.add acc (f k)) (seq 0 n) (Num 0) = sigma n f.
Proof.
  induction n as [|n IH]; [reflexivity|].
  rewrite seq_S, fold_left_app. simpl. now rewrite IH.
Qed.

Lemma sigma_ext (n : nat) (f g : nat -> number) :
  (forall k, (k < n)%nat -> f k = g k) -> sigma n f = sigma n g.
Proof.
  induction n as [|n IH]; intros H; [reflexivity|].
  simpl. rewrite IH by (intros; apply H; lia). now rewrite H by lia.
Qed.

Lemma sigma_Num (n : nat) (f : nat -> R) :
  sigma n (fun k => Num (f k)) = Num (sumR n f).
Proof.
  induction n as [|n IH]; [reflexivity|]. simpl. now rewrite IH.
Qed.

Lemma sumR_ext (n : nat) (f g : nat -> R) :
  (forall k, (k < n)%nat -> f k = g k) -> sumR n f = sumR n g.
Proof.
  induction n as [|n IH]; intros H; [reflexivity|].
  simpl. rewrite IH by (intros; apply H; lia). now rewrite H by lia.
Qed.

(** A sum whose only non-zero term is the one of index [i]. *)
Lemma sumR_single (n i : nat) (f : nat -> R) :
  (i < n)%nat -> (forall k, (k < n)%nat -> k <> i -> f k = 0%R) ->
  sumR n f = f i.
Proof.
  induction n as [|n IH]; intros Hi H; [lia|].
  simpl. destruct (decide (i = n)) as [->|Hne].
  - assert (Z0 : sumR n f = 0%R).
    { clear IH Hi. rewrite (sumR_ext n f (fun _ => 0%R)).
      - clear. induction n; simpl; [reflexivity|]. rewrite IHn. lra.
      - intros k Hk. apply H; lia. }
    rewrite Z0. lra.
  - rewrite IH by (try lia; intros; apply H; lia).
    rewrite (H n) by lia. lra.
Qed.

Lemma tabulate_lookup (r c : nat) (g : nat -> nat -> number) (i : nat) :
  (i < r)%nat -> tabulate r c g !! i = Some (map (g i) (seq 0 c)).
Proof.
  intros Hi. unfold tabulate.
  rewrite lookup_map, lookup_seq_lt by exact Hi. reflexivity.
Qed.

Lemma tabulate_entry (r c : nat) (g : nat -> nat -> number) (i k : nat) :
  (i < r)%nat -> (k < c)%nat -> Matrix.entry (tabulate r c g) i k = g i k.
Proof.
  intros Hi Hk. unfold Matrix.entry. rewrite tabulate_lookup by exact Hi.
  rewrite lookup_map, lookup_seq_lt by exact Hk. reflexivity.
Qed.

Lemma tabulate_ext (r c : nat) (g h : nat -> nat -> number) :
  (forall i k, (i < r)%nat -> (k < c)%nat -> g i k = h i k) ->
  tabulate r c g = tabulate r c h.
Proof.
  intros H. unfold tabulate. apply map_ext_in. intros i Hi.
  apply map_ext_in. intros k Hk.
  apply in_seq in Hi, Hk. apply H; lia.
Qed.

Lemma tabulate_rectangular (r c : nat) (g : nat -> nat -> number) :
  rectangular r c (tabulate r c g).
Proof.
  split; unfold tabulate.
  - now rewrite length_map, length_seq.
  - apply Forall_forall. intros row Hrow.
    apply list_elem_of_In, in_map_iff in Hrow. destruct Hrow as [i [<- _]].
    now rewrite length_map, length_seq.
Qed.

Lemma init_tabulate (r c : nat) (x : number) :
  Matrix.init r c x = tabulate r c (fun _ _ => x).
Proof.
  unfold Matrix.init, tabulate. apply list_eq. intros i.
  destruct (decide (i < r)%nat) as [Hi|Hi].
  - rewrite lookup_replicate_2, lookup_map, lookup_seq_lt by exact Hi.
    simpl. f_equal. apply list_eq. intros k.
    destruct (decide (k < c)%nat) as [Hk|Hk].
    + now rewrite lookup_replicate_2, lookup_map, lookup_seq_lt.
    + rewrite !lookup_ge_None_2; [reflexivity| |];
        rewrite ?length_map, ?length_seq, ?length_replicate; lia.
  - rewrite !lookup_ge_None_2; [reflexivity| |];
      rewrite ?length_map, ?length_seq, ?length_replicate; lia.
Qed.

(** Writing one entry of a tabulated matrix. *)
Lemma assign_tabulate (rows c : nat) (g : nat -> nat -> number)
    (i k : nat) (v : number) :
  Matrix.assign (tabulate rows c g) i k v =
  tabulate rows c
    (fun i' k' => if (i' =? i)%nat && (k' =? k)%nat then v else g i' k').
Proof.
  unfold Matrix.assign, tabulate. apply list_eq. intros i'.
  rewrite list_lookup_alter, !lookup_map.
  destruct (decide (i' < rows)%nat) as [Hi|Hi].
  2: { destruct (decide (i = i')) as [<-|Hne];
       now rewrite !lookup_seq_ge by lia. }
  destruct (decide (i = i')) as [<-|Hne].
  - rewrite lookup_seq_lt by exact Hi. simpl. f_equal.
    rewrite Nat.eqb_refl. simpl. apply list_eq. intros k'.
    rewrite list_lookup_insert, length_map, length_seq, !lookup_map.
    destruct (decide (k' < c)%nat) as [Hk|Hk].
    + rewrite lookup_seq_lt by exact Hk. simpl.
      destruct (Nat.eqb_spec k' k) as [->|Hk'].
      * now rewrite decide_True by (split; [reflexivity|lia]).
      * now rewrite decide_False by (intros [? _]; congruence).
    + rewrite lookup_seq_ge by lia.
      now rewrite decide_False by (intros [? ?]; lia).
  - rewrite lookup_seq_lt by exact Hi. simpl. f_equal.
    apply map_ext. intros k'.
    destruct (Nat.eqb_spec i' i) as [->|_]; [congruence|reflexivity].
Qed.

(** The loop that writes [v] on the diagonal of a square matrix. *)
Lemma diagonal_tabulate (n : nat) (g : nat -> nat -> number) (v : number) :
  fold_left (fun m k => Matrix.assign m k k v) (seq 0 n) (tabulate n n g) =
  tabulate n n (fun i k => if (i =? k)%nat then v else g i k).
Proof.
  assert (H : forall m, (m <= n)%nat ->
    fold_left (fun m k => Matrix.assign m k k v) (seq 0 m) (tabulate n n g) =
    tabulate n n
      (fun i k => if (i =? k)%nat && (i <? m)%nat then v else g i k)).
  { induction m as [|m IH]; intros Hm.
    - simpl. apply tabulate_ext. intros i k _ _.
      now rewrite andb_false_r.
    - rewrite seq_S, fold_left_app, IH by lia. simpl.
      rewrite assign_tabulate. apply tabulate_ext. intros i k _ _.
      destruct (Nat.eqb_spec i m) as [->|Hi];
        destruct (Nat.eqb_spec k m) as [->|Hk]; simpl.
      + rewrite Nat.eqb_refl. simpl.
        now replace (m <? S m)%nat with true by (symmetry; apply Nat.ltb_lt; lia).
      + destruct (Nat.eqb_spec m k); [congruence|reflexivity].
      + destruct (Nat.eqb_spec i m); [congruence|reflexivity].
      + destruct (Nat.eqb_spec i k) as [->|_]; simpl; [|reflexivity].
        destruct (Nat.ltb_spec k m), (Nat.ltb_spec k (S m)); try reflexivity; lia. }
  rewrite H by lia. apply tabulate_ext. intros i k Hi _.
  replace (i <? n)%nat with true by (symmetry; apply Nat.ltb_lt; lia).
  now rewrite andb_true_r.
Qed.

Lemma mul_rectangular (a b : Matrix.matrix) (r n c : nat) :
  (0 < r)%nat -> (0 < n)%nat -> (0 < c)%nat ->
  rectangular r n a -> rectangular n c b ->
  Matrix.mul a b =
  Return (tabulate r c (fun i j =>
            sigma n (fun k => JS.mul (Matrix.entry a i k) (Matrix.entry b k j)))).
Proof.
  intros Hr Hn Hc [Ha Fa] [Hb Fb].
  destruct a as [|a0 a']; [simpl in Ha; lia|].
  destruct b as [|b0 b']; [simpl in Hb; lia|].
  unfold Matrix.mul.
  assert (La : length a0 = n) by (now inversion Fa).
  assert (Lb : length b0 = c) by (now inversion Fb).
  rewrite La, Lb, Ha, Hb.
  replace (n =? 0)%nat with false by (symmetry; apply Nat.eqb_neq; lia).
  replace (r =? 0)%nat with false by (symmetry; apply Nat.eqb_neq; lia).
  replace (c =? 0)%nat with false by (symmetry; apply Nat.eqb_neq; lia).
  rewrite Nat.eqb_refl. simpl. unfold tabulate.
  f_equal. apply map_ext. intros i. apply map_ext. intros j.
  apply (fold_left_sigma n
           (fun k => JS.mul (Matrix.entry (a0 :: a') i k)
                            (Matrix.entry (b0 :: b') k j))).
Qed.

Lemma toMatrix_map (point : list number) :
  Point.toMatrix point = map (fun x => [x]) point.
Proof.
  unfold Point.toMatrix, Matrix.init. apply list_eq. intros j.
  rewrite list_lookup_imap, lookup_map.
  destruct (decide (j < length point)%nat) as [Hj|Hj].
  - rewrite lookup_replicate_2 by exact Hj. simpl.
    destruct (lookup_lt_is_Some_2 point j Hj) as [x Hx]. now rewrite Hx.
  - rewrite (lookup_ge_None_2 point) by lia.
    rewrite lookup_ge_None_2 by (rewrite length_replicate; lia). reflexivity.
Qed.

Lemma toPoint_toMatrix (point : list number) :
  Matrix.toPoint (Point.toMatrix point) = point.
Proof.
  rewrite toMatrix_map. unfold Matrix.toPoint. rewrite map_map. simpl.
  apply map_id.
Qed.

(** The column matrix of a point of real coordinates. *)
Lemma toMatrix_tabulate (v : list R) :
  Point.toMatrix (map Num v) =
  tabulate (length v) 1 (fun i _ => Num (nth i v 0%R)).
Proof.
  rewrite toMatrix_map. unfold tabulate. apply list_eq. intros i.
  rewrite !lookup_map.
  destruct (decide (i < length v)%nat) as [Hi|Hi].
  - rewrite lookup_seq_lt by exact Hi. simpl.
    destruct (lookup_lt_is_Some_2 v i Hi) as [x Hx]. rewrite Hx. simpl.
    f_equal. f_equal. f_equal. symmetry. apply nth_lookup_Some with (d := 0%R) in Hx.
    exact Hx.
  - rewrite lookup_seq_ge, lookup_ge_None_2 by lia. reflexivity.
Qed.

(* ================================================================== *)
(** * Real matrices and the rotation composer *)
(* ================================================================== *)

Lemma nth_map_seq {B} (f : nat -> B) (n i : nat) (d : B) :
  (i < n)%nat -> nth i (map f (seq 0 n)) d = f i.
Proof.
  intros Hi. apply nth_lookup_Some with (d := d).
  - rewrite lookup_map, lookup_seq_lt by exact Hi. reflexivity.
Qed.

Lemma map_nth_seq (v : list R) :
  map (fun i => nth i v 0%R) (seq 0 (length v)) = v.
Proof.
  apply list_eq. intros i. rewrite lookup_map.
  destruct (decide (i < length v)%nat) as [Hi|Hi].
  - rewrite lookup_seq_lt by exact Hi. simpl.
    destruct (lookup_lt_is_Some_2 v i Hi) as [x Hx]. rewrite Hx. f_equal.
    now apply nth_lookup_Some.
  - rewrite lookup_seq_ge, lookup_ge_None_2 by lia. reflexivity.
Qed.

Lemma apply_length (D : nat) (M : nat -> nat -> R) (v : list R) :
  length (Spec.apply D M v) = D.
Proof. unfold Spec.apply. now rewrite length_map, length_seq. Qed.

(** [Matrix.mul] on a real square matrix and a real column computes the
    matrix-vector product. *)
Lemma mul_real_column (D : nat) (M : nat -> nat -> R) (v : list R) :
  (0 < D)%nat -> length v = D ->
  Matrix.mul (tabulate D D (fun r c => Num (M r c))) (Point.toMatrix (map Num v))
  = Return (Point.toMatrix (map Num (Spec.apply D M v))).
Proof.
  intros HD Hv. rewrite !toMatrix_tabulate, apply_length, Hv.
  rewrite (mul_rectangular _ _ D D 1) by
    (try lia; apply tabulate_rectangular).
  f_equal. apply tabulate_ext. intros i j Hi Hj.
  assert (j = 0%nat) as -> by lia.
  rewrite (sigma_ext D _ (fun k => Num (M i k * nth k v 0%R))).
  - rewrite sigma_Num. unfold Spec.apply. now rewrite nth_map_seq.
  - intros k Hk. now rewrite !tabulate_entry by lia.
Qed.

Lemma rotation_tabulate (D i j : nat) (theta : R) :
  (i < D)%nat -> (j < D)%nat -> i <> j ->
  Renderer.rotation D i j (Num theta) =
  tabulate D D (fun r c => Num (Spec.elementary i j theta r c)).
Proof.
  intros Hi Hj Hij. unfold Renderer.rotation.
  rewrite init_tabulate, diagonal_tabulate, !assign_tabulate.
  apply tabulate_ext. intros r c _ _. unfold Spec.elementary. simpl.
  destruct (Nat.eqb_spec r i), (Nat.eqb_spec c i),
           (Nat.eqb_spec r j), (Nat.eqb_spec c j), (Nat.eqb_spec r c);
    simpl; try reflexivity; congruence.
Qed.

Lemma planes_spec (D : nat) :
  Renderer.planes (Z.of_nat D) = Spec.planes D.
Proof.
  unfold Renderer.planes, Spec.planes.
  replace (Z.to_nat (Z.of_nat D - 1)) with (D - 1)%nat by lia.
  apply flat_map_ext. intros i.
  replace (Z.to_nat (Z.of_nat D - (Z.of_nat i + 1))) with (D - S i)%nat by lia.
  now replace (i + 1)%nat with (S i) by lia.
Qed.

Lemma planes_in_range (D i j : nat) :
  In (i, j) (Spec.planes D) -> (i < j < D)%nat.
Proof.
  unfold Spec.planes. rewrite in_flat_map. intros [i' [Hi' Hin]].
  apply in_map_iff in Hin. destruct Hin as [j' [Heq Hj']].
  inversion Heq; subst. apply in_seq in Hi', Hj'. lia.
Qed.

Lemma planes_length_twice (D : nat) :
  (2 * length (Spec.planes D) = D * (D - 1))%nat.
Proof.
  unfold Spec.planes.
  assert (H : forall n, (n <= D - 1)%nat ->
    (2 * length (flat_map (fun i => map (fun j => (i, j)) (seq (S i) (D - S i)))
                   (seq 0 n)) + n * n + n = 2 * n * D)%nat).
  { induction n as [|n IH]; intros Hn; [reflexivity|].
    rewrite seq_S, flat_map_app, length_app. simpl.
    rewrite length_app, length_map, length_seq. simpl.
    specialize (IH ltac:(lia)). nia. }
  destruct D as [|D]; [reflexivity|].
  specialize (H (S D - 1)%nat ltac:(lia)).
  replace (S D - 1)%nat with D in * by lia. nia.
Qed.

Lemma planes_length (D : nat) :
  length (Spec.planes D) = Spec.planeCount D.
Proof.
  unfold Spec.planeCount. rewrite <- planes_length_twice.
  rewrite Nat.mul_comm, Nat.div_mul by lia. reflexivity.
Qed.

Lemma planeCount_INR (D : nat) :
  (2 <= D)%nat ->
  (INR (Spec.planeCount D) = INR D * (INR D - 1) / 2)%R.
Proof.
  intros HD. rewrite <- planes_length.
  assert (H : (2 * INR (length (Spec.planes D)) = INR D * (INR D - 1))%R).
  { replace 2%R with (INR 2) by reflexivity.
    rewrite <- mult_INR, planes_length_twice, mult_INR, minus_INR by lia.
    reflexivity. }
  lra.
Qed.

Lemma planeCount_positive (D : nat) :
  (2 <= D)%nat -> (0 < INR (Spec.planeCount D))%R.
Proof.
  intros HD. rewrite planeCount_INR by exact HD.
  assert (2 <= INR D)%R by (replace 2%R with (INR 2) by reflexivity; now apply le_INR).
  nra.
Qed.

Lemma planeCount_nonzero (D : nat) :
  (2 <= D)%nat -> INR (Spec.planeCount D) <> 0%R.
Proof. intros HD. apply Rgt_not_eq. now apply planeCount_positive. Qed.

Lemma div_Num (x y : R) : y <> 0%R -> JS.div (Num x) (Num y) = Num (x / y).
Proof. intros Hy. unfold JS.div. now destruct (Req_dec_T y 0). Qed.

Lemma degree_Num : Renderer.degree = Num (PI / 180).
Proof. unfold Renderer.degree. apply div_Num. lra. Qed.

Lemma rotationLength_Num (G : Global.config) (D : nat) :
  (2 <= D)%nat -> Global.DIMENSIONS G = Z.of_nat D ->
  Renderer.rotationLength G = Num (INR (Spec.planeCount D)).
Proof.
  intros HD HG. unfold Renderer.rotationLength, ofZ. rewrite HG.
  unfold JS.mul, JS.sub, lift2. rewrite div_Num by lra. f_equal.
  rewrite planeCount_INR by exact HD. now rewrite <- INR_IZR_INZ.
Qed.

(** One rotation of the loop of [transformGenerator], on a real point. *)
Lemma applyRotation_real (G : Global.config) (D i j : nat) (o theta mu : R)
    (v : list R) :
  (2 <= D)%nat -> Global.DIMENSIONS G = Z.of_nat D ->
  Global.ROTATION_OFFSET G = Num o ->
  length v = D -> (i < D)%nat -> (j < D)%nat -> i <> j ->
  Renderer.applyRotation G (Num theta)
    (Return (Point.toMatrix (map Num v), Num mu)) (Renderer.rotation D i j)
  = Return
      (Point.toMatrix
         (map Num
            (Spec.apply D
               (Spec.elementary i j
                  (if Req_dec_T o 0 then theta else (theta * mu)%R)) v)),
       Num (mu + o / INR (Spec.planeCount D))).
Proof.
  intros HD HG Ho Hv Hi Hj Hij. unfold Renderer.applyRotation.
  rewrite Ho, (rotationLength_Num G D HD HG).
  rewrite div_Num by now apply planeCount_nonzero. cbn [mbind outcome_bind JS.bind].
  unfold truthy. destruct (Req_dec_T o 0) as [Ho0|Ho0].
  - rewrite rotation_tabulate, mul_real_column by (assumption || lia).
    reflexivity.
  - cbn [JS.mul lift2].
    rewrite rotation_tabulate, mul_real_column by (assumption || lia).
    reflexivity.
Qed.

(** The whole loop over the memoised rotations, started at the plane of
    rank [k0] with the multiplier it has there. *)
Lemma rotations_fold (G : Global.config) (D : nat) (o theta : R)
    (ps : list (nat * nat)) :
  (2 <= D)%nat -> Global.DIMENSIONS G = Z.of_nat D ->
  Global.ROTATION_OFFSET G = Num o ->
  (forall i j, In (i, j) ps -> (i < j < D)%nat) ->
  forall (k0 : nat) (v : list R), length v = D ->
  fold_left (Renderer.applyRotation G (Num theta))
    (map (fun '(i, j) => Renderer.rotation D i j) ps)
    (Return (Point.toMatrix (map Num v),
             Num (1 + INR k0 * o / INR (Spec.planeCount D))))
  = Return
      (Point.toMatrix
         (map Num
            (fold_left
               (fun v '(k, (i, j)) =>
                  Spec.apply D
                    (Spec.elementary i j
                       (if Req_dec_T o 0 then theta
                        else (theta * (1 + INR k * o / INR (Spec.planeCount D)))%R))
                    v)
               (imap (fun k plane => ((k0 + k)%nat, plane)) ps) v)),
       Num (1 + INR (k0 + length ps) * o / INR (Spec.planeCount D))).
Proof.
  intros HD HG Ho. pose proof (planeCount_positive D HD) as Hm.
  induction ps as [|[i j] ps IH]; intros Hps k0 v Hv.
  - simpl. now rewrite Nat.add_0_r.
  - destruct (Hps i j (or_introl eq_refl)) as [Hij HjD].
    cbn [map fold_left]. rewrite imap_cons. cbn [fold_left].
    rewrite (applyRotation_real G D i j o) by (assumption || lia).
    replace (1 + INR k0 * o / INR (Spec.planeCount D)
             + o / INR (Spec.planeCount D))%R
      with (1 + INR (S k0) * o / INR (Spec.planeCount D))%R
      by (rewrite S_INR; field; now apply planeCount_nonzero).
    rewrite IH.
    + rewrite Nat.add_0_r. f_equal. f_equal.
      * f_equal. f_equal. f_equal.
        apply imap_ext. intros k plane _. unfold compose.
        replace (S k0 + k)%nat with (k0 + S k)%nat by lia. reflexivity.
      * replace (S k0 + length ps)%nat with (k0 + length ((i, j) :: ps))%nat
          by (simpl; lia). reflexivity.
    + intros i' j' Hin. apply Hps. now right.
    + apply apply_length.
Qed.

(** [transformPoint] computes the specified product of plane rotations. *)
Lemma transformPoint_real (G : Global.config) (D : nat) (s t o : R)
    (p : list R) :
  (2 <= D)%nat -> length p = D ->
  Global.DIMENSIONS G = Z.of_nat D ->
  Global.SPEED G = Num s ->
  Global.ROTATION_OFFSET G = Num o ->
  Renderer.transformPoint G (Num t) (map Num p)
  = Return (map Num (Spec.rotated D s t o p)).
Proof.
  intros HD Hp HG Hs Ho. unfold Renderer.transformPoint.
  rewrite Hs, degree_Num. cbn [JS.mul lift2].
  unfold Renderer.rotationsGenerator. rewrite HG, planes_spec, Nat2Z.id.
  replace (Num 1) with (Num (1 + INR 0 * o / INR (Spec.planeCount D)))
    by (f_equal; simpl; field; now apply planeCount_nonzero).
  rewrite (rotations_fold G D o) by
    (try assumption; intros i j Hin; now apply planes_in_range).
  cbn [mbind outcome_bind JS.bind]. rewrite toPoint_toMatrix.
  f_equal. f_equal. unfold Spec.rotated.
  assert (E : forall (l : list (nat * (nat * nat))) v,
    fold_left
      (fun v '(k, (i, j)) =>
         Spec.apply D
           (Spec.elementary i j
              (if Req_dec_T o 0 then (t * s * (PI / 180))%R
               else (t * s * (PI / 180)
                     * (1 + INR k * o / INR (Spec.planeCount D)))%R)) v) l v
    = fold_left
        (fun v '(k, (i, j)) =>
           Spec.apply D
             (Spec.elementary i j
                (Spec.thetaPlane s t o (Spec.planeCount D) k)) v) l v).
  { induction l as [|[k [i j]] l IHl]; intros v; [reflexivity|].
    simpl. rewrite IHl. f_equal. f_equal. f_equal.
    unfold Spec.thetaPlane, Spec.thetaBase.
    destruct (Req_dec_T o 0); ring. }
  rewrite E. f_equal.
Qed.

(** At the angle zero every elementary rotation is the identity. *)
Lemma elementary_zero (i j r c : nat) :
  Spec.elementary i j 0 r c = if (r =? c)%nat then 1%R else 0%R.
Proof.
  unfold Spec.elementary. rewrite cos_0, sin_0, Ropp_0.
  destruct (Nat.eqb_spec r i), (Nat.eqb_spec c i),
           (Nat.eqb_spec r j), (Nat.eqb_spec c j), (Nat.eqb_spec r c);
    simpl; try reflexivity; congruence.
Qed.

Lemma apply_identity (D : nat) (M : nat -> nat -> R) (v : list R) :
  length v = D ->
  (forall r c, M r c = if (r =? c)%nat then 1%R else 0%R) ->
  Spec.apply D M v = v.
Proof.
  intros Hv HM. unfold Spec.apply.
  transitivity (map (fun i => nth i v 0%R) (seq 0 (length v)));
    [|apply map_nth_seq].
  rewrite Hv. apply map_ext_in. intros r Hr. apply in_seq in Hr.
  rewrite (sumR_single D r).
  - rewrite HM, Nat.eqb_refl. ring.
  - lia.
  - intros k _ Hk. rewrite HM.
    destruct (Nat.eqb_spec r k); [congruence|ring].
Qed.

Lemma rotated_zero (D : nat) (s t o : R) (p : list R) :
  length p = D -> (s = 0 \/ t = 0)%R -> Spec.rotated D s t o p = p.
Proof.
  intros Hp Hz. unfold Spec.rotated.
  assert (T : forall k, Spec.thetaPlane s t o (Spec.planeCount D) k = 0%R).
  { intros k. unfold Spec.thetaPlane, Spec.thetaBase.
    destruct (Req_dec_T o 0), Hz; subst; ring. }
  generalize (imap (fun k plane => (k, plane)) (Spec.planes D)).
  intros l. induction l as [|[k [i j]] l IH]; [reflexivity|].
  simpl. rewrite T, apply_identity; auto using elementary_zero.
Qed.

(* ================================================================== *)
(** * The vertex generator *)
(* ================================================================== *)

Lemma chars_append (a b : string) :
  list_ascii_of_string (String.append a b)
  = list_ascii_of_string a ++ list_ascii_of_string b.
Proof. induction a as [|c a IH]; simpl; [reflexivity|now rewrite IH]. Qed.

Lemma chars_length (a : string) :
  String.length a = length (list_ascii_of_string a).
Proof. induction a as [|c a IH]; simpl; [reflexivity|now rewrite IH]. Qed.

Lemma append_assoc (a b c : string) :
  String.append (String.append a b) c = String.append a (String.append b c).
Proof. induction a as [|x a IH]; simpl; [reflexivity|now rewrite IH]. Qed.

Lemma binaryDigits_acc (p : positive) (acc : string) :
  binaryDigits p acc = String.append (binaryDigits p "") acc.
Proof.
  revert acc. induction p as [p IH|p IH|]; intros acc; simpl.
  - rewrite (IH (String "1" acc)), (IH "1"%string).
    now rewrite append_assoc.
  - rewrite (IH (String "0" acc)), (IH "0"%string).
    now rewrite append_assoc.
  - reflexivity.
Qed.

Lemma binaryDigits_length (p : positive) :
  String.length (binaryDigits p "") = Pos.size_nat p.
Proof.
  induction p as [p IH|p IH|]; simpl; [| |reflexivity];
    rewrite binaryDigits_acc, chars_length, chars_append, length_app,
      <- chars_length, IH; simpl; lia.
Qed.

Lemma size_nat_bound (p : positive) (D : nat) :
  (Pos.to_nat p < 2 ^ D)%nat -> (Pos.size_nat p <= D)%nat.
Proof.
  revert D. induction p as [p IH|p IH|]; intros D H.
  - destruct D as [|D]; [simpl in H; lia|]. simpl.
    apply le_n_S, IH. rewrite Pos2Nat.inj_xI, Nat.pow_succ_r' in H. lia.
  - destruct D as [|D]; [simpl in H; lia|]. simpl.
    apply le_n_S, IH. rewrite Pos2Nat.inj_xO, Nat.pow_succ_r' in H. lia.
  - destruct D as [|D]; [simpl in H; lia|]. simpl. lia.
Qed.

Lemma binaryPoint_unfold (D i : nat) :
  binaryPoint D i =
  replicate (D - length (list_ascii_of_string (toString2 (N.of_nat i)))) "0"%char
  ++ list_ascii_of_string (toString2 (N.of_nat i)).
Proof.
  unfold binaryPoint, arrayFromString, padStart.
  now rewrite chars_append, list_ascii_of_string_of_list_ascii, chars_length.
Qed.

Lemma replicate_snoc {A} (n : nat) (x : A) :
  replicate n x ++ [x] = replicate (S n) x.
Proof. induction n as [|n IH]; simpl; [reflexivity|now rewrite IH]. Qed.

(** The string of [2 q + r] is the string of [q] followed by the digit
    of [r]. *)
Lemma binaryPoint_snoc (D q : nat) (r : bool) :
  (1 <= D)%nat -> (q < 2 ^ D)%nat ->
  binaryPoint (S D) (2 * q + (if r then 1 else 0)) = binaryPoint D q ++ [digit r].
Proof.
  intros HD Hq. rewrite !binaryPoint_unfold.
  destruct q as [|q'].
  - assert (E : list_ascii_of_string
               (toString2 (N.of_nat (2 * 0 + (if r then 1 else 0)))) = [digit r])
      by (now destruct r).
    rewrite E.
    change (list_ascii_of_string (toString2 (N.of_nat 0))) with ["0"%char].
    cbn [length]. rewrite replicate_snoc. do 2 f_equal. lia.
  - remember (S q') as q eqn:Eq.
    assert (Hp : exists p, N.of_nat q = Npos p /\ Pos.to_nat p = q).
    { exists (Pos.of_succ_nat q'). subst q. split; [reflexivity|].
      apply SuccNat2Pos.id_succ. }
    destruct Hp as [p [Hp Hpq]].
    assert (E : toString2 (N.of_nat (2 * q + (if r then 1 else 0)))
                = String.append (toString2 (N.of_nat q)) (String (digit r) "")).
    { rewrite Hp.
      replace (N.of_nat (2 * q + (if r then 1 else 0)))
        with (if r then Npos p~1 else Npos p~0)
        by (destruct r; lia).
      destruct r; simpl; now rewrite binaryDigits_acc. }
    rewrite E, chars_append. simpl.
    rewrite length_app. simpl.
    assert (L : (length (list_ascii_of_string (toString2 (N.of_nat q))) <= D)%nat).
    { rewrite Hp. simpl. rewrite <- chars_length, binaryDigits_length.
      apply size_nat_bound. lia. }
    rewrite app_assoc. f_equal. f_equal. f_equal. lia.
Qed.

Lemma seq_double (n : nat) :
  seq 0 (2 * n) = flat_map (fun q => [2 * q; 2 * q + 1]%nat) (seq 0 n).
Proof.
  induction n as [|n IH]; [reflexivity|].
  replace (2 * S n)%nat with (2 * n + 2)%nat by lia.
  rewrite seq_app, IH, (seq_S n 0), flat_map_app. simpl.
  do 3 f_equal; lia.
Qed.

Lemma binaryPoints_step (D : nat) :
  (1 <= D)%nat ->
  binaryPoints (S D) =
  flat_map (fun w => [w ++ ["0"%char]; w ++ ["1"%char]]) (binaryPoints D).
Proof.
  intros HD. unfold binaryPoints.
  rewrite Nat.pow_succ_r', seq_double.
  assert (H : forall l, (forall q, In q l -> (q < 2 ^ D)%nat) ->
    map (binaryPoint (S D)) (flat_map (fun q => [2 * q; 2 * q + 1]%nat) l)
    = flat_map (fun w => [w ++ ["0"%char]; w ++ ["1"%char]])
        (map (binaryPoint D) l)).
  { induction l as [|q l IH]; intros Hl; [reflexivity|].
    cbn [flat_map map]. rewrite map_app.
    rewrite IH by (intros; apply Hl; now right).
    pose proof (binaryPoint_snoc D q false HD (Hl q (or_introl eq_refl))) as E0.
    pose proof (binaryPoint_snoc D q true HD (Hl q (or_introl eq_refl))) as E1.
    cbn [digit] in E0, E1. rewrite Nat.add_0_r in E0.
    cbn [map]. now rewrite E0, E1. }
  apply H. intros q Hq. apply in_seq in Hq. lia.
Qed.

Lemma binaryPoints_one : binaryPoints 1 = [["0"%char]; ["1"%char]].
Proof. reflexivity. Qed.

(** Every string of the vertex set has [D] binary digits. *)
Lemma binaryPoints_shape (D : nat) :
  (1 <= D)%nat ->
  Forall (fun w => length w = D /\ Forall isDigit w) (binaryPoints D).
Proof.
  induction 1 as [|D HD IH].
  - rewrite binaryPoints_one.
    constructor; [|constructor; [|constructor]].
    + split; [reflexivity|]. constructor; [now left|constructor].
    + split; [reflexivity|]. constructor; [now right|constructor].
  - rewrite binaryPoints_step by exact HD.
    induction IH as [|w l [Hw Fw] _ IHl]; [constructor|].
    simpl. constructor; [|constructor; [|exact IHl]].
    + split; [rewrite length_app; simpl; lia|].
      apply Forall_app; split; [exact Fw|]. constructor; [now left|constructor].
    + split; [rewrite length_app; simpl; lia|].
      apply Forall_app; split; [exact Fw|]. constructor; [now right|constructor].
Qed.

Lemma binaryPoints_length (D : nat) : length (binaryPoints D) = (2 ^ D)%nat.
Proof. unfold binaryPoints. now rewrite length_map, length_seq. Qed.

Lemma binaryPoints_lookup (D i : nat) :
  (i < 2 ^ D)%nat -> binaryPoints D !! i = Some (binaryPoint D i).
Proof.
  intros Hi. unfold binaryPoints.
  now rewrite lookup_map, lookup_seq_lt by exact Hi.
Qed.

Lemma toString2_snoc (q : nat) (r : bool) :
  (1 <= q)%nat ->
  list_ascii_of_string (toString2 (N.of_nat (2 * q + (if r then 1 else 0))))
  = list_ascii_of_string (toString2 (N.of_nat q)) ++ [digit r].
Proof.
  intros Hq. destruct q as [|q']; [lia|].
  replace (N.of_nat (2 * S q' + (if r then 1 else 0)))
    with (if r then Npos (Pos.of_succ_nat q')~1 else Npos (Pos.of_succ_nat q')~0)
    by (destruct r; lia).
  change (N.of_nat (S q')) with (Npos (Pos.of_succ_nat q')).
  destruct r; simpl; now rewrite binaryDigits_acc, chars_append.
Qed.

Lemma toString2_power (D : nat) :
  list_ascii_of_string (toString2 (N.of_nat (2 ^ D)))
  = "1"%char :: replicate D "0"%char.
Proof.
  induction D as [|D IH]; [reflexivity|].
  rewrite Nat.pow_succ_r'.
  assert (Hq : (1 <= 2 ^ D)%nat) by (pose proof (Nat.pow_nonzero 2 D); lia).
  pose proof (toString2_snoc (2 ^ D) false Hq) as E.
  cbv iota in E. rewrite Nat.add_0_r in E. rewrite E, IH.
  simpl. now rewrite replicate_snoc.
Qed.

Lemma endToString2_length (D : nat) :
  (String.length (Renderer.endToString2 (Z.of_nat D)) - 1)%nat = D.
Proof.
  unfold Renderer.endToString2.
  replace (0 <=? Z.of_nat D) with true by (symmetry; apply Z.leb_le; lia).
  replace (2 ^ Z.to_N (Z.of_nat D))%N with (N.of_nat (2 ^ D))
    by (rewrite Nat2N.inj_pow; f_equal; lia).
  rewrite chars_length, toString2_power. simpl.
  rewrite length_replicate. lia.
Qed.

Lemma loopIndices_seq (D : nat) :
  Renderer.loopIndices (Z.of_nat D) = seq 0 (2 ^ D).
Proof.
  unfold Renderer.loopIndices.
  replace (0 <=? Z.of_nat D) with true by (symmetry; apply Z.leb_le; lia).
  f_equal. change 2 with (Z.of_nat 2). now rewrite <- Nat2Z.inj_pow, Nat2Z.id.
Qed.

Lemma cubePoint_binary (D : nat) (size : number) (i : nat) :
  Renderer.cubePoint (Z.of_nat D) size i
  = map (coordinate size) (binaryPoint D i).
Proof.
  unfold Renderer.cubePoint. rewrite endToString2_length, map_map. reflexivity.
Qed.

Lemma cubePoints_binary (D : nat) (size : number) :
  Renderer.cubePointsGenerator (Z.of_nat D) size
  = map (map (coordinate size)) (binaryPoints D).
Proof.
  unfold Renderer.cubePointsGenerator, binaryPoints.
  rewrite loopIndices_seq, map_map. apply map_ext. intros i.
  apply cubePoint_binary.
Qed.

Lemma coordinate_real (s : R) (c : ascii) :
  coordinate (Num s) c = Num (realCoordinate s c).
Proof.
  unfold coordinate, realCoordinate.
  destruct (Ascii.eqb c "0"); cbn [JS.mul lift2]; apply div_Num; lra.
Qed.

Lemma cubePoints_real (D : nat) (s : R) :
  Renderer.cubePointsGenerator (Z.of_nat D) (Num s)
  = map (map Num) (realPoints D s).
Proof.
  rewrite cubePoints_binary. unfold realPoints. rewrite map_map.
  apply map_ext. intros w. rewrite map_map. apply map_ext. intros c.
  apply coordinate_real.
Qed.

Lemma binaryPoint_shape (D i : nat) :
  (1 <= D)%nat -> (i < 2 ^ D)%nat ->
  length (binaryPoint D i) = D /\ Forall isDigit (binaryPoint D i).
Proof.
  intros HD Hi.
  exact (Forall_lookup_1 _ _ _ _ (binaryPoints_shape D HD)
           (binaryPoints_lookup D i Hi)).
Qed.

(** The character of rank [k] is the bit of weight [D - 1 - k]. *)
Lemma binaryPoint_testbit (D : nat) :
  (1 <= D)%nat -> forall i k, (i < 2 ^ D)%nat -> (k < D)%nat ->
  binaryPoint D i !! k
  = Some (digit (N.testbit (N.of_nat i) (N.of_nat (D - 1 - k)))).
Proof.
  induction 1 as [|D HD IH]; intros i k Hi Hk.
  - assert (k = 0%nat) as -> by lia.
    assert (i = 0 \/ i = 1)%nat as [-> | ->] by (simpl in Hi; lia);
      reflexivity.
  - rewrite Nat.pow_succ_r' in Hi.
    assert (Ei : exists (q : nat) (r : bool), i = (2 * q + (if r then 1 else 0))%nat).
    { exists (i / 2)%nat, (Nat.odd i). rewrite (Nat.div_mod_eq i 2) at 1.
      f_equal. rewrite <- Nat.bit0_mod, Nat.bit0_odd. now destruct (Nat.odd i). }
    destruct Ei as [q [r ->]].
    assert (Hq : (q < 2 ^ D)%nat) by (destruct r; lia).
    rewrite (binaryPoint_snoc D q r HD Hq).
    replace (N.of_nat (2 * q + (if r then 1 else 0)))
      with (2 * N.of_nat q + N.b2n r)%N by (destruct r; simpl N.b2n; lia).
    destruct (binaryPoint_shape D q HD Hq) as [Lq _].
    destruct (decide (k < D)%nat) as [Hk'|Hk'].
    + rewrite lookup_app_l by lia. rewrite IH by assumption.
      replace (N.of_nat (S D - 1 - k)) with (N.succ (N.of_nat (D - 1 - k))) by lia.
      now rewrite N.testbit_succ_r.
    + assert (k = D) as -> by lia.
      rewrite lookup_app_r, Lq, Nat.sub_diag by lia.
      replace (N.of_nat (S D - 1 - D)) with 0%N by lia.
      now rewrite N.testbit_0_r.
Qed.

Lemma snoc_NoDup {A} (l : list (list A)) (x y : A) :
  x <> y -> List.NoDup l ->
  List.NoDup (flat_map (fun w => [w ++ [x]; w ++ [y]]) l).
Proof.
  intros Hxy. induction 1 as [|w l Hw Hl IH]; [constructor|].
  cbn [flat_map app].
  assert (Hin : forall z, ~ In (w ++ [z])
                            (flat_map (fun w => [w ++ [x]; w ++ [y]]) l)).
  { intros z Hz. apply in_flat_map in Hz. destruct Hz as [w' [Hw' Hz]].
    destruct Hz as [Hz|[Hz|[]]]; apply app_inj_tail in Hz;
      destruct Hz as [<- _]; contradiction. }
  constructor.
  - intros [Hz|Hz]; [|exact (Hin x Hz)].
    apply app_inj_tail in Hz. destruct Hz as [_ Hz]. congruence.
  - constructor; [apply Hin|exact IH].
Qed.

Lemma binaryPoints_NoDup (D : nat) :
  (1 <= D)%nat -> List.NoDup (binaryPoints D).
Proof.
  induction 1 as [|D HD IH].
  - rewrite binaryPoints_one.
    constructor; [|constructor; [|constructor]]; simpl; intuition discriminate.
  - rewrite binaryPoints_step by exact HD. now apply snoc_NoDup.
Qed.

Lemma realCoordinate_inj (s : R) (c d : ascii) :
  s <> 0%R -> isDigit c -> isDigit d ->
  realCoordinate s c = realCoordinate s d -> c = d.
Proof.
  intros Hs [-> | ->] [-> | ->]; unfold realCoordinate; simpl;
    try reflexivity; intros H; exfalso; apply Hs; lra.
Qed.

Lemma map_realCoordinate_inj (s : R) (v w : list ascii) :
  s <> 0%R -> Forall isDigit v -> Forall isDigit w ->
  map (realCoordinate s) v = map (realCoordinate s) w -> v = w.
Proof.
  intros Hs Hv. revert w. induction Hv as [|c v Hc Hv IH]; intros w Hw E.
  - destruct w; [reflexivity|discriminate].
  - destruct Hw as [|d w Hd Hw]; [discriminate|].
    simpl in E. inversion E as [[E1 E2]].
    f_equal; [now apply (realCoordinate_inj s)|now apply IH].
Qed.

Lemma realPoints_NoDup (D : nat) (s : R) :
  (1 <= D)%nat -> s <> 0%R -> List.NoDup (realPoints D s).
Proof.
  intros HD Hs. unfold realPoints.
  apply NoDup_map_NoDup_ForallPairs; [|now apply binaryPoints_NoDup].
  intros v w Hv Hw E.
  pose proof (binaryPoints_shape D HD) as F.
  rewrite Forall_forall in F.
  apply list_elem_of_In, F in Hv. apply list_elem_of_In, F in Hw.
  apply (map_realCoordinate_inj s); tauto.
Qed.

Lemma map_Num_inj (v w : list R) : map Num v = map Num w -> v = w.
Proof.
  revert w. induction v as [|x v IH]; intros [|y w] E; try discriminate;
    [reflexivity|].
  simpl in E. inversion E. f_equal. now apply IH.
Qed.

(* ================================================================== *)
(** * The projector *)
(* ================================================================== *)

Lemma apply_scalar (D : nat) (r : R) (v : list R) :
  length v = D ->
  Spec.apply D (fun i k => if (i =? k)%nat then r else 0%R) v = map (Rmult r) v.
Proof.
  intros Hv. unfold Spec.apply.
  transitivity (map (Rmult r) (map (fun i => nth i v 0%R) (seq 0 (length v))));
    [|now rewrite map_nth_seq].
  rewrite map_map, Hv. apply map_ext_in. intros i Hi. apply in_seq in Hi.
  rewrite (sumR_single D i).
  - now rewrite Nat.eqb_refl.
  - lia.
  - intros k _ Hk. destruct (Nat.eqb_spec i k); [congruence|ring].
Qed.

Lemma lookup_map_Num (w : list R) (i : nat) :
  (i < length w)%nat -> map Num w !! i = Some (Num (nth i w 0%R)).
Proof.
  intros Hi. rewrite lookup_map.
  destruct (lookup_lt_is_Some_2 w i Hi) as [x Hx]. rewrite Hx. simpl.
  do 2 f_equal. symmetry. now apply nth_lookup_Some.
Qed.

(** One step of the projection loop scales every coordinate. *)
Lemma projectionStep_real (G : Global.config) (F : R) (i : nat) (w : list R) :
  Global.FAR_CLIPPING_PLANE G = Num F ->
  (i < length w)%nat -> (F - nth i w 0%R <> 0)%R ->
  Renderer.projectionStep G (length w) i (map Num w)
  = Return (map Num (map (Rmult (F / (F - nth i w 0%R))) w)).
Proof.
  intros HF Hi Hn. unfold Renderer.projectionStep.
  rewrite HF, lookup_map_Num by exact Hi. cbn [JS.sub lift2].
  rewrite div_Num by exact Hn.
  rewrite init_tabulate, diagonal_tabulate.
  rewrite (tabulate_ext _ _ _
             (fun r c => Num (if (r =? c)%nat then (F / (F - nth i w 0%R))%R else 0%R)))
    by (intros r c _ _; now destruct (r =? c)%nat).
  rewrite mul_real_column by (try reflexivity; lia).
  cbn [mbind outcome_bind JS.bind]. rewrite toPoint_toMatrix.
  now rewrite apply_scalar.
Qed.

Lemma projectionLoop_real (G : Global.config) (F : R) (len : nat) :
  Global.FAR_CLIPPING_PLANE G = Num F ->
  forall (i : nat) (w : list R),
  length w = len -> (i < len)%nat -> Spec.regular F i w ->
  Renderer.projectionLoop G len i (map Num w)
  = Return (map Num (Spec.scaled F i w)).
Proof.
  intros HF. induction i as [|i IH]; intros w Hw Hi Hreg; [reflexivity|].
  cbn [Renderer.projectionLoop Spec.scaled Spec.regular] in *.
  destruct (1 <? S i)%nat; [|reflexivity].
  destruct Hreg as [Hn Hreg].
  pose proof (projectionStep_real G F (S i) w HF ltac:(lia) Hn) as E.
  rewrite Hw in E. rewrite E. cbn [mbind outcome_bind JS.bind].
  apply IH; [now rewrite length_map|lia|exact Hreg].
Qed.

Lemma projectPoint_real (G : Global.config) (F : R) (w : list R) :
  Global.FAR_CLIPPING_PLANE G = Num F ->
  Spec.regular F (length w - 1) w ->
  Renderer.projectPoint G (map Num w)
  = Return (map Num (Spec.scaled F (length w - 1) w)).
Proof.
  intros HF Hreg. unfold Renderer.projectPoint. rewrite length_map.
  destruct w as [|x w]; [reflexivity|].
  apply projectionLoop_real; [exact HF|reflexivity|simpl; lia|exact Hreg].
Qed.

Lemma scaled_length (F : R) (i : nat) (w : list R) :
  length (Spec.scaled F i w) = length w.
Proof.
  revert w. induction i as [|i IH]; intros w; [reflexivity|].
  cbn [Spec.scaled]. destruct (1 <? S i)%nat; [|reflexivity].
  now rewrite IH, length_map.
Qed.

(** The point of the specification is the first two coordinates of the
    point the code computes. *)
Lemma projected_scaled (F : R) (i : nat) (w : list R) :
  (1 <= i)%nat -> (S i <= length w)%nat ->
  Spec.projected F i (take (S i) w) = take 2 (Spec.scaled F i w).
Proof.
  revert w. induction i as [|i IH]; intros w Hi Hw; [lia|].
  cbn [Spec.projected Spec.scaled].
  destruct (Nat.ltb_spec 1 (S i)) as [H1|H1].
  - rewrite <- IH by (rewrite ?length_map; lia).
    f_equal. rewrite take_take.
    replace (S i `min` S (S i))%nat with (S i) by lia.
    replace (nth (S i) (take (S (S i)) w) 0%R) with (nth (S i) w 0%R).
    + clear. revert w. generalize (S i) as n.
      induction n as [|n IHn]; intros [|x w]; simpl; try reflexivity.
      f_equal. apply IHn.
    + destruct (lookup_lt_is_Some_2 w (S i) ltac:(lia)) as [x Hx].
      rewrite (nth_lookup_Some _ _ _ _ Hx). symmetry.
      apply nth_lookup_Some. rewrite lookup_take_lt by lia. exact Hx.
  - assert (i = 0%nat) as -> by lia. reflexivity.
Qed.

(* ================================================================== *)
(** * Matrix multiplication (claim C7) *)
(* ================================================================== *)

(** C7, as the code has it.  [mul] fails exactly when an argument has no
    row, when the first row of an argument is empty, or when the length
    of the first row of [a] differs from the number of rows of [b]; rows
    after the first are not inspected.  On rectangular, non-empty
    arguments of matching dimensions it returns the rows(a) x cols(b)
    matrix whose entry (i, j) is the sum over k of a[i][k] * b[k][j]. *)
Theorem mul_failure_and_product :
  (forall a b : Matrix.matrix,
     throws (Matrix.mul a b) = true <->
     (length a = 0%nat \/ cols a = 0%nat \/ length b = 0%nat \/ cols b = 0%nat \/
      cols a <> length b)) /\
  (forall (a b : Matrix.matrix) (r n c : nat),
     (0 < r)%nat -> (0 < n)%nat -> (0 < c)%nat ->
     rectangular r n a -> rectangular n c b ->
     exists m,
       Matrix.mul a b = Return m /\ rectangular r c m /\
       forall i j, (i < r)%nat -> (j < c)%nat ->
         Matrix.entry m i j
         = sigma n (fun k => JS.mul (Matrix.entry a i k) (Matrix.entry b k j))).
Proof.
  split.
  - intros a b. unfold Matrix.mul.
    destruct a as [|a0 a']; [simpl; intuition lia|].
    destruct b as [|b0 b']; [simpl; intuition lia|].
    cbn [cols length].
    destruct (Nat.eqb_spec (length a0) 0) as [Ha|Ha]; [simpl; intuition lia|].
    destruct (Nat.eqb_spec (length b0) 0) as [Hb|Hb]; [simpl; intuition lia|].
    destruct (Nat.eqb_spec (length a0) (S (length b'))) as [E|E]; simpl.
    + split; [discriminate|]. intros [H|[H|[H|[H|H]]]]; lia.
    + split; [intros _; now repeat right|reflexivity].
  - intros a b r n c Hr Hn Hc Ha Hb.
    eexists. split; [now apply (mul_rectangular a b r n c)|].
    split; [apply tabulate_rectangular|].
    intros i j Hi Hj. now rewrite tabulate_entry.
Qed.

Lemma mul_failure_and_product_witness :
  exists m,
    Matrix.mul [[Num 1; Num 2]; [Num 3; Num 4]] [[Num 5]; [Num 6]] = Return m /\
    rectangular 2 1 m.
Proof.
  destruct (proj2 mul_failure_and_product
              [[Num 1; Num 2]; [Num 3; Num 4]] [[Num 5]; [Num 6]]
              2%nat 2%nat 1%nat)
    as [m [Hm [Hrect _]]].
  - lia.
  - lia.
  - lia.
  - split; [reflexivity|]. repeat constructor.
  - split; [reflexivity|]. repeat constructor.
  - exists m. split; assumption.
Defined.

(** C7 as stated fails: a ragged first argument is multiplied without
    any failure (its missing entry turns the affected sum into NaN). *)
Lemma mul_accepts_ragged_matrix :
  ~ Stated.mulFails [[Num 1; Num 2]; [Num 3]] [[Num 1]; [Num 1]].
Proof.
  unfold Stated.mulFails. intros [_ H].
  assert (E : throws (Matrix.mul [[Num 1; Num 2]; [Num 3]] [[Num 1]; [Num 1]])
              = false) by reflexivity.
  rewrite H in E; [discriminate|].
  do 4 right. left. reflexivity.
Qed.

(* ================================================================== *)
(** * Rotation (claims C3 and C8) *)
(* ================================================================== *)

Lemma rotationsGenerator_lookup (D k i j : nat) :
  Spec.planes D !! k = Some (i, j) ->
  Renderer.rotationsGenerator (Z.of_nat D) !! k
  = Some (Renderer.rotation D i j).
Proof.
  intros H. unfold Renderer.rotationsGenerator.
  rewrite planes_spec, Nat2Z.id, lookup_map, H. reflexivity.
Qed.

(** C3.  For D >= 2 the rotated point is R_{m-1}(theta_{m-1}) * ... *
    R_0(theta_0) * p, the m = D (D - 1) / 2 planes being enumerated with
    i ascending and, for each i, j ascending from i + 1; the rotation
    yielded for the plane (i, j) is the identity except for the four
    entries cos, -sin, sin, cos; theta_k is theta_base * (1 + k o / m) for
    a non-zero offset o and theta_base for the offset zero. *)
Theorem rotation_composition (G : Global.config) (D : nat) (s t o : R)
    (p : list R) :
  (2 <= D)%nat -> length p = D ->
  Global.DIMENSIONS G = Z.of_nat D ->
  Global.SPEED G = Num s ->
  Global.ROTATION_OFFSET G = Num o ->
  Renderer.transformPoint G (Num t) (map Num p)
    = Return (map Num (Spec.rotated D s t o p)) /\
  length (Renderer.rotationsGenerator (Z.of_nat D)) = Spec.planeCount D /\
  (forall k i j theta,
     Spec.planes D !! k = Some (i, j) ->
     exists rot,
       Renderer.rotationsGenerator (Z.of_nat D) !! k = Some rot /\
       rot (Num theta)
       = tabulate D D (fun r c => Num (Spec.elementary i j theta r c))).
Proof.
  intros HD Hp HG Hs Ho. split; [|split].
  - now apply transformPoint_real.
  - unfold Renderer.rotationsGenerator.
    now rewrite length_map, planes_spec, planes_length.
  - intros k i j theta Hk. exists (Renderer.rotation D i j).
    split; [now apply rotationsGenerator_lookup|].
    assert (Hin : In (i, j) (Spec.planes D))
      by (apply list_elem_of_In; eapply list_elem_of_lookup_2; exact Hk).
    apply planes_in_range in Hin. apply rotation_tabulate; lia.
Qed.

Lemma rotation_composition_witness :
  Renderer.transformPoint Global.defaults (Num 2) (map Num [1; 1; 1; 1; 1]%R)
  = Return (map Num (Spec.rotated 5 30 2 1 [1; 1; 1; 1; 1]%R)).
Proof.
  apply (rotation_composition Global.defaults 5 30 2 1 [1; 1; 1; 1; 1]%R).
  - lia.
  - reflexivity.
  - reflexivity.
  - reflexivity.
  - reflexivity.
Defined.

Lemma forEach_pure {X Y} (body : X -> outcome (list Y)) (g : X -> list Y)
    (xs : list X) :
  (forall x, In x xs -> body x = Return (g x)) ->
  forEach body xs = Return (flat_map g xs).
Proof.
  induction xs as [|x xs IH]; intros H; [reflexivity|].
  cbn [forEach flat_map]. rewrite (H x) by now left.
  rewrite IH by (intros; apply H; now right). reflexivity.
Qed.

Lemma In_imap_pair {X} (l : list X) (n : nat) (x : X) :
  In (n, x) (imap (fun n x => (n, x)) l) <-> l !! n = Some x.
Proof.
  rewrite <- list_elem_of_In, elem_of_lookup_imap. split.
  - intros [i [y [E H]]]. now inversion E; subst.
  - intros H. now exists n, x.
Qed.

Lemma flat_map_imap_snd {X} (l : list X) (h : nat -> nat) :
  flat_map (fun '(_, x) => [x]) (imap (fun n x => (h n, x)) l) = l.
Proof.
  revert h. induction l as [|x l IH]; intros h; [reflexivity|].
  rewrite imap_cons. cbn [flat_map app]. f_equal. apply (IH (h ∘ S)).
Qed.

(** With a zero angle the rotation composer leaves a point unchanged. *)
Lemma transformPoint_zero (G : Global.config) (D : nat) (v t o : R)
    (p : list R) :
  (2 <= D)%nat -> length p = D ->
  Global.DIMENSIONS G = Z.of_nat D ->
  Global.SPEED G = Num v ->
  Global.ROTATION_OFFSET G = Num o ->
  (v = 0 \/ t = 0)%R ->
  Renderer.transformPoint G (Num t) (map Num p) = Return (map Num p).
Proof.
  intros HD Hp HG Hv Ho Hz.
  rewrite (transformPoint_real G D v t o) by assumption.
  now rewrite rotated_zero.
Qed.

Lemma scenario_base_point :
  Renderer.cubePointsGenerator 3 (Num 2) !! 7%nat = Some [Num 1; Num 1; Num 1].
Proof.
  change (Renderer.cubePointsGenerator 3 (Num 2))
    with (Renderer.cubePointsGenerator (Z.of_nat 3) (Num 2)).
  rewrite (cubePoints_real 3 2). unfold realPoints.
  rewrite !lookup_map, binaryPoints_lookup by (simpl; lia).
  change (binaryPoint 3 7) with ["1"%char; "1"%char; "1"%char].
  cbn [fmap option_fmap option_map map].
  assert (E : realCoordinate 2 "1" = 1%R)
    by (unfold realCoordinate; simpl; lra).
  now rewrite E.
Qed.

(** C8.  At the angle zero (speed 0, or elapsed time 0 for every point)
    the rotation composer returns every base vertex unchanged, for every
    D >= 2; and for D = 3, size 2 and the far clipping plane 1000 the
    base vertex (1, 1, 1) is projected with r = 1000/999 to a point whose
    coordinates 0 and 1 are both 1000/999. *)
Theorem identity_rotation_and_scenario :
  (forall (G : Global.config) (D : nat) (s v o : R) (elapsed : nat -> R),
     (2 <= D)%nat ->
     Global.DIMENSIONS G = Z.of_nat D ->
     Global.SPEED G = Num v ->
     Global.ROTATION_OFFSET G = Num o ->
     (v = 0%R \/ forall n, elapsed n = 0%R) ->
     Renderer.transformGenerator G (fun n => Num (elapsed n))
       (Renderer.cubePointsGenerator (Z.of_nat D) (Num s))
     = Return (Renderer.cubePointsGenerator (Z.of_nat D) (Num s))) /\
  (Renderer.cubePointsGenerator (Global.DIMENSIONS Spec.scenario)
       (Global.SIZE Spec.scenario) !! 7%nat
     = Some [Num 1; Num 1; Num 1] /\
   JS.div (Global.FAR_CLIPPING_PLANE Spec.scenario)
          (JS.sub (Global.FAR_CLIPPING_PLANE Spec.scenario) (Num 1))
     = Num (1000 / 999) /\
   exists q,
     Renderer.projectPoint Spec.scenario [Num 1; Num 1; Num 1] = Return q /\
     q !! 0%nat = Some (Num (1000 / 999)) /\
     q !! 1%nat = Some (Num (1000 / 999))).
Proof.
  split.
  - intros G D s v o elapsed HD HG Hv Ho Hz.
    unfold Renderer.transformGenerator.
    rewrite (forEach_pure _ (fun '(_, p) => [p])).
    + now rewrite flat_map_imap_snd.
    + intros [n p] Hin. apply In_imap_pair in Hin.
      rewrite cubePoints_real, lookup_map in Hin.
      destruct (realPoints D s !! n) as [w|] eqn:Hw; [|discriminate].
      inversion Hin; subst p.
      rewrite (transformPoint_zero G D v (elapsed n) o); try assumption;
        [reflexivity| |destruct Hz as [Hz|Hz]; [now left|right; apply Hz]].
      unfold realPoints in Hw. rewrite lookup_map in Hw.
      destruct (binaryPoints D !! n) as [b|] eqn:Hb; [|discriminate].
      inversion Hw; subst w. rewrite length_map.
      pose proof (binaryPoints_shape D ltac:(lia)) as F.
      exact (proj1 (Forall_lookup_1 _ _ _ _ F Hb)).
  - split; [exact scenario_base_point|]. split.
    + cbn [Spec.scenario Global.FAR_CLIPPING_PLANE JS.sub lift2].
      rewrite div_Num by lra. f_equal. lra.
    + change [Num 1; Num 1; Num 1] with (map Num [1; 1; 1]%R).
      rewrite (projectPoint_real Spec.scenario 1000) by
        (first [reflexivity | simpl; split; [lra|exact I]]).
      eexists. split; [reflexivity|].
      simpl. split; do 2 f_equal; lra.
Qed.

Lemma identity_rotation_and_scenario_witness :
  Renderer.transformGenerator Spec.scenario (fun n => Num (INR n))
    (Renderer.cubePointsGenerator (Z.of_nat 3) (Num 2))
  = Return (Renderer.cubePointsGenerator (Z.of_nat 3) (Num 2)).
Proof.
  apply (proj1 identity_rotation_and_scenario Spec.scenario 3%nat 2%R 0%R 1%R INR).
  - lia.
  - reflexivity.
  - reflexivity.
  - reflexivity.
  - left. reflexivity.
Defined.

(* ================================================================== *)
(** * Projection (claim C4) *)
(* ================================================================== *)

(** C4, as the code has it.  The projection iterates the axis i from
    D - 1 down to 2 and never takes the axes 0 and 1; at each step
    r = F / (F - n), n being the coordinate i of the working point, and
    the working point is replaced by its product with the D x D diagonal
    matrix of r: all D coordinates are kept and scaled, none is dropped.
    The first two coordinates of the result are the point obtained with
    the restriction to the first i coordinates. *)
Theorem projection_scales_whole_point (G : Global.config) (F : R) (w : list R) :
  Global.FAR_CLIPPING_PLANE G = Num F ->
  Spec.regular F (length w - 1) w ->
  Renderer.projectPoint G (map Num w)
    = Return (map Num (Spec.scaled F (length w - 1) w)) /\
  length (Spec.scaled F (length w - 1) w) = length w /\
  ((2 <= length w)%nat ->
   take 2 (Spec.scaled F (length w - 1) w) = Spec.projected F (length w - 1) w) /\
  (forall i, (i < length w)%nat -> (F - nth i w 0%R <> 0)%R ->
     Renderer.projectionStep G (length w) i (map Num w)
     = Return (map Num (map (Rmult (F / (F - nth i w 0%R))) w))) /\
  (forall len v, Renderer.projectionLoop G len 1 v = Return v /\
                 Renderer.projectionLoop G len 0 v = Return v).
Proof.
  intros HF Hreg. repeat split.
  - now apply projectPoint_real.
  - apply scaled_length.
  - intros Hw. rewrite <- projected_scaled by lia.
    replace (S (length w - 1)) with (length w) by lia.
    now rewrite take_ge by lia.
  - intros i Hi Hn. now apply projectionStep_real.
Qed.

Lemma projection_scales_whole_point_witness :
  Renderer.projectPoint Spec.scenario (map Num [1; 1; 1]%R)
  = Return (map Num (Spec.scaled 1000 2 [1; 1; 1]%R)).
Proof.
  assert (H : Spec.regular 1000 (length [1; 1; 1]%R - 1) [1; 1; 1]%R)
    by (simpl; split; [lra|exact I]).
  exact (proj1 (projection_scales_whole_point Spec.scenario 1000 [1; 1; 1]%R
                  eq_refl H)).
Defined.

(** C4 as stated fails: the projected point of (1, 1, 1) keeps its three
    coordinates, where the restriction would leave two. *)
Lemma projection_keeps_all_coordinates :
  ~ Stated.projection Spec.scenario 1000 [1; 1; 1]%R.
Proof.
  unfold Stated.projection.
  rewrite (projectPoint_real Spec.scenario 1000) by
    (first [reflexivity | simpl; split; [lra|exact I]]).
  intros H.
  apply (f_equal (fun o => match o with Return l => length l | _ => 0%nat end))
    in H.
  rewrite !length_map, scaled_length in H. simpl in H. discriminate.
Qed.

(* ================================================================== *)
(** * The vertex set (claim C2) *)
(* ================================================================== *)

Lemma realCoordinate_digit (s : R) (b : bool) :
  realCoordinate s (digit b) = (if b then s / 2 else - (s / 2))%R.
Proof. destruct b; unfold realCoordinate; simpl; lra. Qed.

Lemma cubePoints_lookup (D : nat) (s : R) (i : nat) :
  (i < 2 ^ D)%nat ->
  Renderer.cubePointsGenerator (Z.of_nat D) (Num s) !! i
  = Some (map Num (map (realCoordinate s) (binaryPoint D i))).
Proof.
  intros Hi. rewrite cubePoints_real. unfold realPoints.
  now rewrite !lookup_map, binaryPoints_lookup.
Qed.

(** In exact arithmetic the two values are told apart exactly when the
    size is not zero. *)
Lemma separated_Num (s : R) : s <> 0%R -> separated (Num s) = true.
Proof.
  intros Hs. unfold separated. rewrite !coordinate_real. simpl.
  destruct (Req_dec_T (realCoordinate s "0") (realCoordinate s "1")) as [E|_];
    [|reflexivity].
  unfold realCoordinate in E. simpl in E. lra.
Qed.

Lemma separated_nonzero (s : R) : separated (Num s) = true -> s <> 0%R.
Proof.
  unfold separated. rewrite !coordinate_real. simpl. intros H ->.
  destruct (Req_dec_T (realCoordinate 0 "0") (realCoordinate 0 "1")) as [_|E];
    [discriminate|].
  apply E. unfold realCoordinate. simpl. lra.
Qed.

(** C2.  For every D >= 2 and every size s for which the two computed
    coordinate values -s/2 and +s/2 are different under [===], the
    vertex generator yields exactly 2^D pairwise distinct points of D
    coordinates; the coordinate k of the point of index i is +s/2 when
    the bit k of i, counted from the most significant of D bits, is 1,
    and -s/2 when it is 0. *)
Theorem vertices_of_the_cube (D : nat) (s : R) :
  (2 <= D)%nat -> separated (Num s) = true ->
  Stated.vertices D s /\
  (forall i, (i < 2 ^ D)%nat ->
     exists p, Renderer.cubePointsGenerator (Z.of_nat D) (Num s) !! i = Some p /\
               length p = D).
Proof.
  intros HD Hsep. pose proof (separated_nonzero s Hsep) as Hs. split.
  - unfold Stated.vertices. cbv zeta. split; [|split].
    + rewrite cubePoints_real. unfold realPoints.
      now rewrite !length_map, binaryPoints_length.
    + rewrite cubePoints_real.
      apply NoDup_map_NoDup_ForallPairs;
        [|apply realPoints_NoDup; [lia|exact Hs]].
      intros v w _ _. apply map_Num_inj.
    + intros i k Hi Hk. eexists. split; [now apply cubePoints_lookup|].
      rewrite !lookup_map, binaryPoint_testbit by (assumption || lia).
      cbn [fmap option_fmap option_map]. rewrite realCoordinate_digit.
      now destruct (N.testbit _ _).
  - intros i Hi. eexists. split; [now apply cubePoints_lookup|].
    rewrite !length_map. now apply binaryPoint_shape; [lia|].
Qed.

Lemma vertices_of_the_cube_witness : Stated.vertices 3 2.
Proof.
  apply (vertices_of_the_cube 3 2).
  - lia.
  - apply separated_Num. lra.
Defined.

(** The condition on the two values is needed: at the size 0, which the
    configuration does not admit, the four vertices of the square are
    the same point (0, 0). *)
Lemma vertices_of_size_zero_coincide : ~ Stated.vertices 2 0.
Proof.
  unfold Stated.vertices. cbv zeta. intros [_ [H _]].
  rewrite cubePoints_real in H. apply NoDup_map_inv in H.
  unfold realPoints in H.
  change (binaryPoints 2)
    with [["0"; "0"]; ["0"; "1"]; ["1"; "0"]; ["1"; "1"]]%char in H.
  assert (E : realCoordinate 0 "1" = realCoordinate 0 "0")
    by (unfold realCoordinate; simpl; lra).
  cbn [map] in H. rewrite E in H.
  inversion H as [|x l Hx _]. apply Hx. now left.
Qed.

(* ================================================================== *)
(** * The colour hash (claim C10) *)
(* ================================================================== *)

Lemma hashByte_range (data : list Z) (seed : Z) :
  0 <= Global.hashByte data seed <= 255.
Proof.
  unfold Global.hashByte, parseIntOfInteger. cbv zeta.
  match goal with |- context [Z.rem ?x 256] =>
    pose proof (Z.rem_bound_abs x 256 ltac:(lia)) as B end.
  change (Z.abs 256) with 256 in B. lia.
Qed.

Lemma toString16_byte_lengths :
  forallb (fun n =>
             if (n <? 16)%nat
             then (String.length (toString16 (Z.of_nat n)) =? 1)%nat
             else (String.length (toString16 (Z.of_nat n)) =? 2)%nat)
          (seq 0 256) = true.
Proof. vm_compute. reflexivity. Qed.

Lemma toString16_byte_length (n : Z) :
  0 <= n <= 255 ->
  String.length (toString16 n) = if n <? 16 then 1%nat else 2%nat.
Proof.
  intros Hn. pose proof toString16_byte_lengths as H.
  rewrite forallb_forall in H.
  specialize (H (Z.to_nat n) ltac:(apply in_seq; lia)).
  rewrite Z2Nat.id in H by lia.
  destruct (Nat.ltb_spec (Z.to_nat n) 16), (Z.ltb_spec n 16); try lia;
    now apply Nat.eqb_eq.
Qed.

(** C10.  The hash is the base-16 numeral, without padding, of an
    integer of [0, 255]: one digit below 16 and two digits from 16 on;
    a colour made of "#" and three hashes can therefore have fewer than
    six digits, as the one of the edge from the vertex 8 to the vertex 0
    has; and equal inputs give equal outputs. *)
Theorem hash_is_unpadded_hex_byte (data : list Z) (seed : Z) :
  0 <= Global.hashByte data seed <= 255 /\
  Global.hash data seed = toString16 (Global.hashByte data seed) /\
  (String.length (Global.hash data seed) = 1%nat \/
   String.length (Global.hash data seed) = 2%nat) /\
  (String.length (Global.hash data seed) = 1%nat <->
   Global.hashByte data seed < 16) /\
  Renderer.edgeColor "Infinity" "80" "0" = "#119b7"%string /\
  (forall data' seed', data' = data -> seed' = seed ->
     Global.hash data' seed' = Global.hash data seed).
Proof.
  pose proof (hashByte_range data seed) as B.
  pose proof (toString16_byte_length _ B) as L.
  split; [exact B|]. split; [reflexivity|].
  change (Global.hash data seed) with (toString16 (Global.hashByte data seed)).
  rewrite L.
  split; [destruct (Global.hashByte data seed <? 16); auto|].
  split.
  - destruct (Z.ltb_spec (Global.hashByte data seed) 16); split;
      intros; (reflexivity || assumption || discriminate || lia).
  - split; [vm_compute; reflexivity|].
    intros data' seed' -> ->. reflexivity.
Qed.

Lemma hash_is_unpadded_hex_byte_witness :
  Global.hash (charCodes "80") 0 = Global.hash (charCodes "80") 0.
Proof.
  exact (proj2 (proj2 (proj2 (proj2 (proj2
           (hash_is_unpadded_hex_byte (charCodes "80") 0)))))
           (charCodes "80") 0 eq_refl eq_refl).
Defined.

(* ================================================================== *)
(** * Setup (claim C6) *)
(* ================================================================== *)

(** C6 on the code: the guard of [setup] rejects the dimension counts
    that are not integers and nothing else.  The counts 1 and 0 pass
    it, and setup completes with the two end points of a segment and
    with a single point, as it completes with the vertex set for every
    natural number; the later [setup] of renderer.js has no guard and
    always completes. *)
Theorem setup_accepts_dimension_below_two (size : number) :
  (exists points,
     EarlierRenderer.setup 1%Q size = Return points /\
     length points = 2%nat /\ Forall (fun p => length p = 1%nat) points) /\
  (exists points,
     EarlierRenderer.setup 0%Q size = Return points /\ length points = 1%nat) /\
  (forall q : Q,
     throws (EarlierRenderer.setup q size) = true <->
     ~ (q == inject_Z (EarlierRenderer.parseInt q))%Q) /\
  (forall D : nat,
     EarlierRenderer.setup (inject_Z (Z.of_nat D)) size
     = Return (Renderer.cubePointsGenerator (Z.of_nat D) size)) /\
  (forall G, returns (Renderer.setup G) = true).
Proof.
  split; [|split; [|split; [|split]]].
  - eexists. split; [reflexivity|]. split; [reflexivity|].
    repeat constructor.
  - eexists. split; reflexivity.
  - intros q. unfold EarlierRenderer.setup.
    destruct (Qeq_bool q (inject_Z (EarlierRenderer.parseInt q))) eqn:E; simpl.
    + apply Qeq_bool_iff in E. split; [discriminate|contradiction].
    + split; [|reflexivity]. intros _ E'.
      apply Qeq_bool_iff in E'. congruence.
  - intros D. unfold EarlierRenderer.setup, EarlierRenderer.parseInt.
    cbn [inject_Z Qnum Qden]. rewrite Z.quot_1_r.
    now rewrite (proj2 (Qeq_bool_iff _ _) (Qeq_refl _)).
  - intros G. reflexivity.
Qed.

(* ================================================================== *)
(** * Counting shared coordinates *)
(* ================================================================== *)

Lemma fold_left_add (l : list nat) (x : nat) :
  fold_left Nat.add l x = (x + list_sum l)%nat.
Proof.
  revert x. induction l as [|y l IH]; intros x; simpl; [lia|].
  rewrite IH. lia.
Qed.

Lemma reduceSum_list_sum (xs : list nat) :
  xs <> [] -> Renderer.reduceSum xs = Return (list_sum xs).
Proof.
  destruct xs as [|x xs]; [congruence|]. intros _. simpl.
  now rewrite fold_left_add.
Qed.

Lemma forallb_ext_in {X} (f g : X -> bool) (l : list X) :
  (forall x, In x l -> f x = g x) -> forallb f l = forallb g l.
Proof.
  induction l as [|x l IH]; intros H; [reflexivity|]. simpl.
  rewrite (H x) by now left. rewrite IH by (intros; apply H; now right).
  reflexivity.
Qed.

Lemma forallb_ext {X} (f g : X -> bool) (l : list X) :
  (forall x, f x = g x) -> forallb f l = forallb g l.
Proof. intros H. apply forallb_ext_in. intros x _. apply H. Qed.

Lemma forallb_map {X Y} (f : Y -> bool) (g : X -> Y) (l : list X) :
  forallb f (map g l) = forallb (fun x => f (g x)) l.
Proof. induction l as [|x l IH]; simpl; [reflexivity|now rewrite IH]. Qed.

Section Shared.

Context {A : Type} (eq : A -> A -> bool).

Lemma tally_agree (a b : list A) :
  list_sum
    (imap (fun ii x =>
             if match b !! ii with Some y => eq x y | None => false end
             then 1%nat else 0%nat) a)
  = agree eq a b.
Proof.
  revert b. induction a as [|x a IH]; intros b; [reflexivity|].
  rewrite imap_cons. cbn [list_sum fold_right].
  destruct b as [|y b].
  - cbn [agree]. specialize (IH []).
    destruct a; simpl in IH |- *; [reflexivity|].
    unfold compose. simpl. exact IH.
  - cbn [agree]. f_equal. apply (IH b).
Qed.

Lemma matches_agree (a b : list A) :
  a <> [] -> Renderer.matches eq a b = Return (agree eq a b).
Proof.
  intros Ha. unfold Renderer.matches.
  rewrite reduceSum_list_sum, tally_agree; [reflexivity|].
  destruct a; [congruence|]. now rewrite imap_cons.
Qed.

Lemma matches_nil (b : list A) : Renderer.matches eq [] b = Throw TypeError.
Proof. reflexivity. Qed.

Lemma tallyAll_agreeAll (p0 : list A) (ps : list (list A)) :
  list_sum
    (imap (fun ii x =>
             if forallb (fun p =>
                  match p !! ii with Some y => eq x y | None => false end) ps
             then 1%nat else 0%nat) p0)
  = agreeAll eq p0 ps.
Proof.
  revert ps. induction p0 as [|x p0 IH]; intros ps; [reflexivity|].
  rewrite imap_cons. cbn [list_sum fold_right agreeAll].
  rewrite (forallb_ext _
             (fun p => match p with y :: _ => eq x y | [] => false end))
    by (intros [|y p]; reflexivity).
  f_equal. rewrite <- IH. f_equal. apply imap_ext. intros ii z _.
  unfold compose. rewrite forallb_map.
  rewrite (forallb_ext
             (fun p => match tail p !! ii with Some y => eq z y | None => false end)
             (fun p => match p !! S ii with Some y => eq z y | None => false end))
    by (intros [|y p]; reflexivity).
  reflexivity.
Qed.

Lemma matchesAll_agreeAll (p0 : list A) (ps : list (list A)) :
  p0 <> [] ->
  Renderer.matchesAll eq (p0 :: ps) = Return (agreeAll eq p0 (p0 :: ps)).
Proof.
  intros Hp. unfold Renderer.matchesAll.
  rewrite reduceSum_list_sum, tallyAll_agreeAll; [reflexivity|].
  destruct p0; [congruence|]. now rewrite imap_cons.
Qed.

Lemma agree_le (a b : list A) : (agree eq a b <= length a)%nat.
Proof.
  revert b. induction a as [|x a IH]; intros [|y b]; simpl; try lia.
  specialize (IH b). destruct (eq x y); lia.
Qed.

End Shared.

(** The shared-coordinate counts are unchanged by a mapping of the
    coordinates that preserves the comparison. *)
Section Congruence.

Context {A B : Type} (eqA : A -> A -> bool) (eqB : B -> B -> bool)
        (f : A -> B) (P : A -> Prop).
Hypothesis f_eq : forall x y, P x -> P y -> eqB (f x) (f y) = eqA x y.

Lemma agree_map (a b : list A) :
  Forall P a -> Forall P b ->
  agree eqB (map f a) (map f b) = agree eqA a b.
Proof.
  intros Ha. revert b. induction Ha as [|x a Hx Ha IH]; intros b Hb;
    [reflexivity|].
  destruct Hb as [|y b Hy Hb]; [reflexivity|].
  cbn [map agree]. now rewrite f_eq, IH.
Qed.

Lemma matches_map (a b : list A) :
  Forall P a -> Forall P b ->
  Renderer.matches eqB (map f a) (map f b) = Renderer.matches eqA a b.
Proof.
  intros Ha Hb. destruct a as [|x a]; [reflexivity|].
  rewrite !matches_agree by discriminate. now rewrite agree_map.
Qed.

Lemma agreeAll_map (p0 : list A) (ps : list (list A)) :
  Forall P p0 -> Forall (Forall P) ps ->
  agreeAll eqB (map f p0) (map (map f) ps) = agreeAll eqA p0 ps.
Proof.
  intros H0. revert ps. induction H0 as [|x p0 Hx H0 IH]; intros ps Hps;
    [reflexivity|].
  cbn [map agreeAll]. f_equal.
  - rewrite forallb_map.
    rewrite (forallb_ext_in _
               (fun p => match p with y :: _ => eqA x y | [] => false end));
      [reflexivity|].
    intros p Hp.
    rewrite Forall_forall in Hps. apply list_elem_of_In, Hps in Hp.
    destruct Hp as [|y p Hy _]; [reflexivity|]. simpl. now apply f_eq.
  - rewrite <- IH.
    + f_equal. rewrite !map_map. apply map_ext. intros [|y p]; reflexivity.
    + apply Forall_forall. intros p Hp.
      apply list_elem_of_In, in_map_iff in Hp. destruct Hp as [p' [<- Hp']].
      rewrite Forall_forall in Hps. apply list_elem_of_In, Hps in Hp'.
      destruct Hp' as [|y p' _ Hp']; [constructor|exact Hp'].
Qed.

Lemma matchesAll_map (ps : list (list A)) :
  Forall (Forall P) ps ->
  Renderer.matchesAll eqB (map (map f) ps) = Renderer.matchesAll eqA ps.
Proof.
  intros Hps. destruct ps as [|p0 ps]; [reflexivity|].
  destruct p0 as [|x p0]; [reflexivity|].
  change (map (map f) ((x :: p0) :: ps))
    with (map f (x :: p0) :: map (map f) ps).
  change (map f (x :: p0)) with (f x :: map f p0).
  rewrite !matchesAll_agreeAll by discriminate.
  change (f x :: map f p0) with (map f (x :: p0)).
  change (map f (x :: p0) :: map (map f) ps)
    with (map (map f) ((x :: p0) :: ps)).
  rewrite agreeAll_map; [reflexivity| |exact Hps].
  now inversion Hps.
Qed.

End Congruence.

(* ================================================================== *)
(** * The adjacency generators under a change of coordinates *)
(* ================================================================== *)

Lemma forEach_ext_in {X Y} (f g : X -> outcome (list Y)) (xs : list X) :
  (forall x, In x xs -> f x = g x) -> forEach f xs = forEach g xs.
Proof.
  induction xs as [|x xs IH]; intros H; [reflexivity|].
  cbn [forEach]. rewrite (H x) by now left.
  rewrite IH by (intros; apply H; now right). reflexivity.
Qed.

Lemma forEach_map {X X' Y} (body : X' -> outcome (list Y)) (h : X -> X')
    (xs : list X) :
  forEach body (map h xs) = forEach (fun x => body (h x)) xs.
Proof.
  induction xs as [|x xs IH]; [reflexivity|].
  cbn [map forEach]. now rewrite IH.
Qed.

Lemma imap_pair_map {X X'} (h : X -> X') (g : nat -> nat) (l : list X) :
  imap (fun i a => (g i, a)) (map h l)
  = map (fun '(i, a) => (i, h a)) (imap (fun i a => (g i, a)) l).
Proof.
  revert g. induction l as [|x l IH]; intros g; [reflexivity|].
  cbn [map]. rewrite !imap_cons. cbn [map]. f_equal. apply (IH (g ∘ S)).
Qed.

Lemma entries_map {X X'} (h : list X -> list X') (points : list (list X)) :
  Renderer.entries (map h points)
  = map (fun '(i, a) => (i, h a)) (Renderer.entries points).
Proof. apply (imap_pair_map h (fun i => i)). Qed.

Lemma entries_In {X} (points : list (list X)) (i : nat) (a : list X) :
  In (i, a) (Renderer.entries points) <-> points !! i = Some a.
Proof. apply In_imap_pair. Qed.

Lemma imap_pair_fst {X} (g : nat -> nat) (l : list X) :
  map fst (imap (fun i a => (g i, a)) l) = map g (seq 0 (length l)).
Proof.
  revert g. induction l as [|x l IH]; intros g; [reflexivity|].
  rewrite imap_cons. cbn [map length seq]. f_equal.
  rewrite <- seq_shift, map_map. apply (IH (g ∘ S)).
Qed.

Lemma entries_fst {X} (points : list (list X)) :
  map fst (Renderer.entries points) = seq 0 (length points).
Proof.
  unfold Renderer.entries. rewrite (imap_pair_fst (fun i => i)).
  apply map_id.
Qed.

Section GeneratorCongruence.

Context {A B : Type} (eqA : A -> A -> bool) (eqB : B -> B -> bool)
        (f : A -> B) (P : A -> Prop).
Hypothesis f_eq : forall x y, P x -> P y -> eqB (f x) (f y) = eqA x y.

Variable points : list (list A).
Hypothesis points_P : Forall (Forall P) points.

Lemma entries_P (i : nat) (a : list A) :
  In (i, a) (Renderer.entries points) -> Forall P a.
Proof.
  intros H. apply entries_In in H.
  exact (Forall_lookup_1 _ _ _ _ points_P H).
Qed.

Lemma edgeGenerator_map (d : Z) :
  Renderer.edgeGenerator eqB d (map (map f) points)
  = Renderer.edgeGenerator eqA d points.
Proof.
  unfold Renderer.edgeGenerator. rewrite entries_map, forEach_map.
  apply forEach_ext_in. intros [i a] Hi. rewrite forEach_map.
  apply forEach_ext_in. intros [j b] Hj.
  rewrite !length_map.
  now rewrite (matches_map eqA eqB f P f_eq)
    by (eapply entries_P; eassumption).
Qed.

Lemma orderFace_map (fuel : nat) (d : Z) (faceIndices rest : list nat) :
  Renderer.orderFace eqB fuel d (map (map f) points) faceIndices rest
  = Renderer.orderFace eqA fuel d points faceIndices rest.
Proof.
  revert faceIndices rest.
  induction fuel as [|fuel IH]; intros faceIndices rest;
    cbn [Renderer.orderFace]; [reflexivity|].
  destruct (length faceIndices =? 4)%nat; [reflexivity|].
  destruct (last faceIndices) as [lastIndex|]; [|reflexivity].
  destruct rest as [|rest0 rest']; [reflexivity|].
  rewrite !lookup_map.
  destruct (points !! lastIndex) as [p|] eqn:Hp; [|reflexivity].
  destruct (points !! rest0) as [q|] eqn:Hq; [|reflexivity].
  cbn [fmap option_fmap option_map].
  rewrite (matches_map eqA eqB f P f_eq)
    by (eapply Forall_lookup_1; eassumption).
  destruct (Renderer.matches eqA p q) as [m| |]; cbn [mbind outcome_bind JS.bind];
    try reflexivity.
  now rewrite !IH.
Qed.

Lemma faceGenerator_map (fuel : nat) (d : Z) :
  Renderer.faceGenerator eqB fuel d (map (map f) points)
  = Renderer.faceGenerator eqA fuel d points.
Proof.
  unfold Renderer.faceGenerator. rewrite entries_map, forEach_map.
  apply forEach_ext_in. intros [i a] Hi. rewrite forEach_map.
  apply forEach_ext_in. intros [j b] Hj.
  destruct (stringGe (key i) (key j)); [reflexivity|]. rewrite forEach_map.
  apply forEach_ext_in. intros [k c] Hk.
  destruct (stringGe (key j) (key k)); [reflexivity|]. rewrite forEach_map.
  apply forEach_ext_in. intros [l e] Hl.
  destruct (stringGe (key k) (key l)); [reflexivity|].
  change [map f a; map f b; map f c; map f e]
    with (map (map f) [a; b; c; e]).
  rewrite (matchesAll_map eqA eqB f P f_eq)
    by (repeat constructor; eapply entries_P; eassumption).
  destruct (Renderer.matchesAll eqA [a; b; c; e]) as [m| |];
    cbn [mbind outcome_bind JS.bind]; try reflexivity.
  destruct (negb (Z.of_nat m =? d - 2)); [reflexivity|].
  now rewrite orderFace_map.
Qed.

End GeneratorCongruence.

(** The coordinates of a vertex of non-zero size compare as the digits
    they come from. *)
Lemma coordinate_strictEq (s : R) (c d : ascii) :
  s <> 0%R -> isDigit c -> isDigit d ->
  JS.strictEq (coordinate (Num s) c) (coordinate (Num s) d) = Ascii.eqb c d.
Proof.
  intros Hs Hc Hd. rewrite !coordinate_real. unfold JS.strictEq.
  destruct (Req_dec_T (realCoordinate s c) (realCoordinate s d)) as [E|E].
  - rewrite (realCoordinate_inj s c d Hs Hc Hd E).
    symmetry. apply Ascii.eqb_refl.
  - symmetry. apply Ascii.eqb_neq. intros ->. now apply E.
Qed.

Lemma binaryPoints_digits (D : nat) :
  (1 <= D)%nat -> Forall (Forall isDigit) (binaryPoints D).
Proof.
  intros HD. eapply Forall_impl; [apply (binaryPoints_shape D HD)|].
  intros w [_ H]. exact H.
Qed.

Lemma binaryPoints_uniform (D : nat) :
  (1 <= D)%nat -> Forall (fun w => length w = D) (binaryPoints D).
Proof.
  intros HD. eapply Forall_impl; [apply (binaryPoints_shape D HD)|].
  intros w [H _]. exact H.
Qed.

(** On the vertex set of a non-zero size the generators behave as on
    the binary strings. *)
Lemma edgeGenerator_binary (D : nat) (s : R) (d : Z) :
  (1 <= D)%nat -> s <> 0%R ->
  Renderer.edgeGenerator JS.strictEq d
    (Renderer.cubePointsGenerator (Z.of_nat D) (Num s))
  = Renderer.edgeGenerator Ascii.eqb d (binaryPoints D).
Proof.
  intros HD Hs. rewrite cubePoints_binary.
  apply (edgeGenerator_map Ascii.eqb JS.strictEq (coordinate (Num s)) isDigit).
  - intros x y Hx Hy. now apply coordinate_strictEq.
  - now apply binaryPoints_digits.
Qed.

Lemma faceGenerator_binary (D : nat) (s : R) (fuel : nat) (d : Z) :
  (1 <= D)%nat -> s <> 0%R ->
  Renderer.faceGenerator JS.strictEq fuel d
    (Renderer.cubePointsGenerator (Z.of_nat D) (Num s))
  = Renderer.faceGenerator Ascii.eqb fuel d (binaryPoints D).
Proof.
  intros HD Hs. rewrite cubePoints_binary.
  apply (faceGenerator_map Ascii.eqb JS.strictEq (coordinate (Num s)) isDigit).
  - intros x y Hx Hy. now apply coordinate_strictEq.
  - now apply binaryPoints_digits.
Qed.

Lemma orderFace_binary (D : nat) (s : R) (fuel : nat) (d : Z)
    (faceIndices rest : list nat) :
  (1 <= D)%nat -> s <> 0%R ->
  Renderer.orderFace JS.strictEq fuel d
    (Renderer.cubePointsGenerator (Z.of_nat D) (Num s)) faceIndices rest
  = Renderer.orderFace Ascii.eqb fuel d (binaryPoints D) faceIndices rest.
Proof.
  intros HD Hs. rewrite cubePoints_binary.
  apply (orderFace_map Ascii.eqb JS.strictEq (coordinate (Num s)) isDigit).
  - intros x y Hx Hy. now apply coordinate_strictEq.
  - now apply binaryPoints_digits.
Qed.

(* ================================================================== *)
(** * Edges (claim C1) *)
(* ================================================================== *)

Lemma edgeGenerator_pure {A} (eq : A -> A -> bool) (d : Z) (n : nat)
    (points : list (list A)) :
  (1 <= n)%nat -> Forall (fun p => length p = n) points ->
  Renderer.edgeGenerator eq d points = Return (edgesOf eq d points).
Proof.
  intros Hn Hp. unfold Renderer.edgeGenerator, edgesOf.
  apply forEach_pure. intros [i a] Hi.
  apply forEach_pure. intros [j b] Hj.
  destruct (i =? j)%nat; [reflexivity|].
  apply entries_In in Hi, Hj.
  pose proof (Forall_lookup_1 _ _ _ _ Hp Hi) as La.
  pose proof (Forall_lookup_1 _ _ _ _ Hp Hj) as Lb.
  cbv beta in La, Lb. rewrite La, Lb, Nat.eqb_refl. cbn [negb].
  rewrite matches_agree by (destruct a; [simpl in La; lia|discriminate]).
  cbn [mbind outcome_bind JS.bind].
  now destruct (negb (Z.of_nat (agree eq a b) =? d - 1)).
Qed.

Lemma edgesOf_In {A} (eq : A -> A -> bool) (d : Z) (points : list (list A))
    (i j : nat) :
  In (i, j) (edgesOf eq d points) <->
  exists a b, points !! i = Some a /\ points !! j = Some b /\ i <> j /\
              Z.of_nat (agree eq a b) = d - 1.
Proof.
  unfold edgesOf. rewrite in_flat_map. split.
  - intros [[i' a] [Hi H]]. rewrite in_flat_map in H.
    destruct H as [[j' b] [Hj H]].
    destruct (Nat.eqb_spec i' j') as [->|Hne]; [destruct H|].
    destruct (Z.eqb_spec (Z.of_nat (agree eq a b)) (d - 1)) as [E|E];
      [|destruct H].
    destruct H as [H|[]]. inversion H; subst.
    exists a, b. apply entries_In in Hi, Hj. auto.
  - intros [a [b [Hi [Hj [Hne E]]]]].
    exists (i, a). split; [now apply entries_In|].
    rewrite in_flat_map. exists (j, b). split; [now apply entries_In|].
    destruct (Nat.eqb_spec i j) as [->|_]; [congruence|].
    destruct (Z.eqb_spec (Z.of_nat (agree eq a b)) (d - 1)); [now left|congruence].
Qed.

Lemma NoDup_flat_map_keyed {X Y K} (kx : X -> K) (ky : Y -> K)
    (F : X -> list Y) (l : list X) :
  List.NoDup (map kx l) ->
  (forall x, In x l -> List.NoDup (F x)) ->
  (forall x y, In x l -> In y (F x) -> ky y = kx x) ->
  List.NoDup (flat_map F l).
Proof.
  induction l as [|x l IH]; intros Hk HF Hkey; [constructor|].
  cbn [flat_map]. inversion Hk as [|k ks Hx Hks]; subst.
  apply List.NoDup_app.
  - apply HF. now left.
  - apply IH; [exact Hks| |]; intros; [apply HF|apply Hkey]; auto; now right.
  - intros y Hy Hy'. apply in_flat_map in Hy'. destruct Hy' as [x' [Hx' Hy']].
    apply Hx. apply in_map_iff. exists x'. split; [|exact Hx'].
    rewrite <- (Hkey x y) by (auto; now left).
    symmetry. apply Hkey; [now right|exact Hy'].
Qed.

Lemma edgesOf_NoDup {A} (eq : A -> A -> bool) (d : Z) (points : list (list A)) :
  List.NoDup (edgesOf eq d points).
Proof.
  unfold edgesOf.
  apply (NoDup_flat_map_keyed fst fst).
  - rewrite entries_fst. apply seq_NoDup.
  - intros [i a] _. apply (NoDup_flat_map_keyed fst snd).
    + rewrite entries_fst. apply seq_NoDup.
    + intros [j b] _. destruct (i =? j)%nat; [constructor|].
      destruct (negb _); [constructor|]. repeat constructor. intros [].
    + intros [j b] y _ Hy. destruct (i =? j)%nat; [destruct Hy|].
      destruct (negb _); [destruct Hy|]. destruct Hy as [<-|[]]. reflexivity.
  - intros [i a] y _ Hy. apply in_flat_map in Hy.
    destruct Hy as [[j b] [_ Hy]]. destruct (i =? j)%nat; [destruct Hy|].
    destruct (negb _); [destruct Hy|]. destruct Hy as [<-|[]]. reflexivity.
Qed.

(** Agreement of strings extended by one character. *)
Lemma agree_snoc {A} (eq : A -> A -> bool) (v w : list A) (x y : A) :
  length v = length w ->
  agree eq (v ++ [x]) (w ++ [y])
  = (agree eq v w + (if eq x y then 1 else 0))%nat.
Proof.
  revert w. induction v as [|a v IH]; intros [|b w] H; try discriminate.
  - simpl. lia.
  - simpl in H. cbn [app agree]. rewrite IH by lia. lia.
Qed.

Lemma agree_refl (v : list ascii) : agree Ascii.eqb v v = length v.
Proof.
  induction v as [|c v IH]; [reflexivity|].
  cbn [agree length]. now rewrite Ascii.eqb_refl, IH.
Qed.

Lemma agree_sym (v w : list ascii) :
  agree Ascii.eqb v w = agree Ascii.eqb w v.
Proof.
  revert w. induction v as [|c v IH]; intros [|e w]; try reflexivity.
  cbn [agree]. now rewrite IH, Ascii.eqb_sym.
Qed.

(** Number of strings of [l] that agree with [v] at exactly [m]
    positions. *)
Lemma neighbours_step (l : list (list ascii)) (v : list ascii) (c : ascii)
    (m : nat) :
  isDigit c -> Forall (fun w => length w = length v) l ->
  length (List.filter (fun w => (agree Ascii.eqb (v ++ [c]) w =? S m)%nat)
            (flat_map (fun w => [w ++ ["0"%char]; w ++ ["1"%char]]) l))
  = (length (List.filter (fun w => (agree Ascii.eqb v w =? m)%nat) l)
     + length (List.filter (fun w => (agree Ascii.eqb v w =? S m)%nat) l))%nat.
Proof.
  intros Hc Hl. induction Hl as [|w l Hw Hl IH]; [reflexivity|].
  cbn [flat_map app List.filter].
  rewrite !agree_snoc by (symmetry; exact Hw).
  destruct Hc as [-> | ->]; simpl (Ascii.eqb _ _);
    rewrite Nat.add_0_r;
    replace (agree Ascii.eqb v w + 1 =? S m)%nat
      with (agree Ascii.eqb v w =? m)%nat
      by (destruct (Nat.eqb_spec (agree Ascii.eqb v w) m),
                   (Nat.eqb_spec (agree Ascii.eqb v w + 1) (S m)); lia);
    destruct (agree Ascii.eqb v w =? m)%nat,
             (agree Ascii.eqb v w =? S m)%nat;
    cbn [length]; rewrite IH; lia.
Qed.

Lemma neighbours_count (D : nat) :
  (1 <= D)%nat ->
  forall v, In v (binaryPoints D) ->
    length (List.filter (fun w => (agree Ascii.eqb v w =? D)%nat)
              (binaryPoints D)) = 1%nat /\
    length (List.filter (fun w => (agree Ascii.eqb v w =? D - 1)%nat)
              (binaryPoints D)) = D.
Proof.
  induction 1 as [|D HD IH]; intros v Hv.
  - rewrite binaryPoints_one in *.
    destruct Hv as [<-|[<-|[]]]; split; reflexivity.
  - rewrite binaryPoints_step in * by exact HD.
    apply in_flat_map in Hv. destruct Hv as [u [Hu Hv]].
    assert (Lu : Forall (fun w => length w = length u) (binaryPoints D)).
    { pose proof (binaryPoints_uniform D HD) as U.
      rewrite Forall_forall in U. apply Forall_forall. intros w Hw.
      rewrite (U w Hw). symmetry. apply U. now apply list_elem_of_In. }
    destruct (IH u Hu) as [IH1 IH2].
    assert (Z : length (List.filter
                          (fun w => (agree Ascii.eqb u w =? S D)%nat)
                          (binaryPoints D)) = 0%nat).
    { rewrite (filter_ext_in _ (fun _ => false)); [now rewrite filter_false|].
      intros w Hw. apply Nat.eqb_neq.
      pose proof (agree_le Ascii.eqb u w) as Le.
      pose proof (binaryPoints_uniform D HD) as U. rewrite Forall_forall in U.
      rewrite (U u) in Le by now apply list_elem_of_In. lia. }
    assert (Hc : exists c, isDigit c /\ v = u ++ [c]).
    { destruct Hv as [<-|[<-|[]]]; eexists; (split; [|reflexivity]);
        [now left|now right]. }
    destruct Hc as [c [Hc ->]].
    replace (S D - 1)%nat with D by lia. split.
    + rewrite neighbours_step by assumption. rewrite IH1, Z. reflexivity.
    + destruct D as [|D']; [lia|].
      rewrite neighbours_step by assumption.
      replace (S D' - 1)%nat with D' in IH2 by lia.
      rewrite IH1, IH2. lia.
Qed.

Lemma length_flat_map_cond {X Y} (t : X -> bool) (h : X -> Y) (l : list X) :
  length (flat_map (fun x => if t x then [h x] else []) l)
  = length (List.filter t l).
Proof.
  induction l as [|x l IH]; [reflexivity|].
  cbn [flat_map List.filter]. destruct (t x); simpl; now rewrite IH.
Qed.

Lemma flat_map_ext_in {X Y} (f g : X -> list Y) (l : list X) :
  (forall x, In x l -> f x = g x) -> flat_map f l = flat_map g l.
Proof.
  induction l as [|x l IH]; intros H; [reflexivity|].
  cbn [flat_map]. rewrite (H x) by now left.
  rewrite IH by (intros; apply H; now right). reflexivity.
Qed.

Lemma flat_map_singleton {X} (l : list X) : flat_map (fun x => [x]) l = l.
Proof. induction l as [|x l IH]; simpl; [reflexivity|now rewrite IH]. Qed.

Lemma imap_pair_snd {X} (g : nat -> nat) (l : list X) :
  map snd (imap (fun i a => (g i, a)) l) = l.
Proof.
  revert g. induction l as [|x l IH]; intros g; [reflexivity|].
  rewrite imap_cons. cbn [map]. f_equal. apply (IH (g ∘ S)).
Qed.

Lemma entries_snd {X} (points : list (list X)) :
  map snd (Renderer.entries points) = points.
Proof. apply (imap_pair_snd (fun i => i)). Qed.

Lemma entries_length {X} (points : list (list X)) :
  length (Renderer.entries points) = length points.
Proof. now rewrite <- (entries_snd points) at 2; rewrite length_map. Qed.

Lemma list_sum_constant {X} (l : list X) (n : nat) (h : X -> nat) :
  (forall x, In x l -> h x = n) -> list_sum (map h l) = (n * length l)%nat.
Proof.
  induction l as [|x l IH]; intros H; simpl; [lia|].
  rewrite (H x) by now left. rewrite IH by (intros; apply H; now right). lia.
Qed.

(** Each vertex has [D] neighbours: [D * 2^D] ordered pairs. *)
Lemma edgesOf_length (D : nat) :
  (1 <= D)%nat ->
  length (edgesOf Ascii.eqb (Z.of_nat D) (binaryPoints D)) = (D * 2 ^ D)%nat.
Proof.
  intros HD. unfold edgesOf. rewrite length_flat_map.
  rewrite (list_sum_constant _ D), entries_length, binaryPoints_length;
    [reflexivity|].
  intros [i a] Hi.
  pose proof (binaryPoints_uniform D HD) as U. rewrite Forall_forall in U.
  assert (Ha : In a (binaryPoints D)).
  { apply entries_In in Hi. apply list_elem_of_In.
    eapply list_elem_of_lookup_2. exact Hi. }
  rewrite (flat_map_ext_in _
             (fun jb => if (agree Ascii.eqb a (snd jb) =? D - 1)%nat
                        then [(i, fst jb)] else [])).
  - rewrite (length_flat_map_cond
               (fun jb => (agree Ascii.eqb a (snd jb) =? D - 1)%nat)
               (fun jb => (i, fst jb))).
    transitivity (length (List.filter
                            (fun b => (agree Ascii.eqb a b =? D - 1)%nat)
                            (map snd (Renderer.entries (binaryPoints D))))).
    + rewrite filter_map_swap, length_map. reflexivity.
    + rewrite entries_snd. now apply neighbours_count.
  - intros [j b] Hj. cbn [fst snd].
    destruct (Nat.eqb_spec i j) as [->|Hne].
    + apply entries_In in Hi, Hj. rewrite Hi in Hj. inversion Hj; subst b.
      rewrite agree_refl, (U a) by now apply list_elem_of_In.
      destruct (Nat.eqb_spec D (D - 1)); [lia|reflexivity].
    + destruct (Z.eqb_spec (Z.of_nat (agree Ascii.eqb a b)) (Z.of_nat D - 1)),
               (Nat.eqb_spec (agree Ascii.eqb a b) (D - 1));
        try reflexivity; lia.
Qed.

Lemma differ_map (s : R) (a b : list ascii) :
  s <> 0%R -> Forall isDigit a -> Forall isDigit b ->
  differ JS.strictEq (map (coordinate (Num s)) a) (map (coordinate (Num s)) b)
  = differ Ascii.eqb a b.
Proof.
  intros Hs Ha Hb. unfold differ. rewrite length_map.
  rewrite (agree_map Ascii.eqb JS.strictEq (coordinate (Num s)) isDigit);
    try assumption; [reflexivity|].
  intros x y Hx Hy. now apply coordinate_strictEq.
Qed.

Lemma cubePoints_lookup_binary (D : nat) (s : R) (i : nat) (p : list number) :
  Renderer.cubePointsGenerator (Z.of_nat D) (Num s) !! i = Some p <->
  exists a, binaryPoints D !! i = Some a /\ p = map (coordinate (Num s)) a.
Proof.
  rewrite cubePoints_binary, lookup_map. split.
  - destruct (binaryPoints D !! i) as [a|]; [|discriminate].
    intros H. inversion H. now exists a.
  - intros [a [-> ->]]. reflexivity.
Qed.

(** C1, as the code has it.  For every D >= 2 the edge generator applied
    to the base vertex set, of a size for which the two computed
    coordinate values -size/2 and +size/2 are different under [===],
    emits exactly the ordered pairs (i, j) whose points differ in
    exactly one coordinate, each ordered pair once: every unordered edge
    appears twice, as (i, j) and as (j, i), for a total of D * 2^D pairs,
    and the drawing caller strokes every emitted pair. *)
Theorem edges_emitted_in_both_orders (D : nat) (s : R) :
  (2 <= D)%nat -> separated (Num s) = true ->
  exists es,
    Renderer.edgeGenerator JS.strictEq (Z.of_nat D)
      (Renderer.cubePointsGenerator (Z.of_nat D) (Num s)) = Return es /\
    (forall G, Global.DIMENSIONS G = Z.of_nat D ->
       Renderer.drawEdges G (Renderer.cubePointsGenerator (Z.of_nat D) (Num s))
       = Return es) /\
    (forall i j,
       In (i, j) es <->
       exists p q,
         Renderer.cubePointsGenerator (Z.of_nat D) (Num s) !! i = Some p /\
         Renderer.cubePointsGenerator (Z.of_nat D) (Num s) !! j = Some q /\
         differ JS.strictEq p q = 1%nat) /\
    List.NoDup es /\
    (forall i j, In (i, j) es -> In (j, i) es) /\
    length es = (D * 2 ^ D)%nat.
Proof.
  intros HD Hsep. pose proof (separated_nonzero s Hsep) as Hs.
  pose proof (binaryPoints_shape D ltac:(lia)) as Sh.
  assert (E : Renderer.edgeGenerator JS.strictEq (Z.of_nat D)
                (Renderer.cubePointsGenerator (Z.of_nat D) (Num s))
              = Return (edgesOf Ascii.eqb (Z.of_nat D) (binaryPoints D))).
  { rewrite edgeGenerator_binary by (assumption || lia).
    apply (edgeGenerator_pure Ascii.eqb _ D); [lia|].
    apply binaryPoints_uniform. lia. }
  assert (M : forall i j,
    In (i, j) (edgesOf Ascii.eqb (Z.of_nat D) (binaryPoints D)) <->
    exists a b, binaryPoints D !! i = Some a /\ binaryPoints D !! j = Some b /\
                differ Ascii.eqb a b = 1%nat).
  { intros i j. rewrite edgesOf_In. split.
    - intros [a [b [Ha [Hb [_ Hab]]]]]. exists a, b. repeat split; trivial.
      unfold differ. destruct (Forall_lookup_1 _ _ _ _ Sh Ha) as [-> _]. lia.
    - intros [a [b [Ha [Hb Hab]]]]. exists a, b. repeat split; trivial.
      + intros ->. rewrite Ha in Hb. inversion Hb; subst b.
        unfold differ in Hab. rewrite agree_refl in Hab. lia.
      + unfold differ in Hab.
        destruct (Forall_lookup_1 _ _ _ _ Sh Ha) as [La _].
        rewrite La in Hab. lia. }
  exists (edgesOf Ascii.eqb (Z.of_nat D) (binaryPoints D)).
  split; [exact E|]. split; [|split; [|split; [|split]]].
  - intros G HG. unfold Renderer.drawEdges. rewrite HG, E.
    cbn [mbind outcome_bind JS.bind].
    rewrite (forEach_pure _ (fun ij => [ij])) by (now intros [i j] _).
    now rewrite flat_map_singleton.
  - intros i j. rewrite M. split.
    + intros [a [b [Ha [Hb Hab]]]].
      exists (map (coordinate (Num s)) a), (map (coordinate (Num s)) b).
      rewrite !cubePoints_lookup_binary. repeat split; eauto.
      rewrite differ_map; try assumption;
        eapply (Forall_lookup_1 _ _ _ _ Sh); eassumption.
    + intros [p [q [Hp [Hq Hpq]]]].
      apply cubePoints_lookup_binary in Hp, Hq.
      destruct Hp as [a [Ha ->]], Hq as [b [Hb ->]].
      exists a, b. repeat split; trivial.
      rewrite differ_map in Hpq; try assumption;
        eapply (Forall_lookup_1 _ _ _ _ Sh); eassumption.
  - apply edgesOf_NoDup.
  - intros i j. rewrite !M. intros [a [b [Ha [Hb Hab]]]].
    exists b, a. repeat split; trivial.
    unfold differ in *. rewrite agree_sym.
    destruct (Forall_lookup_1 _ _ _ _ Sh Ha) as [La _].
    destruct (Forall_lookup_1 _ _ _ _ Sh Hb) as [Lb _]. lia.
  - apply edgesOf_length. lia.
Qed.

Lemma edges_emitted_in_both_orders_witness :
  exists es,
    Renderer.edgeGenerator JS.strictEq (Z.of_nat 3)
      (Renderer.cubePointsGenerator (Z.of_nat 3) (Num 2)) = Return es /\
    length es = 24%nat.
Proof.
  destruct (edges_emitted_in_both_orders 3 2) as [es [H [_ [_ [_ [_ L]]]]]].
  - lia.
  - apply separated_Num. lra.
  - exists es. split; [exact H|exact L].
Defined.

(** C1 as stated fails: on the square the generator emits 8 pairs, both
    (0, 1) and (1, 0) among them, where the claim counts 4. *)
Lemma square_edges_are_doubled : ~ Stated.edges 2 2.
Proof.
  intros [es [H [L _]]].
  rewrite edgeGenerator_binary in H by (lia || lra).
  vm_compute in H. inversion H; subst es. discriminate.
Qed.

(* ================================================================== *)
(** * The ordering loop of the face generator (claim C9) *)
(* ================================================================== *)

Lemma columns_exist (n : nat) (a b c d : list ascii) :
  length a = n -> length b = n -> length c = n -> length d = n ->
  exists cols : list column,
    a = map (pick 0) cols /\ b = map (pick 1) cols /\
    c = map (pick 2) cols /\ d = map (pick 3) cols.
Proof.
  revert a b c d. induction n as [|n IH]; intros a b c d Ha Hb Hc Hd.
  - exists []. destruct a, b, c, d; try discriminate. repeat split.
  - destruct a as [|x0 a], b as [|x1 b], c as [|x2 c], d as [|x3 d];
      try discriminate.
    destruct (IH a b c d) as [cols [-> [-> [-> ->]]]];
      try (simpl in *; lia).
    exists ((x0, x1, x2, x3) :: cols). repeat split.
Qed.

Lemma constant_pick (col : column) (s t : nat) :
  constant col = true -> pick s col = pick t col.
Proof.
  destruct col as [[[x0 x1] x2] x3]. unfold constant.
  rewrite !andb_true_iff, !Ascii.eqb_eq. intros [_ [-> [-> [-> _]]]].
  destruct s as [|[|[|s]]], t as [|[|[|t]]]; reflexivity.
Qed.

Lemma agreeAll_columns (cols : list column) :
  agreeAll Ascii.eqb (map (pick 0) cols)
    [map (pick 0) cols; map (pick 1) cols; map (pick 2) cols; map (pick 3) cols]
  = length (List.filter constant cols).
Proof.
  induction cols as [|[[[x0 x1] x2] x3] cols IH]; [reflexivity|].
  cbn [map agreeAll tail List.filter pick forallb]. rewrite IH.
  unfold constant at 2. destruct (_ && _); reflexivity.
Qed.

Lemma agree_columns (cols : list column) (s t : nat) :
  agree Ascii.eqb (map (pick s) cols) (map (pick t) cols)
  = (length (List.filter constant cols)
     + agree Ascii.eqb (map (pick s) (mixed cols)) (map (pick t) (mixed cols)))%nat.
Proof.
  unfold mixed. induction cols as [|col cols IH]; [reflexivity|].
  cbn [map agree List.filter]. rewrite IH.
  destruct (constant col) eqn:E; cbn [negb length map agree].
  - rewrite (constant_pick col s t E), Ascii.eqb_refl. lia.
  - lia.
Qed.

Lemma mixed_length (cols : list column) :
  (length (List.filter constant cols) + length (mixed cols))%nat = length cols.
Proof.
  unfold mixed. induction cols as [|col cols IH]; [reflexivity|].
  cbn [List.filter]. destruct (constant col); cbn [negb length]; lia.
Qed.

Lemma mixed_digits (cols : list column) (s : nat) :
  Forall isDigit (map (pick s) cols) ->
  Forall isDigit (map (pick s) (mixed cols)).
Proof.
  unfold mixed. induction cols as [|col cols IH]; intros H; [constructor|].
  cbn [map] in H. inversion H as [|? ? Hc Hcs]; subst.
  cbn [List.filter]. destruct (constant col); cbn [negb map]; auto.
Qed.

Lemma agree_full (v w : list ascii) :
  length v = length w -> agree Ascii.eqb v w = length v -> v = w.
Proof.
  revert w. induction v as [|x v IH]; intros [|y w] L H; try discriminate;
    [reflexivity|].
  cbn [agree length] in *. pose proof (agree_le Ascii.eqb v w) as Le.
  destruct (Ascii.eqb_spec x y) as [->|Hne]; [|lia].
  f_equal. apply IH; lia.
Qed.

Lemma list_eqb_false (v w : list ascii) : v <> w -> list_eqb v w = false.
Proof.
  revert w. induction v as [|x v IH]; intros [|y w] H; try reflexivity;
    [congruence|].
  cbn [list_eqb]. destruct (Ascii.eqb_spec x y) as [->|_]; [|reflexivity].
  apply IH. congruence.
Qed.

Lemma corners_In (v : list ascii) :
  length v = 2%nat -> Forall isDigit v -> In v corners.
Proof.
  destruct v as [|x [|y [|z v]]]; try discriminate. intros _ H.
  inversion H as [|? ? Hx H']; subst. inversion H' as [|? ? Hy _]; subst.
  destruct Hx as [-> | ->], Hy as [-> | ->]; simpl; auto.
Qed.

Lemma last_map {X Y} (h : X -> Y) (l : list X) :
  last (map h l) = h <$> last l.
Proof.
  induction l as [|x l IH]; [reflexivity|].
  destruct l as [|y l]; [reflexivity|]. exact IH.
Qed.

(** The loop only looks at the points through the adjacency test: it
    runs alike on two lists of points whose tests agree, up to a
    renaming [rho] of the indices. *)
Lemma orderFace_sim (rho : nat -> nat) (d d' : Z)
    (points points' : list (list ascii)) (slots : list nat) :
  (forall s t, In s slots -> In t slots ->
     exists p q p' q',
       points !! rho s = Some p /\ points !! rho t = Some q /\
       points' !! s = Some p' /\ points' !! t = Some q' /\
       p <> [] /\ p' <> [] /\
       (Z.of_nat (agree Ascii.eqb p q) =? d - 1)
       = (Z.of_nat (agree Ascii.eqb p' q') =? d' - 1)) ->
  forall fuel faceIndices rest,
    incl faceIndices slots -> incl rest slots ->
    Renderer.orderFace Ascii.eqb fuel d points
      (map rho faceIndices) (map rho rest)
    = (face ← Renderer.orderFace Ascii.eqb fuel d' points' faceIndices rest;
       Return (map rho face)).
Proof.
  intros H. induction fuel as [|fuel IH]; intros f r Hf Hr;
    cbn [Renderer.orderFace]; rewrite length_map.
  - destruct (length f =? 4)%nat; reflexivity.
  - destruct (length f =? 4)%nat; [reflexivity|].
    rewrite last_map.
    destruct (last f) as [s|] eqn:Hs; [|reflexivity].
    destruct r as [|t r]; [reflexivity|].
    cbn [fmap option_fmap option_map map].
    assert (Is : In s slots).
    { apply Hf. apply list_elem_of_In. now apply last_Some_elem_of. }
    assert (It : In t slots) by (apply Hr; now left).
    destruct (H s t Is It) as [p [q [p' [q' [-> [-> [-> [-> [Np [Np' E]]]]]]]]]].
    rewrite !matches_agree by assumption.
    cbn [mbind outcome_bind JS.bind]. rewrite E.
    destruct (negb (Z.of_nat (agree Ascii.eqb p' q') =? d' - 1)).
    + rewrite <- IH.
      * now rewrite map_app.
      * exact Hf.
      * intros x Hx. apply in_app_or in Hx.
        destruct Hx as [Hx|[<-|[]]]; [apply Hr; now right|exact It].
    + rewrite <- IH.
      * now rewrite map_app.
      * intros x Hx. apply in_app_or in Hx.
        destruct Hx as [Hx|[<-|[]]]; [now apply Hf|exact It].
      * intros x Hx. apply Hr. now right.
Qed.

Lemma orderFace_more_fuel {A} (eq : A -> A -> bool) (d : Z)
    (points : list (list A)) (n fuel : nat) (faceIndices rest face : list nat) :
  Renderer.orderFace eq fuel d points faceIndices rest = Return face ->
  Renderer.orderFace eq (fuel + n) d points faceIndices rest = Return face.
Proof.
  revert faceIndices rest. induction fuel as [|fuel IH]; intros f r;
    cbn [Renderer.orderFace Nat.add].
  - destruct (length f =? 4)%nat eqn:E; [|discriminate].
    intros H. destruct n; cbn [Renderer.orderFace]; now rewrite E.
  - destruct (length f =? 4)%nat; [trivial|].
    destruct (last f) as [s|]; [|trivial].
    destruct r as [|t r]; [trivial|].
    destruct (points !! s) as [p|]; [|trivial].
    destruct (points !! t) as [q|]; [|trivial].
    destruct (Renderer.matches eq p q) as [m| |];
      cbn [mbind outcome_bind JS.bind]; trivial.
    destruct (negb (Z.of_nat m =? d - 1)); apply IH.
Qed.

Lemma squareCheck_true : squareCheck = true.
Proof. vm_compute. reflexivity. Qed.

Lemma square_traversal (a b c d : list ascii) :
  In a corners -> In b corners -> In c corners -> In d corners ->
  a <> b -> a <> c -> a <> d -> b <> c -> b <> d -> c <> d ->
  traversal 2 [a; b; c; d] [0; 1; 2; 3]%nat
    (Renderer.orderFace Ascii.eqb 5 2 [a; b; c; d] [0%nat] [1; 2; 3]%nat)
  = true.
Proof.
  intros Ha Hb Hc Hd Nab Nac Nad Nbc Nbd Ncd.
  pose proof squareCheck_true as H. unfold squareCheck in H.
  rewrite forallb_forall in H. specialize (H a Ha).
  rewrite forallb_forall in H. specialize (H b Hb).
  rewrite forallb_forall in H. specialize (H c Hc).
  rewrite forallb_forall in H. specialize (H d Hd).
  unfold distinct4 in H. rewrite !list_eqb_false in H by assumption.
  exact H.
Qed.

Lemma traversal_Return (d : Z) (points : list (list ascii))
    (slots face : list nat) :
  traversal d points slots (Return face) = true ->
  exists x0 x1 x2 x3,
    face = [x0; x1; x2; x3] /\ sameSet face slots = true /\
    adjacentb d points x0 x1 = true /\ adjacentb d points x1 x2 = true /\
    adjacentb d points x2 x3 = true /\ adjacentb d points x3 x0 = true.
Proof.
  unfold traversal.
  destruct face as [|x0 [|x1 [|x2 [|x3 [|x4 face]]]]]; try discriminate.
  rewrite !andb_true_iff. intros [[[[S W01] W12] W23] W30].
  exists x0, x1, x2, x3. auto 10.
Qed.

Lemma sameSet_In (f g : list nat) :
  sameSet f g = true -> forall x, In x f <-> In x g.
Proof.
  unfold sameSet. rewrite andb_true_iff, !forallb_forall.
  intros [H1 H2] x. split; intros Hx.
  - apply H1 in Hx. apply existsb_exists in Hx.
    destruct Hx as [y [Hy E]]. apply Nat.eqb_eq in E. now subst.
  - apply H2 in Hx. apply existsb_exists in Hx.
    destruct Hx as [y [Hy E]]. apply Nat.eqb_eq in E. now subst.
Qed.

(** The situation of the ordering loop: four distinct vertices of the
    binary vertex set, given by their columns, that share D - 2
    coordinates. *)
Section FaceOrdering.

Variables (D : nat) (i j k l : nat) (cols : list column).
Hypothesis D_ge : (2 <= D)%nat.
Hypothesis distinct : List.NoDup [i; j; k; l].
Hypothesis at_i : binaryPoints D !! i = Some (map (pick 0) cols).
Hypothesis at_j : binaryPoints D !! j = Some (map (pick 1) cols).
Hypothesis at_k : binaryPoints D !! k = Some (map (pick 2) cols).
Hypothesis at_l : binaryPoints D !! l = Some (map (pick 3) cols).
Hypothesis shared : length (List.filter constant cols) = (D - 2)%nat.

Abbreviation rho := (slotIndex i j k l).
Abbreviation square := (squareOf cols).

Lemma cols_length : length cols = D.
Proof.
  pose proof (binaryPoints_uniform D ltac:(lia)) as U.
  pose proof (Forall_lookup_1 _ _ _ _ U at_i) as L.
  cbv beta in L. now rewrite length_map in L.
Qed.

Lemma mixed_two : length (mixed cols) = 2%nat.
Proof.
  pose proof (mixed_length cols) as M. rewrite shared, cols_length in M. lia.
Qed.

Lemma slot_lookup (s : nat) :
  In s [0; 1; 2; 3]%nat ->
  binaryPoints D !! rho s = Some (map (pick s) cols) /\
  square !! s = Some (map (pick s) (mixed cols)).
Proof.
  intros [<-|[<-|[<-|[<-|[]]]]]; split; try reflexivity; assumption.
Qed.

Lemma slot_test (s t : nat) :
  (Z.of_nat (agree Ascii.eqb (map (pick s) cols) (map (pick t) cols))
   =? Z.of_nat D - 1)
  = (Z.of_nat (agree Ascii.eqb (map (pick s) (mixed cols))
                               (map (pick t) (mixed cols))) =? 2 - 1).
Proof.
  rewrite agree_columns, shared.
  destruct (Z.eqb_spec
              (Z.of_nat (D - 2 + agree Ascii.eqb (map (pick s) (mixed cols))
                                   (map (pick t) (mixed cols))))
              (Z.of_nat D - 1)),
           (Z.eqb_spec
              (Z.of_nat (agree Ascii.eqb (map (pick s) (mixed cols))
                           (map (pick t) (mixed cols)))) (2 - 1));
    try reflexivity; lia.
Qed.

Lemma slot_distinct (s t : nat) :
  In s [0; 1; 2; 3]%nat -> In t [0; 1; 2; 3]%nat -> s <> t ->
  map (pick s) (mixed cols) <> map (pick t) (mixed cols).
Proof.
  intros Hs Ht Hst E.
  destruct (slot_lookup s Hs) as [Ps _], (slot_lookup t Ht) as [Pt _].
  assert (Eq : map (pick s) cols = map (pick t) cols).
  { apply agree_full; [now rewrite !length_map|].
    rewrite agree_columns, E, agree_refl, !length_map, mixed_two, shared,
      cols_length. lia. }
  rewrite Eq in Ps.
  pose proof (binaryPoints_NoDup D ltac:(lia)) as N.
  apply NoDup_ListNoDup in N.
  pose proof (NoDup_lookup _ _ _ _ N Ps Pt) as R.
  apply NoDup_ListNoDup in distinct.
  assert (Ls : [i; j; k; l] !! s = Some (rho s)).
  { destruct Hs as [<-|[<-|[<-|[<-|[]]]]]; reflexivity. }
  assert (Lt : [i; j; k; l] !! t = Some (rho t)).
  { destruct Ht as [<-|[<-|[<-|[<-|[]]]]]; reflexivity. }
  rewrite R in Ls. apply Hst. exact (NoDup_lookup _ _ _ _ distinct Ls Lt).
Qed.

Lemma square_corner (s : nat) :
  In s [0; 1; 2; 3]%nat -> In (map (pick s) (mixed cols)) corners.
Proof.
  intros Hs. apply corners_In; [now rewrite length_map, mixed_two|].
  apply mixed_digits.
  destruct (slot_lookup s Hs) as [Ps _].
  exact (Forall_lookup_1 _ _ _ _ (binaryPoints_digits D ltac:(lia)) Ps).
Qed.

(** The loop on the vertex set is the loop on the square. *)
Lemma orderFace_square (fuel : nat) :
  Renderer.orderFace Ascii.eqb fuel (Z.of_nat D) (binaryPoints D) [i] [j; k; l]
  = (face ← Renderer.orderFace Ascii.eqb fuel 2 square [0%nat] [1; 2; 3]%nat;
     Return (map rho face)).
Proof.
  change [i] with (map rho [0%nat]).
  change [j; k; l] with (map rho [1; 2; 3]%nat).
  apply (orderFace_sim rho (Z.of_nat D) 2 (binaryPoints D) square
           [0; 1; 2; 3]%nat).
  - intros s t Hs Ht.
    destruct (slot_lookup s Hs) as [Ps Qs], (slot_lookup t Ht) as [Pt Qt].
    exists (map (pick s) cols), (map (pick t) cols),
           (map (pick s) (mixed cols)), (map (pick t) (mixed cols)).
    repeat split; try assumption.
    + intros E. apply (f_equal (@length ascii)) in E.
      rewrite length_map, cols_length in E. simpl in E. lia.
    + intros E. apply (f_equal (@length ascii)) in E.
      rewrite length_map, mixed_two in E. discriminate.
    + apply slot_test.
  - intros x [<-|[]]. now left.
  - intros x Hx. now right.
Qed.

Lemma square_walk :
  traversal 2 square [0; 1; 2; 3]%nat
    (Renderer.orderFace Ascii.eqb 5 2 square [0%nat] [1; 2; 3]%nat) = true.
Proof.
  apply square_traversal;
    try (apply square_corner; simpl; tauto);
    apply slot_distinct; simpl; try tauto; lia.
Qed.

(** A side of the square is an edge of the cube. *)
Lemma square_side (s : R) (x y : nat) :
  s <> 0%R -> In x [0; 1; 2; 3]%nat -> In y [0; 1; 2; 3]%nat ->
  adjacentb 2 square x y = true ->
  joined (Renderer.cubePointsGenerator (Z.of_nat D) (Num s)) (rho x) (rho y).
Proof.
  intros Hs Hx Hy H. unfold adjacentb in H.
  destruct (slot_lookup x Hx) as [Px Qx], (slot_lookup y Hy) as [Py Qy].
  rewrite Qx, Qy, <- slot_test in H. apply Z.eqb_eq in H.
  exists (map (coordinate (Num s)) (map (pick x) cols)),
         (map (coordinate (Num s)) (map (pick y) cols)).
  rewrite !cubePoints_lookup_binary. repeat split; eauto.
  rewrite differ_map; try assumption.
  - unfold differ. rewrite length_map, cols_length. lia.
  - exact (Forall_lookup_1 _ _ _ _ (binaryPoints_digits D ltac:(lia)) Px).
  - exact (Forall_lookup_1 _ _ _ _ (binaryPoints_digits D ltac:(lia)) Py).
Qed.

Lemma orderFace_walk (s : R) (n : nat) :
  s <> 0%R ->
  exists face,
    Renderer.orderFace Ascii.eqb (5 + n) (Z.of_nat D) (binaryPoints D)
      [i] [j; k; l] = Return face /\
    length face = 4%nat /\
    (forall x, In x face <-> In x [i; j; k; l]) /\
    closedWalk (Renderer.cubePointsGenerator (Z.of_nat D) (Num s)) face.
Proof.
  intros Hs. pose proof square_walk as W.
  destruct (Renderer.orderFace Ascii.eqb 5 2 square [0%nat] [1; 2; 3]%nat)
    as [face| |] eqn:E; try discriminate.
  apply traversal_Return in W.
  destruct W as [x0 [x1 [x2 [x3 [-> [S [W01 [W12 [W23 W30]]]]]]]]].
  pose proof (sameSet_In _ _ S) as In4.
  exists (map rho [x0; x1; x2; x3]).
  rewrite orderFace_square, (orderFace_more_fuel _ _ _ n 5 _ _ _ E).
  split; [reflexivity|]. split; [reflexivity|]. split.
  - intros x. change [i; j; k; l] with (map rho [0; 1; 2; 3]%nat).
    rewrite !in_map_iff. split; intros [y [Hy Iy]]; exists y;
      (split; [exact Hy|now apply In4]).
  - exists (rho x0), (rho x1), (rho x2), (rho x3).
    split; [reflexivity|].
    repeat split; apply square_side; try assumption;
      apply In4; simpl; tauto.
Qed.

End FaceOrdering.

(** C9.  For every D >= 2 (and a size other than zero), whenever four
    distinct vertices pass the shared-coordinate test of the face
    generator, the ordering loop started at the first of them ends
    within five iterations, whatever fuel it is given beyond that: it
    returns the four indices, ordered as a closed walk in which every
    consecutive pair, the last and the first included, differs in
    exactly one coordinate. *)
Theorem face_ordering_terminates (D : nat) (s : R) (i j k l : nat)
    (a b c d : list number) (m n : nat) :
  (2 <= D)%nat -> s <> 0%R ->
  List.NoDup [i; j; k; l] ->
  Renderer.cubePointsGenerator (Z.of_nat D) (Num s) !! i = Some a ->
  Renderer.cubePointsGenerator (Z.of_nat D) (Num s) !! j = Some b ->
  Renderer.cubePointsGenerator (Z.of_nat D) (Num s) !! k = Some c ->
  Renderer.cubePointsGenerator (Z.of_nat D) (Num s) !! l = Some d ->
  Renderer.matchesAll JS.strictEq [a; b; c; d] = Return m ->
  Z.of_nat m = Z.of_nat D - 2 ->
  exists face,
    Renderer.orderFace JS.strictEq (5 + n) (Z.of_nat D)
      (Renderer.cubePointsGenerator (Z.of_nat D) (Num s)) [i] [j; k; l]
    = Return face /\
    length face = 4%nat /\
    (forall x, In x face <-> In x [i; j; k; l]) /\
    closedWalk (Renderer.cubePointsGenerator (Z.of_nat D) (Num s)) face.
Proof.
  intros HD Hs Hnd Hi Hj Hk Hl Hm Em.
  apply cubePoints_lookup_binary in Hi, Hj, Hk, Hl.
  destruct Hi as [a' [Hi ->]], Hj as [b' [Hj ->]],
           Hk as [c' [Hk ->]], Hl as [d' [Hl ->]].
  pose proof (binaryPoints_shape D ltac:(lia)) as Sh.
  destruct (Forall_lookup_1 _ _ _ _ Sh Hi) as [La Da].
  destruct (Forall_lookup_1 _ _ _ _ Sh Hj) as [Lb Db].
  destruct (Forall_lookup_1 _ _ _ _ Sh Hk) as [Lc Dc].
  destruct (Forall_lookup_1 _ _ _ _ Sh Hl) as [Ld Dd].
  change [map (coordinate (Num s)) a'; map (coordinate (Num s)) b';
          map (coordinate (Num s)) c'; map (coordinate (Num s)) d']
    with (map (map (coordinate (Num s))) [a'; b'; c'; d']) in Hm.
  rewrite (matchesAll_map Ascii.eqb JS.strictEq (coordinate (Num s)) isDigit)
    in Hm by (try (intros; now apply coordinate_strictEq); repeat constructor;
              assumption).
  destruct (columns_exist D a' b' c' d' La Lb Lc Ld)
    as [cols [-> [-> [-> ->]]]].
  rewrite matchesAll_agreeAll, agreeAll_columns in Hm
    by (intros E; rewrite E in La; simpl in La; lia).
  inversion Hm as [Hm']. rewrite orderFace_binary by (assumption || lia).
  apply (orderFace_walk D i j k l cols); try assumption. lia.
Qed.

Lemma face_ordering_terminates_witness :
  exists face,
    Renderer.orderFace JS.strictEq (5 + 0) (Z.of_nat 2)
      (Renderer.cubePointsGenerator (Z.of_nat 2) (Num 2))
      [0%nat] [1; 2; 3]%nat = Return face /\
    length face = 4%nat.
Proof.
  assert (L : forall x,
    (x < 4)%nat ->
    Renderer.cubePointsGenerator (Z.of_nat 2) (Num 2) !! x
    = Some (map (coordinate (Num 2)) (binaryPoint 2 x))).
  { intros x Hx. rewrite cubePoints_binary, lookup_map, binaryPoints_lookup;
      [reflexivity|simpl; lia]. }
  assert (M : Renderer.matchesAll JS.strictEq
                [map (coordinate (Num 2)) (binaryPoint 2 0);
                 map (coordinate (Num 2)) (binaryPoint 2 1);
                 map (coordinate (Num 2)) (binaryPoint 2 2);
                 map (coordinate (Num 2)) (binaryPoint 2 3)] = Return 0%nat).
  { change (Renderer.matchesAll JS.strictEq
              (map (map (coordinate (Num 2)))
                 [binaryPoint 2 0; binaryPoint 2 1;
                  binaryPoint 2 2; binaryPoint 2 3]) = Return 0%nat).
    rewrite (matchesAll_map Ascii.eqb JS.strictEq (coordinate (Num 2)) isDigit).
    - reflexivity.
    - intros x y Hx Hy. apply coordinate_strictEq; [lra|assumption..].
    - repeat constructor; apply (binaryPoint_shape 2); simpl; lia. }
  destruct (face_ordering_terminates 2 2 0 1 2 3 _ _ _ _ 0 0
              ltac:(lia) ltac:(lra)
              ltac:(repeat constructor; simpl; intuition lia)
              (L 0%nat ltac:(lia)) (L 1%nat ltac:(lia))
              (L 2%nat ltac:(lia)) (L 3%nat ltac:(lia)) M eq_refl)
    as [face [H [Len _]]].
  exists face. split; [exact H|exact Len].
Defined.

(* ================================================================== *)
(** * The faces of the tesseract (claim C5) *)
(* ================================================================== *)

Lemma forEach_mono {X Y} (f g : X -> outcome (list Y)) (xs : list X)
    (zs : list Y) :
  (forall x ys, In x xs -> f x = Return ys -> g x = Return ys) ->
  forEach f xs = Return zs -> forEach g xs = Return zs.
Proof.
  revert zs. induction xs as [|x xs IH]; intros zs H; [trivial|].
  cbn [forEach].
  destruct (f x) as [ys| |] eqn:Ex; cbn [JS.bind]; try discriminate.
  rewrite (H x ys (or_introl eq_refl) Ex). cbn [JS.bind].
  destruct (forEach f xs) as [ws| |] eqn:Exs; cbn [JS.bind]; try discriminate.
  rewrite (IH ws) by (try reflexivity; intros; eapply H; eauto; now right).
  trivial.
Qed.

Lemma faceGenerator_more_fuel {A} (eq : A -> A -> bool) (d : Z)
    (points : list (list A)) (fuel n : nat) (faces : list (list nat)) :
  Renderer.faceGenerator eq fuel d points = Return faces ->
  Renderer.faceGenerator eq (fuel + n) d points = Return faces.
Proof.
  unfold Renderer.faceGenerator.
  apply forEach_mono. intros [i a] ys _.
  apply forEach_mono. intros [j b] ys' _.
  destruct (stringGe (key i) (key j)); [trivial|].
  apply forEach_mono. intros [k c] ys'' _.
  destruct (stringGe (key j) (key k)); [trivial|].
  apply forEach_mono. intros [l e] ys''' _.
  destruct (stringGe (key k) (key l)); [trivial|].
  destruct (Renderer.matchesAll eq [a; b; c; e]) as [m| |];
    cbn [mbind outcome_bind JS.bind]; trivial.
  destruct (negb (Z.of_nat m =? d - 2)); [trivial|].
  destruct (Renderer.orderFace eq fuel d points [i] [j; k; l])
    as [face| |] eqn:E; cbn [JS.bind]; try discriminate.
  now rewrite (orderFace_more_fuel eq d points n fuel _ _ _ E).
Qed.

Lemma tesseractSetsCheck_true : tesseractSetsCheck = true.
Proof. vm_compute. reflexivity. Qed.

Lemma tesseractDistinctCheck_true : tesseractDistinctCheck = true.
Proof. vm_compute. reflexivity. Qed.

Lemma tesseractWalkCheck_true : tesseractWalkCheck = true.
Proof. vm_compute. reflexivity. Qed.


Lemma tesseractFaces_generated :
  Renderer.faceGenerator Ascii.eqb 5 4 (binaryPoints 4) = Return tesseractFaces.
Proof. vm_compute. reflexivity. Qed.

Lemma tesseractFaces_NoDup : List.NoDup tesseractFaces.
Proof.
  apply NoDup_ListNoDup, (bool_decide_unpack _). vm_compute. exact I.
Qed.

Lemma In_sameSet (f g : list nat) :
  (forall x, In x f <-> In x g) -> sameSet f g = true.
Proof.
  intros H. unfold sameSet. rewrite andb_true_iff, !forallb_forall.
  split; intros x Hx; apply existsb_exists; exists x;
    (split; [now apply H|apply Nat.eqb_refl]).
Qed.

Lemma sameList_eq (f g : list nat) : sameList f g = true -> f = g.
Proof.
  revert g. induction f as [|x f IH]; intros [|y g]; try discriminate;
    [reflexivity|].
  cbn [sameList]. rewrite andb_true_iff, Nat.eqb_eq. intros [-> H].
  f_equal. now apply IH.
Qed.

(** An edge of the binary vertex set is an edge of the vertex set. *)
Lemma adjacentb_joined (D : nat) (s : R) (x y : nat) :
  (1 <= D)%nat -> s <> 0%R ->
  adjacentb (Z.of_nat D) (binaryPoints D) x y = true ->
  joined (Renderer.cubePointsGenerator (Z.of_nat D) (Num s)) x y.
Proof.
  intros HD Hs H. unfold adjacentb in H.
  destruct (binaryPoints D !! x) as [p|] eqn:Hp; [|discriminate].
  destruct (binaryPoints D !! y) as [q|] eqn:Hq; [|discriminate].
  apply Z.eqb_eq in H.
  pose proof (binaryPoints_shape D HD) as Sh.
  destruct (Forall_lookup_1 _ _ _ _ Sh Hp) as [Lp Dp].
  destruct (Forall_lookup_1 _ _ _ _ Sh Hq) as [Lq Dq].
  exists (map (coordinate (Num s)) p), (map (coordinate (Num s)) q).
  rewrite !cubePoints_lookup_binary. repeat split; eauto.
  rewrite differ_map by assumption. unfold differ. lia.
Qed.

Lemma qualifies_stated (s : R) (i j k l : nat) :
  s <> 0%R ->
  qualifies 4 (binaryPoints 4) i j k l = true <->
  exists a b c d,
    Renderer.cubePointsGenerator (Z.of_nat 4) (Num s) !! i = Some a /\
    Renderer.cubePointsGenerator (Z.of_nat 4) (Num s) !! j = Some b /\
    Renderer.cubePointsGenerator (Z.of_nat 4) (Num s) !! k = Some c /\
    Renderer.cubePointsGenerator (Z.of_nat 4) (Num s) !! l = Some d /\
    Renderer.matchesAll JS.strictEq [a; b; c; d] = Return 2%nat.
Proof.
  intros Hs.
  pose proof (binaryPoints_digits 4 ltac:(lia)) as Dg.
  assert (T : forall a b c d,
    Forall isDigit a -> Forall isDigit b -> Forall isDigit c ->
    Forall isDigit d ->
    Renderer.matchesAll JS.strictEq
      [map (coordinate (Num s)) a; map (coordinate (Num s)) b;
       map (coordinate (Num s)) c; map (coordinate (Num s)) d]
    = Renderer.matchesAll Ascii.eqb [a; b; c; d]).
  { intros a b c d Ha Hb Hc Hd.
    change [map (coordinate (Num s)) a; map (coordinate (Num s)) b;
            map (coordinate (Num s)) c; map (coordinate (Num s)) d]
      with (map (map (coordinate (Num s))) [a; b; c; d]).
    apply (matchesAll_map Ascii.eqb JS.strictEq (coordinate (Num s)) isDigit).
    - intros x y Hx Hy. now apply coordinate_strictEq.
    - repeat constructor; assumption. }
  unfold qualifies. split.
  - destruct (binaryPoints 4 !! i) as [a|] eqn:Hi; [|discriminate].
    destruct (binaryPoints 4 !! j) as [b|] eqn:Hj; [|discriminate].
    destruct (binaryPoints 4 !! k) as [c|] eqn:Hk; [|discriminate].
    destruct (binaryPoints 4 !! l) as [d|] eqn:Hl; [|discriminate].
    destruct (Renderer.matchesAll Ascii.eqb [a; b; c; d]) as [m| |] eqn:Hm;
      try discriminate.
    intros E. apply Z.eqb_eq in E. assert (m = 2%nat) as -> by lia.
    exists (map (coordinate (Num s)) a), (map (coordinate (Num s)) b),
           (map (coordinate (Num s)) c), (map (coordinate (Num s)) d).
    rewrite !cubePoints_lookup_binary. repeat split; eauto.
    rewrite T; [exact Hm|eapply Forall_lookup_1; eassumption..].
  - intros [a [b [c [d [Hi [Hj [Hk [Hl Hm]]]]]]]].
    apply cubePoints_lookup_binary in Hi, Hj, Hk, Hl.
    destruct Hi as [a' [Hi ->]], Hj as [b' [Hj ->]],
             Hk as [c' [Hk ->]], Hl as [d' [Hl ->]].
    rewrite Hi, Hj, Hk, Hl.
    rewrite T in Hm by (eapply Forall_lookup_1; eassumption).
    now rewrite Hm.
Qed.

(** C5.  For D = 4, and a size for which the two computed coordinate
    values -size/2 and +size/2 are different under [===], the face
    generator emits exactly 24 faces, all different; the index sets of
    the faces are exactly the sets {i, j, k, l}, i < j < k < l, whose
    four points share exactly D - 2 = 2 coordinates, one face per set;
    and in every face
    each pair of consecutive indices, the pair from the last back to the
    first included, names two points that differ in exactly one
    coordinate. *)
Theorem tesseract_faces (s : R) (n : nat) :
  separated (Num s) = true ->
  exists faces,
    Renderer.faceGenerator JS.strictEq (5 + n) 4
      (Renderer.cubePointsGenerator 4 (Num s)) = Return faces /\
    length faces = 24%nat /\
    List.NoDup faces /\
    (forall i j k l, (i < j)%nat -> (j < k)%nat -> (k < l)%nat -> (l < 16)%nat ->
       (exists a b c d,
          Renderer.cubePointsGenerator 4 (Num s) !! i = Some a /\
          Renderer.cubePointsGenerator 4 (Num s) !! j = Some b /\
          Renderer.cubePointsGenerator 4 (Num s) !! k = Some c /\
          Renderer.cubePointsGenerator 4 (Num s) !! l = Some d /\
          Renderer.matchesAll JS.strictEq [a; b; c; d] = Return 2%nat)
       <->
       (exists face, In face faces /\ forall x, In x face <-> In x [i; j; k; l])) /\
    (forall face face', In face faces -> In face' faces ->
       (forall x, In x face <-> In x face') -> face = face') /\
    (forall face, In face faces ->
       closedWalk (Renderer.cubePointsGenerator 4 (Num s)) face).
Proof.
  intros Hsep. pose proof (separated_nonzero s Hsep) as Hs.
  change (Renderer.cubePointsGenerator 4 (Num s))
    with (Renderer.cubePointsGenerator (Z.of_nat 4) (Num s)).
  pose proof tesseractSetsCheck_true as C1. unfold tesseractSetsCheck in C1.
  pose proof tesseractDistinctCheck_true as C2.
  unfold tesseractDistinctCheck in C2.
  pose proof tesseractWalkCheck_true as C3. unfold tesseractWalkCheck in C3.
  exists tesseractFaces. split; [|split; [|split; [|split; [|split]]]].
  - rewrite faceGenerator_binary by (assumption || lia).
    apply faceGenerator_more_fuel, tesseractFaces_generated.
  - reflexivity.
  - apply tesseractFaces_NoDup.
  - intros i j k l Hij Hjk Hkl Hl.
    rewrite <- (qualifies_stated s i j k l Hs).
    rewrite forallb_forall in C1. specialize (C1 i ltac:(apply in_seq; lia)).
    rewrite forallb_forall in C1. specialize (C1 j ltac:(apply in_seq; lia)).
    rewrite forallb_forall in C1. specialize (C1 k ltac:(apply in_seq; lia)).
    rewrite forallb_forall in C1. specialize (C1 l ltac:(apply in_seq; lia)).
    replace (i <? j)%nat with true in C1 by (symmetry; apply Nat.ltb_lt; lia).
    replace (j <? k)%nat with true in C1 by (symmetry; apply Nat.ltb_lt; lia).
    replace (k <? l)%nat with true in C1 by (symmetry; apply Nat.ltb_lt; lia).
    cbn [andb] in C1. apply eqb_prop in C1. rewrite C1, existsb_exists.
    split; intros [face [Hf H]]; exists face; (split; [exact Hf|]).
    + now apply sameSet_In.
    + now apply In_sameSet.
  - intros face face' Hf Hf' H.
    rewrite forallb_forall in C2. specialize (C2 face Hf).
    rewrite forallb_forall in C2. specialize (C2 face' Hf').
    rewrite (In_sameSet _ _ H) in C2. now apply sameList_eq.
  - intros face Hf. rewrite forallb_forall in C3. specialize (C3 face Hf).
    apply traversal_Return in C3.
    destruct C3 as [x0 [x1 [x2 [x3 [-> [_ [W01 [W12 [W23 W30]]]]]]]]].
    exists x0, x1, x2, x3. split; [reflexivity|].
    repeat split; apply (adjacentb_joined 4 s); (assumption || lia).
Qed.

Lemma tesseract_faces_witness :
  exists faces,
    Renderer.faceGenerator JS.strictEq (5 + 0) 4
      (Renderer.cubePointsGenerator 4 (Num 300)) = Return faces /\
    length faces = 24%nat.
Proof.
  destruct (tesseract_faces 300 0) as [faces [H [L _]]].
  - apply separated_Num. lra.
  - exists faces. split; [exact H|exact L].
Defined.

(* ================================================================== *)
(** * Evaluations on small inputs *)
(* ================================================================== *)

Example hash_of_zero : Global.hash (charCodes "0") 0 = "b7"%string.
Proof. vm_compute. reflexivity. Qed.

Example keys_are_compared_as_strings :
  stringGe (key 2) (key 10) = true /\ stringGe (key 10) (key 2) = false.
Proof. split; reflexivity. Qed.

Example binaryPoints_of_the_square :
  binaryPoints 2 = [["0"; "0"]; ["0"; "1"]; ["1"; "0"]; ["1"; "1"]]%char.
Proof. reflexivity. Qed.

Example edges_of_the_square :
  Renderer.edgeGenerator Ascii.eqb 2 (binaryPoints 2)
  = Return [(0, 1); (0, 2); (1, 0); (1, 3); (2, 0); (2, 3); (3, 1); (3, 2)]%nat.
Proof. reflexivity. Qed.

Example faces_of_the_cube :
  Renderer.faceGenerator Ascii.eqb 5 3 (binaryPoints 3)
  = Return [[0; 1; 3; 2]; [0; 1; 5; 4]; [0; 2; 6; 4];
            [1; 3; 7; 5]; [2; 3; 7; 6]; [4; 5; 7; 6]]%nat.
Proof. vm_compute. reflexivity. Qed.

Example mul_of_a_ragged_matrix :
  Matrix.mul [[Num 1; Num 2]; [Num 3]] [[Num 1]; [Num 1]]
  = Return [[Num (0 + 1 * 1 + 2 * 1)]; [NaN]].
Proof. reflexivity. Qed.

(** The projection loop of the earlier module cannot complete on a point
    of three or more coordinates: its (D-1) x (D-1) matrix does not
    match the D rows of the point. *)
Lemma earlier_projection_throws (G : Global.config) (w : list number) :
  (3 <= length w)%nat ->
  EarlierRenderer.projectionStep G (length w - 1) w
  = Throw (Error Matrix.shapeMessage).
Proof.
  intros Hw. unfold EarlierRenderer.projectionStep.
  rewrite init_tabulate, diagonal_tabulate, toMatrix_map.
  set (g := fun i k : nat => _).
  destruct w as [|x w]; [simpl in Hw; lia|].
  cbn [length]. replace (S (length w) - 1)%nat with (length w) by lia.
  destruct (length w) as [|n] eqn:L; [simpl in Hw; lia|].
  unfold tabulate, Matrix.mul. cbn [seq map length].
  rewrite !length_map, length_seq, L.
  destruct (Nat.eqb_spec (S n) (S (S n))) as [E|_]; [lia|]. reflexivity.
Qed.

(* ================================================================== *)
(** * Points and column matrices *)
(* ================================================================== *)

Lemma toMatrix_toPoint (m : Matrix.matrix) :
  Forall (fun row => length row = 1%nat) m ->
  Point.toMatrix (Matrix.toPoint m) = m.
Proof.
  intros H. rewrite toMatrix_map. unfold Matrix.toPoint. rewrite map_map.
  induction H as [|row m Hrow _ IH]; [reflexivity|].
  simpl. rewrite IH.
  destruct row as [|x [|y row]]; simpl in Hrow; try discriminate. reflexivity.
Qed.

Lemma toMatrix_rectangular (point : list number) :
  rectangular (length point) 1 (Point.toMatrix point).
Proof.
  rewrite toMatrix_map. split; [apply length_map|].
  induction point; simpl; constructor; auto.
Qed.

(** X1. A point survives the passage through its column matrix, and a
    matrix whose rows all have one entry survives the passage through
    its point; the column matrix of a point of n coordinates has n rows
    of one entry. *)
Theorem point_matrix_round_trip :
  (forall point : list number,
     Matrix.toPoint (Point.toMatrix point) = point /\
     rectangular (length point) 1 (Point.toMatrix point)) /\
  (forall m : Matrix.matrix,
     Forall (fun row => length row = 1%nat) m ->
     Point.toMatrix (Matrix.toPoint m) = m).
Proof.
  split.
  - intros point. split; [apply toPoint_toMatrix | apply toMatrix_rectangular].
  - apply toMatrix_toPoint.
Qed.

Lemma point_matrix_round_trip_witness :
  Point.toMatrix (Matrix.toPoint [[Num 1]; [NaN]; [Num 3]])
  = [[Num 1]; [NaN]; [Num 3]].
Proof.
  apply (proj2 point_matrix_round_trip).
  repeat constructor.
Defined.

(* ================================================================== *)
(** * NaN in a product *)
(* ================================================================== *)

Lemma add_NaN_l (x : number) : JS.add NaN x = NaN.
Proof. reflexivity. Qed.

Lemma add_NaN_r (x : number) : JS.add x NaN = NaN.
Proof. destruct x; reflexivity. Qed.

Lemma mul_NaN_r (x : number) : JS.mul x NaN = NaN.
Proof. destruct x; reflexivity. Qed.

Lemma sigma_NaN (n k0 : nat) (f : nat -> number) :
  (k0 < n)%nat -> f k0 = NaN -> sigma n f = NaN.
Proof.
  intros Hk Hf. induction n as [|n IH]; [lia|].
  simpl. destruct (decide (k0 = n)) as [->|Hne].
  - rewrite Hf. apply add_NaN_r.
  - rewrite IH by lia. reflexivity.
Qed.

(** X3. In a product of matrices of matching sizes, a NaN entry of the
    left factor makes its whole row of the product NaN, and a NaN entry
    of the right factor makes its whole column of the product NaN. *)
Theorem mul_spreads_NaN (a b : Matrix.matrix) (r n c : nat) :
  (0 < r)%nat -> (0 < n)%nat -> (0 < c)%nat ->
  rectangular r n a -> rectangular n c b ->
  exists m,
    Matrix.mul a b = Return m /\
    forall i k j, (i < r)%nat -> (k < n)%nat -> (j < c)%nat ->
      Matrix.entry a i k = NaN \/ Matrix.entry b k j = NaN ->
      Matrix.entry m i j = NaN.
Proof.
  intros Hr Hn Hc Ha Hb. eexists. split.
  - apply (mul_rectangular a b r n c); assumption.
  - intros i k j Hi Hk Hj H.
    rewrite tabulate_entry by assumption.
    apply (sigma_NaN n k); [assumption|].
    destruct H as [-> | ->]; [reflexivity | apply mul_NaN_r].
Qed.

Lemma mul_spreads_NaN_witness :
  exists m,
    Matrix.mul [[Num 0; Num 1]; [Num 1; Num 0]] [[NaN]; [Num 2]] = Return m /\
    forall i k j, (i < 2)%nat -> (k < 2)%nat -> (j < 1)%nat ->
      Matrix.entry [[Num 0; Num 1]; [Num 1; Num 0]] i k = NaN \/
      Matrix.entry [[NaN]; [Num 2]] k j = NaN ->
      Matrix.entry m i j = NaN.
Proof.
  apply (mul_spreads_NaN _ _ 2 2 1); try lia;
    (split; [reflexivity | repeat constructor]).
Defined.

(* ================================================================== *)
(** * The action of a rotation on a point *)
(* ================================================================== *)

Lemma sumR_extract (n i : nat) (f : nat -> R) :
  (i < n)%nat ->
  sumR n f = (f i + sumR n (fun k => if (k =? i)%nat then 0 else f k))%R.
Proof.
  intros Hi. induction n as [|n IH]; [lia|].
  simpl. destruct (decide (i = n)) as [->|Hne].
  - rewrite Nat.eqb_refl.
    rewrite (sumR_ext n f (fun k => if (k =? n)%nat then 0%R else f k)).
    + lra.
    + intros k Hk. destruct (Nat.eqb_spec k n); [lia | reflexivity].
  - rewrite IH by lia. destruct (Nat.eqb_spec n i); [lia | lra].
Qed.

Lemma sumR_two (n i j : nat) (f : nat -> R) :
  (i < n)%nat -> (j < n)%nat -> i <> j ->
  (forall k, (k < n)%nat -> k <> i -> k <> j -> f k = 0%R) ->
  sumR n f = (f i + f j)%R.
Proof.
  intros Hi Hj Hij H0. rewrite (sumR_extract n i f Hi). f_equal.
  rewrite (sumR_single n j).
  - destruct (Nat.eqb_spec j i); [congruence | reflexivity].
  - assumption.
  - intros k Hk Hkj. destruct (Nat.eqb_spec k i); [reflexivity | auto].
Qed.

Lemma elementary_row_i (i j c : nat) (theta : R) :
  i <> j ->
  Spec.elementary i j theta i c
  = if (c =? i)%nat then Rtrigo_def.cos theta
    else if (c =? j)%nat then (- Rtrigo_def.sin theta)%R else 0%R.
Proof.
  intros Hij. unfold Spec.elementary.
  destruct (Nat.eqb_spec i i), (Nat.eqb_spec i j), (Nat.eqb_spec c i),
    (Nat.eqb_spec c j), (Nat.eqb_spec i c); simpl; try reflexivity; congruence.
Qed.

Lemma elementary_row_j (i j c : nat) (theta : R) :
  i <> j ->
  Spec.elementary i j theta j c
  = if (c =? i)%nat then Rtrigo_def.sin theta
    else if (c =? j)%nat then Rtrigo_def.cos theta else 0%R.
Proof.
  intros Hij. unfold Spec.elementary.
  destruct (Nat.eqb_spec j j), (Nat.eqb_spec j i), (Nat.eqb_spec c i),
    (Nat.eqb_spec c j), (Nat.eqb_spec j c); simpl; try reflexivity; congruence.
Qed.

Lemma elementary_row_other (i j r c : nat) (theta : R) :
  r <> i -> r <> j ->
  Spec.elementary i j theta r c = if (r =? c)%nat then 1%R else 0%R.
Proof.
  intros Hi Hj. unfold Spec.elementary.
  destruct (Nat.eqb_spec r i), (Nat.eqb_spec r j); simpl; try reflexivity;
    congruence.
Qed.

Lemma lookup_nth (p : list R) (r : nat) :
  (r < length p)%nat -> p !! r = Some (nth r p 0%R).
Proof.
  intros Hr. destruct (p !! r) as [x|] eqn:E.
  - rewrite (nth_lookup_Some p r 0%R x E). reflexivity.
  - apply lookup_ge_None in E. lia.
Qed.

Lemma rotatePlane_length (i j : nat) (theta : R) (p : list R) :
  length (Geometry.rotatePlane i j theta p) = length p.
Proof. unfold Geometry.rotatePlane. rewrite !length_insert. reflexivity. Qed.

Lemma apply_elementary (D i j : nat) (theta : R) (p : list R) :
  length p = D -> (i < D)%nat -> (j < D)%nat -> i <> j ->
  Spec.apply D (Spec.elementary i j theta) p = Geometry.rotatePlane i j theta p.
Proof.
  intros Hp Hi Hj Hij. apply list_eq. intros r.
  unfold Spec.apply, Geometry.rotatePlane. rewrite lookup_map.
  destruct (decide (r < D)%nat) as [Hr|Hr].
  - rewrite lookup_seq_lt by exact Hr. simpl.
    destruct (decide (r = j)) as [->|Hrj].
    + rewrite list_lookup_insert_eq by (rewrite length_insert; lia).
      f_equal. rewrite (sumR_two D i j); try assumption.
      2:{ intros k Hk Hki Hkj. rewrite elementary_row_j by exact Hij.
          destruct (Nat.eqb_spec k i), (Nat.eqb_spec k j); try congruence; lra. }
      rewrite !elementary_row_j by exact Hij.
      rewrite Nat.eqb_refl. destruct (Nat.eqb_spec j i); [congruence|].
      rewrite Nat.eqb_refl. reflexivity.
    + rewrite list_lookup_insert_ne by congruence.
      destruct (decide (r = i)) as [->|Hri].
      * rewrite list_lookup_insert_eq by lia.
        f_equal. rewrite (sumR_two D i j); try assumption.
        2:{ intros k Hk Hki Hkj. rewrite elementary_row_i by exact Hij.
            destruct (Nat.eqb_spec k i), (Nat.eqb_spec k j); try congruence; lra. }
        rewrite !elementary_row_i by exact Hij.
        rewrite Nat.eqb_refl. destruct (Nat.eqb_spec j i); [congruence|].
        rewrite Nat.eqb_refl. lra.
      * rewrite list_lookup_insert_ne by congruence.
        rewrite lookup_nth by lia. f_equal.
        rewrite (sumR_single D r); try assumption.
        2:{ intros k Hk Hkr. rewrite elementary_row_other by assumption.
            destruct (Nat.eqb_spec r k); [congruence | lra]. }
        rewrite elementary_row_other by assumption.
        rewrite Nat.eqb_refl. lra.
  - rewrite lookup_seq_ge by lia. simpl. symmetry.
    apply lookup_ge_None. rewrite !length_insert. lia.
Qed.

Lemma mul_rotation (D i j : nat) (theta : R) (p : list R) :
  length p = D -> (i < D)%nat -> (j < D)%nat -> i <> j ->
  Matrix.mul (Renderer.rotation D i j (Num theta)) (Point.toMatrix (map Num p))
  = Return (Point.toMatrix (map Num (Geometry.rotatePlane i j theta p))).
Proof.
  intros Hp Hi Hj Hij.
  rewrite rotation_tabulate by assumption.
  rewrite mul_real_column by (assumption || lia).
  rewrite apply_elementary by assumption. reflexivity.
Qed.

(** X4. The matrix yielded for the plane (i, j), applied to a real point
    of D coordinates, replaces the coordinate i by
    cos theta * p_i - sin theta * p_j and the coordinate j by
    sin theta * p_i + cos theta * p_j, and keeps every other coordinate. *)
Theorem rotation_acts_on_plane (D i j : nat) (theta : R) (p : list R) :
  length p = D -> (i < D)%nat -> (j < D)%nat -> i <> j ->
  exists q,
    Matrix.mul (Renderer.rotation D i j (Num theta)) (Point.toMatrix (map Num p))
    = Return (Point.toMatrix (map Num q)) /\
    length q = D /\
    q !! i = Some (Rtrigo_def.cos theta * nth i p 0
                   - Rtrigo_def.sin theta * nth j p 0)%R /\
    q !! j = Some (Rtrigo_def.sin theta * nth i p 0
                   + Rtrigo_def.cos theta * nth j p 0)%R /\
    forall k, k <> i -> k <> j -> q !! k = p !! k.
Proof.
  intros Hp Hi Hj Hij. exists (Geometry.rotatePlane i j theta p).
  split; [apply mul_rotation; assumption|].
  split; [rewrite rotatePlane_length; exact Hp|].
  unfold Geometry.rotatePlane. repeat split.
  - rewrite list_lookup_insert_ne by congruence.
    apply list_lookup_insert_eq. lia.
  - apply list_lookup_insert_eq. rewrite length_insert. lia.
  - intros k Hki Hkj. rewrite !list_lookup_insert_ne by congruence. reflexivity.
Qed.

Lemma rotation_acts_on_plane_witness :
  exists q,
    Matrix.mul (Renderer.rotation 3 0 2 (Num PI))
               (Point.toMatrix (map Num [1; 2; 3]%R))
    = Return (Point.toMatrix (map Num q)) /\
    length q = 3%nat /\
    q !! 0%nat = Some (Rtrigo_def.cos PI * nth 0 [1; 2; 3] 0
                       - Rtrigo_def.sin PI * nth 2 [1; 2; 3] 0)%R /\
    q !! 2%nat = Some (Rtrigo_def.sin PI * nth 0 [1; 2; 3] 0
                       + Rtrigo_def.cos PI * nth 2 [1; 2; 3] 0)%R /\
    forall k, k <> 0%nat -> k <> 2%nat -> q !! k = [1; 2; 3]%R !! k.
Proof.
  apply (rotation_acts_on_plane 3 0 2 PI [1; 2; 3]%R); [reflexivity | lia | lia | lia].
Defined.

(* ================================================================== *)
(** * The rotation composer at its bounds *)
(* ================================================================== *)

Lemma rotation_shape (D i j : nat) (theta : number) :
  rectangular D D (Renderer.rotation D i j theta).
Proof.
  unfold Renderer.rotation.
  rewrite init_tabulate, diagonal_tabulate, !assign_tabulate.
  apply tabulate_rectangular.
Qed.

Lemma planes_none (d : Z) : d <= 1 -> Renderer.planes d = [].
Proof.
  intros Hd. unfold Renderer.planes.
  replace (Z.to_nat (d - 1)) with 0%nat by lia. reflexivity.
Qed.

Lemma planes_first (D : nat) :
  (2 <= D)%nat -> exists rest, Spec.planes D = (0, 1)%nat :: rest.
Proof.
  intros HD. destruct D as [|[|D]]; try lia.
  unfold Spec.planes. simpl. eexists. reflexivity.
Qed.

Lemma applyRotation_Throw (G : Global.config) (theta : number) (e : exception)
    (rotations : list (number -> Matrix.matrix)) :
  fold_left (Renderer.applyRotation G theta) rotations (Throw e) = Throw e.
Proof. induction rotations as [|r rs IH]; [reflexivity | exact IH]. Qed.

Lemma mul_wrong_rows (a : Matrix.matrix) (D : nat) (p : list number) :
  (1 <= D)%nat -> rectangular D D a -> length p <> D ->
  Matrix.mul a (Point.toMatrix p)
  = Throw (if (length p =? 0)%nat then TypeError else Error Matrix.shapeMessage).
Proof.
  intros HD [Hrows Hcols] Hp. rewrite toMatrix_map.
  destruct a as [|a0 a]; [simpl in Hrows; lia|].
  apply Forall_inv in Hcols.
  destruct p as [|x p]; [reflexivity|].
  unfold Matrix.mul. simpl map. cbv zeta. rewrite Hcols, Hrows.
  assert (E : length ([x] :: map (fun x0 : number => [x0]) p) = length (x :: p))
    by (simpl; rewrite length_map; reflexivity).
  rewrite !E.
  destruct (Nat.eqb_spec D 0); [lia|].
  destruct (Nat.eqb_spec D (length (x :: p))); [congruence|].
  reflexivity.
Qed.

(** X7. Below two dimensions there is no rotation plane, and the
    composer returns every point as it is, whatever its length and
    coordinates. *)
Theorem transform_without_planes (G : Global.config) (t : number)
    (p : list number) :
  Global.DIMENSIONS G <= 1 ->
  Renderer.rotationsGenerator (Global.DIMENSIONS G) = [] /\
  Renderer.transformPoint G t p = Return p.
Proof.
  intros Hd.
  assert (H : Renderer.rotationsGenerator (Global.DIMENSIONS G) = []).
  { unfold Renderer.rotationsGenerator. rewrite planes_none by exact Hd.
    reflexivity. }
  split; [exact H|].
  unfold Renderer.transformPoint. rewrite H. simpl.
  rewrite toPoint_toMatrix. reflexivity.
Qed.

Lemma transform_without_planes_witness :
  Renderer.transformPoint
    {| Global.DIMENSIONS := 1; Global.PROJECTION := Global.ORTHOGRAPHIC;
       Global.SPEED := Num 30; Global.SIZE := Num 300;
       Global.ROTATION_OFFSET := Num 1; Global.FAR_CLIPPING_PLANE := Num 1000 |}
    (Num 2) [Num 150; NaN]
  = Return [Num 150; NaN].
Proof.
  apply transform_without_planes. simpl. lia.
Defined.

(** X8. With D >= 2 dimensions configured, a point whose length is not D
    is rejected by the very first rotation: the empty point with a
    TypeError, any other with the error of mismatched matrix sizes. *)
Theorem transform_rejects_wrong_length (G : Global.config) (D : nat)
    (t : number) (p : list number) :
  (2 <= D)%nat -> Global.DIMENSIONS G = Z.of_nat D -> length p <> D ->
  Renderer.transformPoint G t p
  = Throw (if (length p =? 0)%nat then TypeError
           else Error Matrix.shapeMessage).
Proof.
  intros HD HG Hp. unfold Renderer.transformPoint, Renderer.rotationsGenerator.
  rewrite HG, planes_spec, Nat2Z.id.
  destruct (planes_first D HD) as [rest ->].
  simpl map. simpl fold_left.
  assert (E : forall theta,
            Matrix.mul (Renderer.rotation D 0 1 theta) (Point.toMatrix p)
            = Throw (if (length p =? 0)%nat then TypeError
                     else Error Matrix.shapeMessage)).
  { intros theta. apply (mul_wrong_rows _ D); [lia | apply rotation_shape | exact Hp]. }
  destruct (truthy (Global.ROTATION_OFFSET G)); rewrite E; simpl;
    rewrite applyRotation_Throw; reflexivity.
Qed.

Lemma transform_rejects_wrong_length_witness :
  Renderer.transformPoint Global.defaults (Num 2) [Num 1; Num 2; Num 3]
  = Throw (Error Matrix.shapeMessage).
Proof.
  apply (transform_rejects_wrong_length Global.defaults 5 (Num 2)
           [Num 1; Num 2; Num 3]); [lia | reflexivity | simpl; lia].
Defined.

(* ================================================================== *)
(** * The projector on arbitrary points *)
(* ================================================================== *)

Lemma projectionStep_shape (G : Global.config) (i : nat) (w : list number) :
  (1 <= length w)%nat ->
  exists q, Renderer.projectionStep G (length w) i w = Return q /\
            length q = length w.
Proof.
  intros Hw. unfold Renderer.projectionStep.
  rewrite init_tabulate, diagonal_tabulate.
  rewrite (mul_rectangular _ _ (length w) (length w) 1);
    [| lia | lia | lia | apply tabulate_rectangular | apply toMatrix_rectangular].
  eexists. split; [reflexivity|].
  unfold Matrix.toPoint, tabulate. rewrite !length_map, length_seq. reflexivity.
Qed.

Lemma projectionLoop_shape (G : Global.config) (len : nat) :
  forall (i : nat) (w : list number),
  length w = len -> (i <= len - 1)%nat ->
  exists q, Renderer.projectionLoop G len i w = Return q /\ length q = len.
Proof.
  induction i as [|i IH]; intros w Hw Hi; simpl.
  - exists w. split; [reflexivity | exact Hw].
  - destruct i as [|i']; [exists w; split; [reflexivity | exact Hw]|].
    change (1 <? S (S i'))%nat with true. cbv iota.
    destruct (projectionStep_shape G (S (S i')) w ltac:(lia)) as (q & Hq & Hql).
    rewrite <- Hw in *. rewrite Hq. simpl.
    apply IH; [exact Hql | lia].
Qed.

(** X9. The projector never fails: every point, whatever its
    coordinates, is returned as a point of the same length, and a point
    of at most two coordinates is returned as it is. *)
Theorem projection_never_fails (G : Global.config) (p : list number) :
  (exists q, Renderer.projectPoint G p = Return q /\ length q = length p) /\
  ((length p <= 2)%nat -> Renderer.projectPoint G p = Return p).
Proof.
  split.
  - apply projectionLoop_shape; [reflexivity | lia].
  - intros Hp. unfold Renderer.projectPoint.
    destruct p as [|x [|y [|z p]]]; try reflexivity. simpl in Hp. lia.
Qed.

Lemma projection_never_fails_witness :
  Renderer.projectPoint Global.defaults [NaN; Num 1000]
  = Return [NaN; Num 1000].
Proof.
  apply (proj2 (projection_never_fails Global.defaults [NaN; Num 1000])).
  simpl. lia.
Defined.

(* ================================================================== *)
(** * The projector of the earlier module *)
(* ================================================================== *)

(** X11. The projector of the earlier module, which builds an i x i
    matrix for the axis i, fails on every point of at least three
    coordinates with the error of mismatched matrix sizes, and returns a
    point of at most two coordinates as it is; its generator therefore
    fails on the vertices of every cube of dimension three or more. *)
Theorem earlier_projection_fails (G : Global.config) :
  (forall w : list number, (3 <= length w)%nat ->
     EarlierRenderer.projectPoint G w = Throw (Error Matrix.shapeMessage)) /\
  (forall w : list number, (length w <= 2)%nat ->
     EarlierRenderer.projectPoint G w = Return w) /\
  (forall (D : nat) (size : number), (3 <= D)%nat ->
     EarlierRenderer.projectionGenerator G
       (Renderer.cubePointsGenerator (Z.of_nat D) size)
     = Throw (Error Matrix.shapeMessage)).
Proof.
  assert (H3 : forall w : list number, (3 <= length w)%nat ->
     EarlierRenderer.projectPoint G w = Throw (Error Matrix.shapeMessage)).
  { intros w Hw. unfold EarlierRenderer.projectPoint.
    destruct (length w - 1)%nat as [|[|i]] eqn:E; try lia.
    simpl EarlierRenderer.projectionLoop.
    change (1 <? S (S i))%nat with true. cbv iota.
    rewrite <- E, earlier_projection_throws by exact Hw. reflexivity. }
  split; [exact H3|]. split.
  - intros w Hw. destruct w as [|x [|y [|z w]]]; try reflexivity.
    simpl in Hw. lia.
  - intros D size HD. rewrite cubePoints_binary.
    pose proof (binaryPoints_length D) as Hlen.
    pose proof (binaryPoints_uniform D ltac:(lia)) as Hu.
    destruct (binaryPoints D) as [|w ws] eqn:E.
    + simpl in Hlen. pose proof (Nat.pow_nonzero 2 D). lia.
    + unfold EarlierRenderer.projectionGenerator. cbn [map forEach].
      rewrite H3; [reflexivity|].
      rewrite length_map. apply Forall_inv in Hu. lia.
Qed.

Lemma earlier_projection_fails_witness :
  EarlierRenderer.projectPoint Global.defaults [Num 1; Num 1; Num 1]
  = Throw (Error Matrix.shapeMessage).
Proof.
  apply (proj1 (earlier_projection_fails Global.defaults)). simpl. lia.
Defined.

(* ================================================================== *)
(** * The shape of the vertex set *)
(* ================================================================== *)

Lemma flip_digit (b : bool) : Geometry.flip (digit b) = digit (negb b).
Proof. destruct b; reflexivity. Qed.

Lemma half_double (i : nat) :
  i = (2 * (i / 2) + (if Nat.odd i then 1 else 0))%nat.
Proof.
  rewrite (Nat.div_mod_eq i 2) at 1. f_equal.
  rewrite <- Nat.bit0_mod. unfold Nat.testbit. destruct (Nat.odd i); reflexivity.
Qed.

Lemma binaryPoint_opposite (D : nat) :
  (1 <= D)%nat -> forall i, (i < 2 ^ D)%nat ->
  binaryPoint D (2 ^ D - 1 - i) = map Geometry.flip (binaryPoint D i).
Proof.
  induction D as [|D IH]; [lia|]. intros _ i Hi.
  destruct (decide (D = 0%nat)) as [->|HD].
  { simpl in Hi. destruct i as [|[|i]]; try lia; reflexivity. }
  rewrite (half_double i) at 2.
  assert (Hq : (i / 2 < 2 ^ D)%nat).
  { apply Nat.Div0.div_lt_upper_bound. simpl in Hi. lia. }
  replace (2 ^ S D - 1 - i)%nat
    with (2 * (2 ^ D - 1 - i / 2) + (if negb (Nat.odd i) then 1 else 0))%nat.
  2:{ pose proof (half_double i) as E. simpl Nat.pow.
      destruct (Nat.odd i); cbn [negb] in *; lia. }
  rewrite !binaryPoint_snoc by lia.
  rewrite IH by lia. rewrite map_app. simpl. rewrite flip_digit. reflexivity.
Qed.

Lemma realCoordinate_flip (s : R) (c : ascii) :
  isDigit c ->
  realCoordinate s (Geometry.flip c) = (- realCoordinate s c)%R.
Proof. intros [-> | ->]; unfold realCoordinate; simpl; lra. Qed.

(** X12. The cube is centred at the origin: for D >= 1 the vertex of
    index 2^D - 1 - i is the opposite of the vertex of index i. *)
Theorem cube_is_centred (D : nat) (s : R) (i : nat) :
  (1 <= D)%nat -> (i < 2 ^ D)%nat ->
  exists p,
    Renderer.cubePointsGenerator (Z.of_nat D) (Num s) !! i
      = Some (map Num p) /\
    Renderer.cubePointsGenerator (Z.of_nat D) (Num s) !! (2 ^ D - 1 - i)%nat
      = Some (map Num (map Ropp p)).
Proof.
  intros HD Hi. exists (map (realCoordinate s) (binaryPoint D i)). split.
  - apply cubePoints_lookup. exact Hi.
  - rewrite cubePoints_lookup by lia.
    rewrite binaryPoint_opposite by assumption.
    do 2 f_equal. rewrite !map_map.
    destruct (binaryPoint_shape D i HD Hi) as [_ Hdig].
    induction Hdig as [|c w Hc _ IHw]; [reflexivity|].
    simpl. rewrite realCoordinate_flip by exact Hc. f_equal. exact IHw.
Qed.

Lemma cube_is_centred_witness :
  exists p,
    Renderer.cubePointsGenerator (Z.of_nat 3) (Num 2) !! 1%nat
      = Some (map Num p) /\
    Renderer.cubePointsGenerator (Z.of_nat 3) (Num 2) !! (2 ^ 3 - 1 - 1)%nat
      = Some (map Num (map Ropp p)).
Proof.
  apply (cube_is_centred 3 2 1); [lia | simpl; lia].
Defined.

Lemma normSq_digits (s : R) (w : list ascii) :
  Forall isDigit w ->
  Geometry.normSq (map (realCoordinate s) w)
  = (INR (length w) * (s / 2) * (s / 2))%R.
Proof.
  induction 1 as [|c w Hc _ IH].
  - simpl. lra.
  - change (length (c :: w)) with (S (length w)). rewrite S_INR.
    simpl. rewrite IH.
    destruct Hc as [-> | ->]; unfold realCoordinate; simpl; lra.
Qed.

(** X13. Every vertex of the cube of dimension D >= 1 and size s lies at
    the same distance from the origin: the square of its norm is
    D * (s/2)^2. *)
Theorem vertices_on_a_sphere (D : nat) (s : R) (i : nat) :
  (1 <= D)%nat -> (i < 2 ^ D)%nat ->
  exists p,
    Renderer.cubePointsGenerator (Z.of_nat D) (Num s) !! i
      = Some (map Num p) /\
    length p = D /\
    Geometry.normSq p = (INR D * (s / 2) * (s / 2))%R.
Proof.
  intros HD Hi. exists (map (realCoordinate s) (binaryPoint D i)).
  destruct (binaryPoint_shape D i HD Hi) as [Hlen Hdig].
  split; [apply cubePoints_lookup; exact Hi|].
  split; [rewrite length_map; exact Hlen|].
  rewrite normSq_digits by exact Hdig. rewrite Hlen. reflexivity.
Qed.

Lemma vertices_on_a_sphere_witness :
  exists p,
    Renderer.cubePointsGenerator (Z.of_nat 3) (Num 2) !! 5%nat
      = Some (map Num p) /\
    length p = 3%nat /\
    Geometry.normSq p = (INR 3 * (2 / 2) * (2 / 2))%R.
Proof.
  apply (vertices_on_a_sphere 3 2 5); [lia | simpl; lia].
Defined.

(** X14. For every dimension D >= 0 and every size, the generator
    yields 2^D points that all have max(D, 1) coordinates: at D = 0 the
    single point has one coordinate, not none. *)
Theorem cube_points_shape (D : nat) (size : number) :
  length (Renderer.cubePointsGenerator (Z.of_nat D) size) = (2 ^ D)%nat /\
  Forall (fun p => length p = Nat.max D 1)
         (Renderer.cubePointsGenerator (Z.of_nat D) size).
Proof.
  rewrite cubePoints_binary. split.
  - rewrite length_map. apply binaryPoints_length.
  - destruct D as [|D].
    + repeat constructor.
    + apply Forall_map.
      eapply List.Forall_impl; [|apply (binaryPoints_uniform (S D)); lia].
      intros w Hw. rewrite length_map, Hw. lia.
Qed.

(* ================================================================== *)
(** * The points of a frame *)
(* ================================================================== *)

Lemma flat_map_imap_index {X Y} (h : nat -> X -> Y) (l : list X) :
  forall g : nat -> nat,
  flat_map (fun '(n, x) => [h n x]) (imap (fun n x => (g n, x)) l)
  = imap (fun n x => h (g n) x) l.
Proof.
  induction l as [|x l IH]; intros g; [reflexivity|].
  rewrite !imap_cons. simpl. f_equal. apply (IH (g ∘ S)).
Qed.

Lemma transformGenerator_real (G : Global.config) (D : nat) (v o : R)
    (elapsed : nat -> R) (ps : list (list R)) :
  (2 <= D)%nat ->
  Global.DIMENSIONS G = Z.of_nat D ->
  Global.SPEED G = Num v ->
  Global.ROTATION_OFFSET G = Num o ->
  Forall (fun p => length p = D) ps ->
  Renderer.transformGenerator G (fun n => Num (elapsed n)) (map (map Num) ps)
  = Return (imap (fun n p => map Num (Spec.rotated D v (elapsed n) o p)) ps).
Proof.
  intros HD HG Hv Ho Hps. unfold Renderer.transformGenerator.
  rewrite (imap_pair_map (map Num) (fun n => n)), forEach_map.
  rewrite (forEach_pure _
             (fun '(n, p) => [map Num (Spec.rotated D v (elapsed n) o p)])).
  - rewrite (flat_map_imap_index
               (fun n p => map Num (Spec.rotated D v (elapsed n) o p)) ps
               (fun n => n)).
    reflexivity.
  - intros [n p] Hin. apply In_imap_pair in Hin.
    rewrite Forall_lookup in Hps.
    rewrite (transformPoint_real G D v (elapsed n) o p)
      by (try assumption; eapply Hps; exact Hin).
    reflexivity.
Qed.

Lemma forEach_singletons {X Y} (body : X -> outcome Y) (P : X -> Y -> Prop)
    (xs : list X) :
  (forall x, In x xs -> exists y, body x = Return y /\ P x y) ->
  exists ys,
    forEach (fun x => y ← body x; Return [y]) xs = Return ys /\
    Forall2 P xs ys.
Proof.
  induction xs as [|x xs IH]; intros H.
  - exists []. split; [reflexivity | constructor].
  - destruct (H x (or_introl eq_refl)) as (y & Hy & HP).
    destruct (IH (fun x' Hx' => H x' (or_intror Hx'))) as (ys & Hys & HF).
    exists (y :: ys). split; [|constructor; assumption].
    simpl. rewrite Hy. simpl. rewrite Hys. reflexivity.
Qed.

Lemma rotations_length (D : nat) (angle : nat -> R)
    (ps : list (nat * (nat * nat))) :
  forall v, length v = D ->
  length (fold_left (fun v '(k, (i, j)) =>
                       Spec.apply D (Spec.elementary i j (angle k)) v) ps v)
  = D.
Proof.
  induction ps as [|[k [i j]] ps IH]; intros v Hv; [exact Hv|].
  cbn [fold_left]. apply IH. apply apply_length.
Qed.

Lemma realPoints_uniform (D : nat) (s : R) :
  (1 <= D)%nat -> Forall (fun p => length p = D) (realPoints D s).
Proof.
  intros HD. unfold realPoints. apply Forall_map.
  eapply List.Forall_impl; [|apply (binaryPoints_uniform D HD)].
  intros w Hw. rewrite length_map. exact Hw.
Qed.

(** X15. With D >= 2 and real settings, the points that a frame hands to
    the drawing functions are always produced, in both projection modes:
    2^D points of D coordinates, and in orthographic mode the very
    points returned by the rotation composer. *)
Theorem frame_of_the_cube (G : Global.config) (D : nat) (s v o : R)
    (elapsed : nat -> R) :
  (2 <= D)%nat ->
  Global.DIMENSIONS G = Z.of_nat D ->
  Global.SPEED G = Num v ->
  Global.ROTATION_OFFSET G = Num o ->
  exists points,
    Renderer.framePoints G (fun n => Num (elapsed n))
      (Renderer.cubePointsGenerator (Z.of_nat D) (Num s)) = Return points /\
    length points = (2 ^ D)%nat /\
    Forall (fun q => length q = D) points /\
    (Global.PROJECTION G = Global.ORTHOGRAPHIC ->
     Renderer.transformGenerator G (fun n => Num (elapsed n))
       (Renderer.cubePointsGenerator (Z.of_nat D) (Num s)) = Return points).
Proof.
  intros HD HG Hv Ho. unfold Renderer.framePoints.
  rewrite cubePoints_real.
  pose proof (realPoints_uniform D s ltac:(lia)) as Hshape.
  rewrite (transformGenerator_real G D v o elapsed) by assumption.
  set (rotated := imap (fun n p => map Num (Spec.rotated D v (elapsed n) o p))
                       (realPoints D s)).
  assert (Hlen : length rotated = (2 ^ D)%nat).
  { unfold rotated, realPoints. rewrite length_imap, length_map.
    apply binaryPoints_length. }
  assert (Hrot : Forall (fun q => length q = D) rotated).
  { apply Forall_lookup. intros n q Hq. unfold rotated in Hq.
    rewrite list_lookup_imap in Hq.
    destruct (realPoints D s !! n) as [p|] eqn:Ep; [|discriminate].
    injection Hq as <-.
    rewrite Forall_lookup in Hshape. rewrite length_map.
    unfold Spec.rotated. apply rotations_length. exact (Hshape n p Ep). }
  change (exists points,
    match Global.PROJECTION G with
    | Global.PERSPECTIVE => Renderer.projectionGenerator G rotated
    | Global.ORTHOGRAPHIC => Return rotated
    end = Return points /\
    length points = (2 ^ D)%nat /\
    Forall (fun q => length q = D) points /\
    (Global.PROJECTION G = Global.ORTHOGRAPHIC -> Return rotated = Return points)).
  destruct (Global.PROJECTION G).
  - destruct (forEach_singletons (Renderer.projectPoint G)
                (fun p q => length q = length p) rotated) as (points & Hpts & HF).
    { intros p _. apply projection_never_fails. }
    exists points. split; [exact Hpts|].
    split; [rewrite <- (Forall2_length _ _ _ HF); exact Hlen|].
    split; [|discriminate].
    eapply Forall2_Forall_r; [exact HF|].
    eapply List.Forall_impl; [|exact Hrot].
    intros q Hq y Hy. rewrite Hy. exact Hq.
  - exists rotated. split; [reflexivity|]. split; [exact Hlen|].
    split; [exact Hrot | reflexivity].
Qed.

Lemma frame_of_the_cube_witness :
  exists points,
    Renderer.framePoints Global.defaults (fun n => Num (INR n))
      (Renderer.cubePointsGenerator (Z.of_nat 5) (Num 300)) = Return points /\
    length points = (2 ^ 5)%nat.
Proof.
  destruct (frame_of_the_cube Global.defaults 5 300 30 1 INR
              ltac:(lia) eq_refl eq_refl eq_refl) as (points & H & Hlen & _).
  exists points. split; [exact H | exact Hlen].
Defined.

(* ================================================================== *)
(** * The edge generator on arbitrary points *)
(* ================================================================== *)

Lemma forEach_throws {X Y} (body : X -> outcome (list Y)) (xs : list X) :
  (forall x, In x xs -> body x <> OutOfFuel) ->
  (exists x, In x xs /\ throws (body x) = true) ->
  throws (forEach body xs) = true.
Proof.
  induction xs as [|x xs IH]; intros Hfuel [x0 [Hin Hx0]]; [destruct Hin|].
  simpl. destruct (body x) as [ys| e |] eqn:E.
  - simpl. destruct Hin as [<- | Hin]; [rewrite E in Hx0; discriminate|].
    assert (H : throws (forEach body xs) = true).
    { apply IH; [intros x' Hx'; apply Hfuel; right; exact Hx'|].
      exists x0. split; assumption. }
    destruct (forEach body xs); try discriminate. reflexivity.
  - reflexivity.
  - exfalso. apply (Hfuel x); [left; reflexivity | exact E].
Qed.

Lemma forEach_fuel {X Y} (body : X -> outcome (list Y)) (xs : list X) :
  (forall x, In x xs -> body x <> OutOfFuel) ->
  forEach body xs <> OutOfFuel.
Proof.
  induction xs as [|x xs IH]; intros H; [discriminate|].
  simpl. pose proof (H x (or_introl eq_refl)) as Hx.
  destruct (body x); [|discriminate|congruence].
  simpl. pose proof (IH (fun x' Hx' => H x' (or_intror Hx'))) as Hxs.
  destruct (forEach body xs); [discriminate|discriminate|congruence].
Qed.

Lemma edge_body_fuel {A} (eq : A -> A -> bool) (d : Z) (i j : nat)
    (a b : list A) :
  (if (i =? j)%nat then Return []
   else if negb (length a =? length b)%nat
   then Throw (Error Renderer.lengthMessage)
   else
     m ← Renderer.matches eq a b;
     if negb (Z.of_nat m =? d - 1) then Return []
     else Return [(i, j)]) <> OutOfFuel.
Proof.
  destruct (i =? j)%nat; [discriminate|].
  destruct (negb (length a =? length b)%nat); [discriminate|].
  unfold Renderer.matches, Renderer.reduceSum.
  destruct (imap _ a); simpl; [discriminate|].
  destruct (negb _); discriminate.
Qed.

Lemma edgeGenerator_few {A} (eq : A -> A -> bool) (d : Z)
    (points : list (list A)) :
  (length points <= 1)%nat -> Renderer.edgeGenerator eq d points = Return [].
Proof.
  intros H. destruct points as [|p [|q points]]; try reflexivity.
  simpl in H. lia.
Qed.

Lemma edgeGenerator_throws {A} (eq : A -> A -> bool) (d : Z)
    (p0 : list A) (points : list (list A)) (j : nat) (b : list A) :
  (p0 :: points) !! j = Some b -> j <> 0%nat ->
  (length b <> length p0 \/ p0 = [] /\ b = []) ->
  throws (Renderer.edgeGenerator eq d (p0 :: points)) = true.
Proof.
  intros Hj Hj0 Hb. unfold Renderer.edgeGenerator.
  unfold Renderer.entries at 2. rewrite imap_cons.
  cbn [forEach].
  assert (H : throws
            (forEach (fun '(j, b) =>
               if (0 =? j)%nat then Return []
               else if negb (length p0 =? length b)%nat
               then Throw (Error Renderer.lengthMessage)
               else
                 m ← Renderer.matches eq p0 b;
                 if negb (Z.of_nat m =? d - 1) then Return []
                 else Return [(0%nat, j)])
               (Renderer.entries (p0 :: points))) = true).
  { apply forEach_throws.
    - intros [j' b'] _. apply edge_body_fuel.
    - exists (j, b). split; [apply entries_In; exact Hj|].
      destruct (Nat.eqb_spec 0 j); [congruence|].
      destruct Hb as [Hb | [-> ->]].
      + destruct (Nat.eqb_spec (length p0) (length b)); [congruence|].
        reflexivity.
      + reflexivity. }
  destruct (forEach _ (Renderer.entries (p0 :: points))); try discriminate.
  reflexivity.
Qed.

(** X16. The edge generator, given points that are distinct arrays (as
    those of the vertex generator are), fails exactly when there are at
    least two of them and they do not all have one and the same non-zero
    length: points of different lengths, or empty points; on every other
    input it returns its list of pairs. *)
Theorem edgeGenerator_fails_iff {A : Type} (eq : A -> A -> bool) (d : Z)
    (points : list (list A)) :
  (throws (Renderer.edgeGenerator eq d points) = true <->
   (2 <= length points)%nat /\
   ~ exists n, (1 <= n)%nat /\ Forall (fun p => length p = n) points) /\
  returns (Renderer.edgeGenerator eq d points)
  = negb (throws (Renderer.edgeGenerator eq d points)).
Proof.
  assert (Hiff : throws (Renderer.edgeGenerator eq d points) = true <->
   (2 <= length points)%nat /\
   ~ exists n, (1 <= n)%nat /\ Forall (fun p => length p = n) points).
  { split.
    - intros H. split.
      + destruct (le_lt_dec 2 (length points)) as [|Hlt]; [assumption|].
        rewrite edgeGenerator_few in H by lia. discriminate.
      + intros (n & Hn & Hu).
        rewrite (edgeGenerator_pure eq d n) in H by assumption. discriminate.
    - intros [Hlen Hnot].
      destruct points as [|p0 points]; [simpl in Hlen; lia|].
      destruct (Forall_Exists_dec (fun p : list A => length p = length p0)
                  (fun p => length p <> length p0)
                  (fun p => Nat.eq_dec (length p) (length p0))
                  (p0 :: points)) as [Hu | He].
      + destruct points as [|p1 points]; [simpl in Hlen; lia|].
        destruct p0 as [|x p0].
        * apply (edgeGenerator_throws eq d [] (p1 :: points) 1 p1);
            [reflexivity | lia |].
          right. split; [reflexivity|].
          apply Forall_inv_tail, Forall_inv in Hu.
          destruct p1; [reflexivity | discriminate].
        * exfalso. apply Hnot. exists (length (x :: p0)).
          split; [simpl; lia | exact Hu].
      + apply List.Exists_exists in He. destruct He as (b & Hin & Hb).
        apply list_elem_of_In, list_elem_of_lookup_1 in Hin.
        destruct Hin as [j Hj].
        apply (edgeGenerator_throws eq d p0 points j b); [exact Hj | | left; exact Hb].
        intros ->. simpl in Hj. injection Hj as <-. congruence. }
  split; [exact Hiff|].
  destruct (Renderer.edgeGenerator eq d points) as [es|e|] eqn:E; try reflexivity.
  exfalso. revert E. apply forEach_fuel. intros [i a] _.
  apply forEach_fuel. intros [j b] _. apply edge_body_fuel.
Qed.

Lemma edgeGenerator_fails_iff_witness :
  throws (Renderer.edgeGenerator JS.strictEq 2 [[Num 1; Num 2]; [Num 1]]) = true.
Proof.
  apply (proj1 (edgeGenerator_fails_iff JS.strictEq 2 [[Num 1; Num 2]; [Num 1]])).
  split; [simpl; lia|].
  intros (n & _ & H).
  pose proof (Forall_inv H) as H1.
  pose proof (Forall_inv (Forall_inv_tail H)) as H2.
  simpl in H1, H2. lia.
Defined.

(* ================================================================== *)
(** * The edge generator of the earlier module *)
(* ================================================================== *)

Lemma agree_nil_r {A} (eq : A -> A -> bool) (a : list A) : agree eq a [] = 0%nat.
Proof. destruct a; reflexivity. Qed.

Lemma countMatches_fold {A} (eq : A -> A -> bool) (a : list A) :
  forall (b : list A) (n acc : nat),
  fold_left
    (fun matches '(k, ak) =>
       if match b !! k with Some bk => eq ak bk | None => false end
       then S matches else matches)
    (imap (fun k ak => ((n + k)%nat, ak)) a) acc
  = (acc + agree eq a (drop n b))%nat.
Proof.
  induction a as [|x a IH]; intros b n acc.
  - simpl. lia.
  - rewrite imap_cons. cbn [fold_left].
    rewrite (imap_ext _ (fun k ak => ((S n + k)%nat, ak)))
      by (intros k y _; unfold compose; f_equal; lia).
    rewrite IH. rewrite Nat.add_0_r.
    destruct (b !! n) as [y|] eqn:E.
    + rewrite (drop_S b y n E). simpl. destruct (eq x y); lia.
    + apply lookup_ge_None in E.
      rewrite !drop_ge by lia. rewrite agree_nil_r. simpl. lia.
Qed.

Lemma countMatches_agree {A} (eq : A -> A -> bool) (a b : list A) :
  EarlierGenerators.countMatches eq a b = agree eq a b.
Proof.
  unfold EarlierGenerators.countMatches.
  exact (countMatches_fold eq a b 0 0).
Qed.

(** X17. The edge generator of the earlier module, which counts the
    shared coordinates in a loop instead of by map and reduce, yields
    what the generator of renderer.js yields whenever no point is empty;
    and unlike it, it returns on points that all have the same length
    even when that length is zero. *)
Theorem earlier_edgeGenerator_agrees {A : Type} (eq : A -> A -> bool) (d : Z)
    (points : list (list A)) :
  (Forall (fun p => p <> []) points ->
   EarlierGenerators.edgeGenerator eq d points
   = Renderer.edgeGenerator eq d points) /\
  (forall n, Forall (fun p => length p = n) points ->
   EarlierGenerators.edgeGenerator eq d points
   = Return (edgesOf eq d points)).
Proof.
  split.
  - intros Hne. unfold EarlierGenerators.edgeGenerator, Renderer.edgeGenerator.
    apply forEach_ext_in. intros [i a] Hi.
    apply forEach_ext_in. intros [j b] Hj.
    destruct (i =? j)%nat; [reflexivity|].
    destruct (negb (length a =? length b)%nat); [reflexivity|].
    rewrite countMatches_agree.
    rewrite matches_agree; [reflexivity|].
    apply entries_In in Hi. rewrite Forall_lookup in Hne.
    exact (Hne i a Hi).
  - intros n Hu. unfold EarlierGenerators.edgeGenerator, edgesOf.
    apply forEach_pure. intros [i a] Hi.
    apply forEach_pure. intros [j b] Hj.
    destruct (i =? j)%nat; [reflexivity|].
    apply entries_In in Hi, Hj. rewrite Forall_lookup in Hu.
    rewrite (Hu i a Hi), (Hu j b Hj), Nat.eqb_refl. simpl.
    rewrite countMatches_agree.
    destruct (negb _); reflexivity.
Qed.

Lemma earlier_edgeGenerator_agrees_witness :
  EarlierGenerators.edgeGenerator Ascii.eqb 2 (binaryPoints 2)
  = Renderer.edgeGenerator Ascii.eqb 2 (binaryPoints 2).
Proof.
  apply (proj1 (earlier_edgeGenerator_agrees Ascii.eqb 2 (binaryPoints 2))).
  repeat constructor; discriminate.
Defined.

(* ================================================================== *)
(** * The edges of arbitrary points *)
(* ================================================================== *)

Lemma strictEq_sym (x y : number) : JS.strictEq x y = JS.strictEq y x.
Proof.
  destruct x as [x|], y as [y|]; simpl; try reflexivity.
  destruct (Req_dec_T x y), (Req_dec_T y x); congruence.
Qed.

Lemma agree_sym_gen {A} (eq : A -> A -> bool) (v w : list A) :
  (forall x y, eq x y = eq y x) -> agree eq v w = agree eq w v.
Proof.
  intros Hsym. revert w. induction v as [|x v IH]; intros [|y w];
    simpl; try reflexivity.
  rewrite (Hsym x y), IH. reflexivity.
Qed.

(** X18. On any list of points of numbers (distinct arrays) that all
    have the same non-zero length, not only on the vertices of a cube,
    the edge generator returns a list without repetition of pairs of
    distinct valid indices, and with every pair (i, j) it holds the pair
    (j, i). *)
Theorem edges_of_any_points (d : Z) (n : nat) (points : list (list number)) :
  (1 <= n)%nat -> Forall (fun p => length p = n) points ->
  exists es,
    Renderer.edgeGenerator JS.strictEq d points = Return es /\
    List.NoDup es /\
    forall i j, In (i, j) es ->
      i <> j /\ (i < length points)%nat /\ (j < length points)%nat /\
      In (j, i) es.
Proof.
  intros Hn Hu. exists (edgesOf JS.strictEq d points).
  split; [apply (edgeGenerator_pure _ d n); assumption|].
  split; [apply edgesOf_NoDup|].
  intros i j Hin. apply edgesOf_In in Hin.
  destruct Hin as (a & b & Ha & Hb & Hij & Hag).
  split; [exact Hij|].
  split; [eapply lookup_lt_Some; exact Ha|].
  split; [eapply lookup_lt_Some; exact Hb|].
  apply edgesOf_In. exists b, a.
  split; [exact Hb|]. split; [exact Ha|]. split; [congruence|].
  rewrite (agree_sym_gen JS.strictEq b a strictEq_sym). exact Hag.
Qed.

Lemma edges_of_any_points_witness :
  exists es,
    Renderer.edgeGenerator JS.strictEq 2
      [[Num 0; Num 0]; [Num 0; Num 1]; [Num 5; Num 1]] = Return es /\
    List.NoDup es.
Proof.
  destruct (edges_of_any_points 2 2
              [[Num 0; Num 0]; [Num 0; Num 1]; [Num 5; Num 1]]
              ltac:(lia) ltac:(repeat constructor)) as (es & H & Hnd & _).
  exists es. split; [exact H | exact Hnd].
Defined.

(* ================================================================== *)
(** * The order of the keys *)
(* ================================================================== *)

Lemma string_compare_refl (s : string) : (s ?= s)%string = Eq.
Proof.
  induction s as [|c s IH]; [reflexivity|].
  simpl. unfold Ascii.compare. rewrite N.compare_refl. exact IH.
Qed.

Lemma ascii_lt_trans (a b c : ascii) :
  (a ?= b)%char = Lt -> (b ?= c)%char = Lt -> (a ?= c)%char = Lt.
Proof.
  unfold Ascii.compare. rewrite !N.compare_lt_iff. lia.
Qed.

Lemma string_lt_trans (a : string) :
  forall b c : string,
  (a ?= b)%string = Lt -> (b ?= c)%string = Lt -> (a ?= c)%string = Lt.
Proof.
  induction a as [|x a IH]; intros [|y b] [|z c]; simpl;
    try discriminate; try reflexivity.
  destruct (x ?= y)%char eqn:E1; try discriminate;
    destruct (y ?= z)%char eqn:E2; try discriminate; intros H1 H2.
  - apply Ascii.compare_eq_iff in E1, E2. subst.
    unfold Ascii.compare. rewrite N.compare_refl. eapply IH; eassumption.
  - apply Ascii.compare_eq_iff in E1. subst. rewrite E2. reflexivity.
  - apply Ascii.compare_eq_iff in E2. subst. rewrite E1. reflexivity.
  - rewrite (ascii_lt_trans x y z E1 E2). reflexivity.
Qed.

Lemma stringGe_false (i j : string) :
  stringGe i j = false <-> (i ?= j)%string = Lt.
Proof.
  unfold stringGe, String.leb. rewrite (String.compare_antisym i j).
  destruct (j ?= i)%string; simpl; split; congruence.
Qed.

Lemma stringGe_trans (i j k : string) :
  stringGe i j = false -> stringGe j k = false -> stringGe i k = false.
Proof.
  rewrite !stringGe_false. apply string_lt_trans.
Qed.

Lemma stringGe_neq (i j : nat) : stringGe (key i) (key j) = false -> i <> j.
Proof.
  intros H ->. apply stringGe_false in H.
  rewrite string_compare_refl in H. discriminate.
Qed.

Lemma keys_ascending (i j k l : nat) :
  stringGe (key i) (key j) = false ->
  stringGe (key j) (key k) = false ->
  stringGe (key k) (key l) = false ->
  List.NoDup [i; j; k; l] /\
  stringGe (key i) (key k) = false /\
  stringGe (key i) (key l) = false /\
  stringGe (key j) (key l) = false.
Proof.
  intros Hij Hjk Hkl.
  pose proof (stringGe_trans _ _ _ Hij Hjk) as Hik.
  pose proof (stringGe_trans _ _ _ Hik Hkl) as Hil.
  pose proof (stringGe_trans _ _ _ Hjk Hkl) as Hjl.
  split; [|auto].
  apply stringGe_neq in Hij, Hjk, Hkl, Hik, Hil, Hjl.
  repeat constructor; simpl; intuition congruence.
Qed.

(* ================================================================== *)
(** * The face generator in every dimension *)
(* ================================================================== *)

Lemma forEach_Forall {X Y} (body : X -> outcome (list Y)) (P : Y -> Prop)
    (xs : list X) :
  (forall x, In x xs -> exists ys, body x = Return ys /\ Forall P ys) ->
  exists zs, forEach body xs = Return zs /\ Forall P zs.
Proof.
  induction xs as [|x xs IH]; intros H.
  - exists []. split; [reflexivity | constructor].
  - destruct (H x (or_introl eq_refl)) as (ys & Hys & HP).
    destruct (IH (fun x' Hx' => H x' (or_intror Hx'))) as (zs & Hzs & HQ).
    exists (ys ++ zs). split; [|apply Forall_app; split; assumption].
    simpl. rewrite Hys. simpl. rewrite Hzs. reflexivity.
Qed.

(** X19. In every dimension D >= 2 (and for a size other than zero) the
    face generator returns, five iterations of its ordering loop being
    enough for every face; each face it yields consists of four distinct
    indices and is a closed walk along edges of the cube. *)
Theorem faces_are_closed_walks (D : nat) (s : R) (n : nat) :
  (2 <= D)%nat -> s <> 0%R ->
  exists faces,
    Renderer.faceGenerator JS.strictEq (5 + n) (Z.of_nat D)
      (Renderer.cubePointsGenerator (Z.of_nat D) (Num s)) = Return faces /\
    Forall (fun face =>
              length face = 4%nat /\ List.NoDup face /\
              closedWalk (Renderer.cubePointsGenerator (Z.of_nat D) (Num s))
                         face) faces.
Proof.
  intros HD Hs. rewrite faceGenerator_binary by (assumption || lia).
  pose proof (binaryPoints_uniform D ltac:(lia)) as Hu.
  rewrite Forall_lookup in Hu.
  unfold Renderer.faceGenerator.
  apply forEach_Forall. intros [i a] Hi.
  apply forEach_Forall. intros [j b] Hj.
  destruct (stringGe (key i) (key j)) eqn:Eij;
    [exists []; split; [reflexivity | constructor]|].
  apply forEach_Forall. intros [k c] Hk.
  destruct (stringGe (key j) (key k)) eqn:Ejk;
    [exists []; split; [reflexivity | constructor]|].
  apply forEach_Forall. intros [l d] Hl.
  destruct (stringGe (key k) (key l)) eqn:Ekl;
    [exists []; split; [reflexivity | constructor]|].
  apply entries_In in Hi, Hj, Hk, Hl.
  destruct (columns_exist D a b c d (Hu i a Hi) (Hu j b Hj) (Hu k c Hk)
              (Hu l d Hl)) as [cols [-> [-> [-> ->]]]].
  rewrite matchesAll_agreeAll, agreeAll_columns
    by (intros E; pose proof (Hu i _ Hi) as L; rewrite E in L; simpl in L; lia).
  cbn [mbind outcome_bind JS.bind].
  destruct (Z.of_nat (length (List.filter constant cols)) =? Z.of_nat D - 2)
    eqn:Em; cbn [negb];
    [|exists []; split; [reflexivity | constructor]].
  apply Z.eqb_eq in Em.
  destruct (keys_ascending i j k l Eij Ejk Ekl) as [Hnd _].
  destruct (orderFace_walk D i j k l cols HD Hnd Hi Hj Hk Hl ltac:(lia) s n Hs)
    as (face & Hface & Hlen & Hin & Hwalk).
  rewrite Hface. exists [face]. split; [reflexivity|].
  constructor; [|constructor].
  split; [exact Hlen|]. split; [|exact Hwalk].
  apply (@NoDup_incl_NoDup nat [i; j; k; l]);
    [exact Hnd | rewrite Hlen; simpl; lia |].
  intros x Hx. apply Hin. exact Hx.
Qed.

Lemma faces_are_closed_walks_witness :
  exists faces,
    Renderer.faceGenerator JS.strictEq (5 + 0) (Z.of_nat 3)
      (Renderer.cubePointsGenerator (Z.of_nat 3) (Num 2)) = Return faces /\
    Forall (fun face =>
              length face = 4%nat /\ List.NoDup face /\
              closedWalk (Renderer.cubePointsGenerator (Z.of_nat 3) (Num 2))
                         face) faces.
Proof.
  apply (faces_are_closed_walks 3 2 0); [lia | lra].
Defined.

(* ================================================================== *)
(** * The face generator of the earlier module *)
(* ================================================================== *)

Lemma tally_fold {X} (a : list X) :
  forall (t : nat -> X -> bool) (g : nat -> nat) (acc : nat),
  fold_left (fun matches '(k, x) => if t k x then S matches else matches)
            (imap (fun k x => (g k, x)) a) acc
  = (acc + list_sum (imap (fun k x => if t (g k) x then 1 else 0) a))%nat.
Proof.
  induction a as [|x a IH]; intros t g acc.
  - simpl. lia.
  - rewrite !imap_cons. cbn [fold_left list_sum].
    rewrite (IH t (g ∘ S)). unfold compose.
    destruct (t (g 0%nat) x); simpl; lia.
Qed.

Lemma countShared_agreeAll {A} (eq : A -> A -> bool) (a b c d : list A) :
  EarlierGenerators.countShared eq a b c d
  = agreeAll (fun x y => eq y x) a [a; b; c; d].
Proof.
  unfold EarlierGenerators.countShared.
  rewrite (tally_fold a
             (fun m am =>
                forallb (fun x : list A =>
                  match x !! m with Some xm => eq xm am | None => false end)
                  [a; b; c; d])
             (fun k => k) 0).
  rewrite <- (tallyAll_agreeAll (fun x y => eq y x) a [a; b; c; d]).
  reflexivity.
Qed.

Lemma orderedCheck_true : Orderings.orderedCheck = true.
Proof. vm_compute. reflexivity. Qed.

Lemma square_ordered (a b c d : list ascii) (n : nat) :
  In a corners -> In b corners -> In c corners -> In d corners ->
  a <> b -> a <> c -> a <> d -> b <> c -> b <> d -> c <> d ->
  Renderer.orderFace Ascii.eqb (5 + n) 2 [a; b; c; d] [0%nat] [1; 2; 3]%nat
  = Return (EarlierGenerators.ordered Ascii.eqb 2 0 1 2 3 a b c).
Proof.
  intros Ha Hb Hc Hd Nab Nac Nad Nbc Nbd Ncd.
  pose proof orderedCheck_true as H. unfold Orderings.orderedCheck in H.
  rewrite forallb_forall in H. specialize (H a Ha).
  rewrite forallb_forall in H. specialize (H b Hb).
  rewrite forallb_forall in H. specialize (H c Hc).
  rewrite forallb_forall in H. specialize (H d Hd).
  unfold distinct4 in H. rewrite !list_eqb_false in H by assumption.
  cbn [negb andb] in H. unfold Orderings.returned in H.
  destruct (Renderer.orderFace Ascii.eqb 5 2 [a; b; c; d] [0%nat] [1; 2; 3]%nat)
    as [face| |] eqn:E; try discriminate.
  apply sameList_eq in H. subst face.
  apply (orderFace_more_fuel Ascii.eqb 2 [a; b; c; d] n 5). exact E.
Qed.

Section EarlierOrdering.

Variables (D : nat) (i j k l : nat) (cols : list column).
Hypothesis D_ge : (2 <= D)%nat.
Hypothesis distinct : List.NoDup [i; j; k; l].
Hypothesis at_i : binaryPoints D !! i = Some (map (pick 0) cols).
Hypothesis at_j : binaryPoints D !! j = Some (map (pick 1) cols).
Hypothesis at_k : binaryPoints D !! k = Some (map (pick 2) cols).
Hypothesis at_l : binaryPoints D !! l = Some (map (pick 3) cols).
Hypothesis shared : length (List.filter constant cols) = (D - 2)%nat.

Lemma ordered_square :
  map (slotIndex i j k l)
    (EarlierGenerators.ordered Ascii.eqb 2 0 1 2 3
       (map (pick 0) (mixed cols)) (map (pick 1) (mixed cols))
       (map (pick 2) (mixed cols)))
  = EarlierGenerators.ordered Ascii.eqb (Z.of_nat D) i j k l
      (map (pick 0) cols) (map (pick 1) cols) (map (pick 2) cols).
Proof.
  unfold EarlierGenerators.ordered. rewrite !countMatches_agree.
  rewrite !(slot_test D cols D_ge shared).
  destruct (_ =? 2 - 1); destruct (_ =? 2 - 1); reflexivity.
Qed.

Lemma orderFace_ordered (n : nat) :
  Renderer.orderFace Ascii.eqb (5 + n) (Z.of_nat D) (binaryPoints D)
    [i] [j; k; l]
  = Return (EarlierGenerators.ordered Ascii.eqb (Z.of_nat D) i j k l
              (map (pick 0) cols) (map (pick 1) cols) (map (pick 2) cols)).
Proof.
  rewrite (orderFace_square D i j k l cols D_ge at_i at_j at_k at_l shared).
  unfold squareOf. rewrite square_ordered.
  - cbn [mbind outcome_bind JS.bind]. rewrite ordered_square. reflexivity.
  - apply (square_corner D i j k l cols); try assumption. simpl; tauto.
  - apply (square_corner D i j k l cols); try assumption. simpl; tauto.
  - apply (square_corner D i j k l cols); try assumption. simpl; tauto.
  - apply (square_corner D i j k l cols); try assumption. simpl; tauto.
  - apply (slot_distinct D i j k l cols); try assumption; simpl; try tauto; lia.
  - apply (slot_distinct D i j k l cols); try assumption; simpl; try tauto; lia.
  - apply (slot_distinct D i j k l cols); try assumption; simpl; try tauto; lia.
  - apply (slot_distinct D i j k l cols); try assumption; simpl; try tauto; lia.
  - apply (slot_distinct D i j k l cols); try assumption; simpl; try tauto; lia.
  - apply (slot_distinct D i j k l cols); try assumption; simpl; try tauto; lia.
Qed.

End EarlierOrdering.

Lemma flipped_strictEq (s : R) (x y : ascii) :
  s <> 0%R -> isDigit x -> isDigit y ->
  JS.strictEq (coordinate (Num s) y) (coordinate (Num s) x) = Ascii.eqb x y.
Proof.
  intros Hs Hx Hy. rewrite coordinate_strictEq by assumption.
  apply Ascii.eqb_sym.
Qed.

(** X20. On the vertices of a cube of dimension D >= 2 (and a size other
    than zero) the face generator of the earlier module, which orders
    the four indices by two tests, yields the faces that the generator
    of renderer.js yields with its ordering loop, in the same order and
    with the same order of the indices in each face. *)
Theorem earlier_faceGenerator_agrees (D : nat) (s : R) (n : nat) :
  (2 <= D)%nat -> s <> 0%R ->
  EarlierGenerators.faceGenerator JS.strictEq (Z.of_nat D)
    (Renderer.cubePointsGenerator (Z.of_nat D) (Num s))
  = Renderer.faceGenerator JS.strictEq (5 + n) (Z.of_nat D)
      (Renderer.cubePointsGenerator (Z.of_nat D) (Num s)).
Proof.
  intros HD Hs. rewrite faceGenerator_binary by (assumption || lia).
  rewrite cubePoints_binary.
  pose proof (binaryPoints_shape D ltac:(lia)) as Hsh.
  rewrite Forall_lookup in Hsh.
  unfold EarlierGenerators.faceGenerator, Renderer.faceGenerator.
  rewrite entries_map, forEach_map.
  apply forEach_ext_in. intros [i a] Hi. rewrite forEach_map.
  apply forEach_ext_in. intros [j b] Hj.
  destruct (stringGe (key i) (key j)) eqn:Eij; [reflexivity|].
  rewrite forEach_map.
  apply forEach_ext_in. intros [k c] Hk.
  destruct (stringGe (key j) (key k)) eqn:Ejk;
    [destruct (stringGe (key i) (key k)); reflexivity|].
  rewrite (stringGe_trans _ _ _ Eij Ejk).
  rewrite forEach_map.
  apply forEach_ext_in. intros [l d] Hl.
  destruct (stringGe (key k) (key l)) eqn:Ekl;
    [destruct (stringGe (key i) (key l)), (stringGe (key j) (key l));
     reflexivity|].
  destruct (keys_ascending i j k l Eij Ejk Ekl) as (Hnd & _ & -> & ->).
  apply entries_In in Hi, Hj, Hk, Hl.
  destruct (Hsh i a Hi) as [La Da], (Hsh j b Hj) as [Lb Db],
           (Hsh k c Hk) as [Lc Dc], (Hsh l d Hl) as [Ld Dd].
  rewrite countShared_agreeAll.
  change [map (coordinate (Num s)) a; map (coordinate (Num s)) b;
          map (coordinate (Num s)) c; map (coordinate (Num s)) d]
    with (map (map (coordinate (Num s))) [a; b; c; d]).
  rewrite (agreeAll_map Ascii.eqb (fun x y => JS.strictEq y x)
             (coordinate (Num s)) isDigit)
    by first [ intros x y Hx Hy; apply flipped_strictEq; assumption
             | assumption
             | repeat constructor; assumption ].
  rewrite matchesAll_agreeAll
    by (intros E; rewrite E in La; simpl in La; lia).
  cbn [mbind outcome_bind JS.bind].
  destruct (negb (Z.of_nat (agreeAll Ascii.eqb a [a; b; c; d]) =? Z.of_nat D - 2))
    eqn:Em; [reflexivity|].
  apply negb_false_iff, Z.eqb_eq in Em.
  destruct (columns_exist D a b c d La Lb Lc Ld) as [cols [-> [-> [-> ->]]]].
  rewrite agreeAll_columns in Em.
  rewrite (orderFace_ordered D i j k l cols HD Hnd Hi Hj Hk Hl ltac:(lia) n).
  cbn [mbind outcome_bind JS.bind]. do 2 f_equal.
  unfold EarlierGenerators.ordered. rewrite !countMatches_agree.
  rewrite !(agree_map Ascii.eqb JS.strictEq (coordinate (Num s)) isDigit)
    by first [ intros x y Hx Hy; apply coordinate_strictEq; assumption
             | assumption ].
  reflexivity.
Qed.

Lemma earlier_faceGenerator_agrees_witness :
  EarlierGenerators.faceGenerator JS.strictEq (Z.of_nat 4)
    (Renderer.cubePointsGenerator (Z.of_nat 4) (Num 300))
  = Renderer.faceGenerator JS.strictEq (5 + 0) (Z.of_nat 4)
      (Renderer.cubePointsGenerator (Z.of_nat 4) (Num 300)).
Proof.
  apply (earlier_faceGenerator_agrees 4 300 0); [lia | lra].
Defined.

(* ================================================================== *)
(** * When the ordering loop does not end *)
(* ================================================================== *)

Lemma orderFace_stuck {A} (eq : A -> A -> bool) (d : Z)
    (points : list (list A)) (faceIndices : list nat) (x : nat) :
  last faceIndices = Some x -> length faceIndices <> 4%nat ->
  forall (fuel : nat) (rest : list nat),
  rest <> [] ->
  (forall r, In r rest ->
     exists p q m,
       points !! x = Some p /\ points !! r = Some q /\
       Renderer.matches eq p q = Return m /\ Z.of_nat m <> d - 1) ->
  Renderer.orderFace eq fuel d points faceIndices rest = OutOfFuel.
Proof.
  intros Hlast Hlen.
  induction fuel as [|fuel IH]; intros rest Hne Hrest;
    cbn [Renderer.orderFace];
    destruct (Nat.eqb_spec (length faceIndices) 4); try contradiction;
    [reflexivity|].
  rewrite Hlast. destruct rest as [|r0 rest']; [contradiction|].
  destruct (Hrest r0 (or_introl eq_refl)) as (p & q & m & Hp & Hq & Hm & Hd).
  rewrite Hp, Hq, Hm. cbn [mbind outcome_bind JS.bind].
  destruct (Z.eqb_spec (Z.of_nat m) (d - 1)); [contradiction|].
  cbn [negb]. apply IH.
  - destruct rest'; discriminate.
  - intros r Hr. apply Hrest. apply in_app_or in Hr.
    destruct Hr as [Hr | [<- | []]]; [right; exact Hr | left; reflexivity].
Qed.

(** X21. The ordering loop never ends when none of the indices left is
    adjacent to the last index placed: whatever the fuel, it is used up.
    This happens for the square built with a size that is NaN, whose four
    points pass the test of the face generator: the generator then does
    not return either. *)
Theorem orderFace_never_ends :
  (forall (d : Z) (points : list (list number)) (faceIndices rest : list nat)
          (x fuel : nat),
     last faceIndices = Some x -> length faceIndices <> 4%nat ->
     rest <> [] ->
     (forall r, In r rest ->
        exists p q m,
          points !! x = Some p /\ points !! r = Some q /\
          Renderer.matches JS.strictEq p q = Return m /\ Z.of_nat m <> d - 1) ->
     Renderer.orderFace JS.strictEq fuel d points faceIndices rest = OutOfFuel) /\
  (forall fuel : nat,
     Renderer.faceGenerator JS.strictEq fuel 2
       (Renderer.cubePointsGenerator 2 NaN) = OutOfFuel).
Proof.
  split.
  - intros d points faceIndices rest x fuel Hlast Hlen Hne Hrest.
    apply (orderFace_stuck JS.strictEq d points faceIndices x); assumption.
  - intros fuel.
    assert (Hpts : Renderer.cubePointsGenerator 2 NaN
                   = [[NaN; NaN]; [NaN; NaN]; [NaN; NaN]; [NaN; NaN]])
      by reflexivity.
    rewrite Hpts.
    assert (H : Renderer.orderFace JS.strictEq fuel 2
                  [[NaN; NaN]; [NaN; NaN]; [NaN; NaN]; [NaN; NaN]]
                  [0%nat] [1; 2; 3]%nat = OutOfFuel).
    { apply (orderFace_stuck JS.strictEq 2 _ [0%nat] 0);
        [reflexivity | simpl; lia | discriminate |].
      intros r Hr. exists [NaN; NaN], [NaN; NaN], 0%nat.
      destruct Hr as [<- | [<- | [<- | []]]];
        (split; [reflexivity|]; split; [reflexivity|];
         split; [reflexivity | lia]). }
    unfold Renderer.faceGenerator.
    cbn -[Renderer.orderFace]. rewrite H. reflexivity.
Qed.

Lemma orderFace_never_ends_witness :
  Renderer.orderFace JS.strictEq 1000 2
    [[NaN; NaN]; [NaN; NaN]; [NaN; NaN]; [NaN; NaN]] [0%nat] [1; 2; 3]%nat
  = OutOfFuel.
Proof.
  apply (proj1 orderFace_never_ends 2
           [[NaN; NaN]; [NaN; NaN]; [NaN; NaN]; [NaN; NaN]]
           [0%nat] [1; 2; 3]%nat 0%nat 1000%nat);
    [reflexivity | simpl; lia | discriminate |].
  intros r Hr. exists [NaN; NaN], [NaN; NaN], 0%nat.
  destruct Hr as [<- | [<- | [<- | []]]];
    (split; [reflexivity|]; split; [reflexivity|];
     split; [reflexivity | lia]).
Defined.

(* ================================================================== *)
(** * The display flags *)
(* ================================================================== *)

Lemma ToInt32_small (x : Z) : 0 <= x < 2 ^ 31 -> ToInt32 x = x.
Proof.
  intros H. unfold ToInt32. rewrite Z.mod_small by lia.
  destruct (Z.ltb_spec x (2 ^ 31)); [reflexivity | lia].
Qed.

Lemma land_small (x y : Z) :
  0 <= x < 2 ^ 31 -> 0 <= y -> 0 <= Z.land x y < 2 ^ 31.
Proof.
  intros Hx Hy.
  assert (H0 : 0 <= Z.land x y) by (apply Z.land_nonneg; left; lia).
  split; [exact H0|].
  destruct (Z.eq_dec (Z.land x y) 0) as [->|Hne]; [lia|].
  destruct (Z.eq_dec x 0) as [->|Hx0]; [rewrite Z.land_0_l in Hne; lia|].
  apply Z.log2_lt_pow2; [lia|].
  pose proof (Z.log2_land x y ltac:(lia) Hy) as Hl.
  assert (Z.log2 x < 31) by (apply Z.log2_lt_pow2; lia).
  lia.
Qed.

Lemma and_small (x y : Z) :
  0 <= x < 2 ^ 31 -> 0 <= y < 2 ^ 31 -> JS.and x y = Z.land x y.
Proof.
  intros Hx Hy. unfold JS.and.
  rewrite (ToInt32_small x Hx), (ToInt32_small y Hy).
  apply ToInt32_small. apply land_small; lia.
Qed.

(** X22. For each of the eight unions of the flags VERTICES, EDGES and
    FACES, [has] answers for a single flag whether the flag is in the
    union, and a frame draws the faces first, then the edges, then the
    vertices, each exactly when its flag is in the union; the seven named
    constants of [Display] are these unions. *)
Theorem display_flags (vertices edges faces : bool) :
  Global.Display.has (Geometry.mask vertices edges faces)
    Global.Display.VERTICES = vertices /\
  Global.Display.has (Geometry.mask vertices edges faces)
    Global.Display.EDGES = edges /\
  Global.Display.has (Geometry.mask vertices edges faces)
    Global.Display.FACES = faces /\
  Renderer.drawings (Geometry.mask vertices edges faces)
  = (if faces then [Renderer.DrawFaces] else [])
    ++ (if edges then [Renderer.DrawEdges] else [])
    ++ (if vertices then [Renderer.DrawVertices] else []) /\
  [Global.Display.VERTICES; Global.Display.EDGES; Global.Display.FACES;
   Global.Display.VERTICES_EDGES; Global.Display.VERTICES_FACES;
   Global.Display.EDGES_FACES; Global.Display.VERTICES_EDGES_FACES]
  = [Geometry.mask true false false; Geometry.mask false true false;
     Geometry.mask false false true; Geometry.mask true true false;
     Geometry.mask true false true; Geometry.mask false true true;
     Geometry.mask true true true].
Proof.
  destruct vertices, edges, faces; repeat split; reflexivity.
Qed.

(** X23. [has] tests whether the configured display and its argument
    share a flag: on values below 2^31 it holds of a union exactly when
    it holds of one of the two parts, so that has(VERTICES_EDGES) holds
    as soon as the vertices or the edges are displayed; and it holds of
    nothing when the display is 0. *)
Theorem has_tests_intersection (DISPLAY d1 d2 : Z) :
  0 <= DISPLAY < 2 ^ 31 -> 0 <= d1 < 2 ^ 31 -> 0 <= d2 < 2 ^ 31 ->
  Global.Display.has DISPLAY (JS.or d1 d2)
  = Global.Display.has DISPLAY d1 || Global.Display.has DISPLAY d2 /\
  Global.Display.has 0 d1 = false.
Proof.
  intros HD H1 H2.
  assert (Hor : 0 <= Z.lor d1 d2 < 2 ^ 31).
  { split; [apply Z.lor_nonneg; lia|].
    destruct (Z.eq_dec (Z.lor d1 d2) 0) as [->|Hne]; [lia|].
    apply Z.log2_lt_pow2; [pose proof (Z.lor_nonneg d1 d2); lia|].
    rewrite Z.log2_lor by lia.
    apply Z.max_lub_lt.
    - destruct (Z.eq_dec d1 0) as [->|]; [simpl; lia|].
      apply Z.log2_lt_pow2; lia.
    - destruct (Z.eq_dec d2 0) as [->|]; [simpl; lia|].
      apply Z.log2_lt_pow2; lia. }
  unfold Global.Display.has, JS.or.
  rewrite (ToInt32_small d1 H1), (ToInt32_small d2 H2), (ToInt32_small _ Hor).
  rewrite !and_small by (assumption || lia).
  split.
  - rewrite Z.land_lor_distr_r.
    pose proof (land_small DISPLAY d1 HD ltac:(lia)) as B1.
    pose proof (land_small DISPLAY d2 HD ltac:(lia)) as B2.
    pose proof (Z.lor_nonneg (Z.land DISPLAY d1) (Z.land DISPLAY d2)) as Bn.
    pose proof (Z.lor_eq_0_iff (Z.land DISPLAY d1) (Z.land DISPLAY d2)) as B0.
    destruct (Z.ltb_spec 0 (Z.lor (Z.land DISPLAY d1) (Z.land DISPLAY d2))),
             (Z.ltb_spec 0 (Z.land DISPLAY d1)),
             (Z.ltb_spec 0 (Z.land DISPLAY d2)); simpl; try reflexivity;
      exfalso; intuition lia.
  - rewrite Z.land_0_l. reflexivity.
Qed.

Lemma has_tests_intersection_witness :
  Global.Display.has Global.Display.EDGES
    (JS.or Global.Display.VERTICES Global.Display.EDGES)
  = Global.Display.has Global.Display.EDGES Global.Display.VERTICES
    || Global.Display.has Global.Display.EDGES Global.Display.EDGES.
Proof.
  apply (has_tests_intersection Global.Display.EDGES
           Global.Display.VERTICES Global.Display.EDGES);
    vm_compute; split; congruence.
Defined.

(* ================================================================== *)
(** * The colour of an edge *)
(* ================================================================== *)

Lemma string_length_append (a b : string) :
  String.length (String.append a b) = (String.length a + String.length b)%nat.
Proof. rewrite !chars_length, chars_append, length_app. reflexivity. Qed.

Lemma hash_length (data : list Z) (seed : Z) :
  String.length (Global.hash data seed)
  = if Global.hashByte data seed <? 16 then 1%nat else 2%nat.
Proof.
  unfold Global.hash. apply toString16_byte_length. apply hashByte_range.
Qed.

(** X24. The colour that [drawEdges] builds has between four and seven
    characters; it has the seven characters of the form #rrggbb exactly
    when each of the three hashed bytes is at least 16. *)
Theorem edge_colour_length (quotient sum product : string) :
  (4 <= String.length (Renderer.edgeColor quotient sum product) <= 7)%nat /\
  (String.length (Renderer.edgeColor quotient sum product) = 7%nat <->
   16 <= Global.hashByte (charCodes quotient) 0 /\
   16 <= Global.hashByte (charCodes sum) 0 /\
   16 <= Global.hashByte (charCodes product) 0).
Proof.
  unfold Renderer.edgeColor. rewrite !string_length_append, !hash_length.
  change (String.length "#") with 1%nat.
  destruct (Z.ltb_spec (Global.hashByte (charCodes quotient) 0) 16),
           (Z.ltb_spec (Global.hashByte (charCodes sum) 0) 16),
           (Z.ltb_spec (Global.hashByte (charCodes product) 0) 16);
    (split; [simpl; lia | split; [simpl; intros; lia | intros; simpl; lia]]).
Qed.

Lemma edge_colour_length_witness :
  (4 <= String.length (Renderer.edgeColor "Infinity" "80" "0") <= 7)%nat.
Proof.
  apply (proj1 (edge_colour_length "Infinity" "80" "0")).
Defined.

(* ================================================================== *)
(** * Keys and numbers *)
(* ================================================================== *)

(** X25. The face generator compares the keys of [for ... in] as
    strings: two indices below ten compare as the numbers do, but every
    index from 10 to 19 comes before every index from 2 to 9. *)
Theorem keys_compare_as_strings (i j : nat) :
  ((i < 10)%nat -> (j < 10)%nat ->
   stringGe (key i) (key j) = (j <=? i)%nat) /\
  ((2 <= i < 10)%nat -> (10 <= j < 20)%nat ->
   stringGe (key i) (key j) = true /\ stringGe (key j) (key i) = false).
Proof.
  split.
  - intros Hi Hj.
    do 10 (destruct i as [|i]; [do 10 (destruct j as [|j]; [reflexivity|]); lia|]).
    lia.
  - intros Hi Hj.
    do 10 (destruct i as [|i];
           [try lia; do 20 (destruct j as [|j]; [try lia; split; reflexivity|]); lia|]).
    lia.
Qed.

Lemma keys_compare_as_strings_witness :
  stringGe (key 3) (key 12) = true /\ stringGe (key 12) (key 3) = false.
Proof.
  apply (proj2 (keys_compare_as_strings 3 12)); lia.
Defined.

(* ================================================================== *)
(** * A NaN coordinate under rotation *)
(* ================================================================== *)

Lemma NaN_column (D : nat) :
  tabulate D 1 (fun _ _ => NaN) = Point.toMatrix (replicate D NaN).
Proof.
  rewrite <- init_tabulate, toMatrix_map. unfold Matrix.init.
  change (map (fun x : number => [x]) (replicate D NaN))
    with ((fun x : number => [x]) <$> replicate D NaN).
  rewrite fmap_replicate. reflexivity.
Qed.

Lemma mul_NaN_column (a : Matrix.matrix) (D k : nat) (q : list number) :
  (1 <= D)%nat -> rectangular D D a -> length q = D -> q !! k = Some NaN ->
  Matrix.mul a (Point.toMatrix q) = Return (Point.toMatrix (replicate D NaN)).
Proof.
  intros HD Ha Hq Hk.
  rewrite (mul_rectangular a (Point.toMatrix q) D D 1)
    by first [lia | assumption | rewrite <- Hq; apply toMatrix_rectangular].
  rewrite <- NaN_column. f_equal. apply tabulate_ext. intros i j Hi Hj.
  assert (Hkq : (k < D)%nat) by (rewrite <- Hq; eapply lookup_lt_Some; exact Hk).
  apply (sigma_NaN D k); [exact Hkq|].
  replace j with 0%nat by lia.
  unfold Matrix.entry at 2. rewrite toMatrix_map, lookup_map, Hk. simpl.
  apply mul_NaN_r.
Qed.

Lemma rotations_NaN (G : Global.config) (D : nat) (theta : number)
    (ps : list (nat * nat)) :
  (1 <= D)%nat ->
  forall (q : list number) (k : nat) (mu : number),
  length q = D -> q !! k = Some NaN ->
  exists mu',
    fold_left (Renderer.applyRotation G theta)
      (map (fun '(i, j) => Renderer.rotation D i j) ps)
      (Return (Point.toMatrix q, mu))
    = Return (Point.toMatrix (match ps with [] => q | _ :: _ => replicate D NaN end), mu').
Proof.
  intros HD. induction ps as [|[i j] ps IH]; intros q k mu Hq Hk.
  - exists mu. reflexivity.
  - cbn [map fold_left]. unfold Renderer.applyRotation at 2.
    cbn [mbind outcome_bind JS.bind].
    assert (E : forall angle,
              Matrix.mul (Renderer.rotation D i j angle) (Point.toMatrix q)
              = Return (Point.toMatrix (replicate D NaN))).
    { intros angle. apply (mul_NaN_column _ D k);
        [exact HD | apply rotation_shape | exact Hq | exact Hk]. }
    assert (E' : Matrix.mul
                   (if truthy (Global.ROTATION_OFFSET G)
                    then Renderer.rotation D i j (JS.mul theta mu)
                    else Renderer.rotation D i j theta) (Point.toMatrix q)
                 = Return (Point.toMatrix (replicate D NaN)))
      by (destruct (truthy (Global.ROTATION_OFFSET G)); apply E).
    rewrite E'. cbn [JS.bind].
    destruct (IH (replicate D NaN) 0%nat
                (JS.add mu (JS.div (Global.ROTATION_OFFSET G)
                                   (Renderer.rotationLength G))))
      as [mu' Hmu'].
    + apply length_replicate.
    + apply lookup_replicate_2. lia.
    + exists mu'. cbn [mbind outcome_bind JS.bind]. rewrite Hmu'.
      destruct ps; reflexivity.
Qed.

(** X26. With D >= 2 dimensions, a single NaN among the D coordinates of
    a point makes every coordinate of its rotated image NaN, whatever
    the time, the speed and the rotation offset. *)
Theorem transform_spreads_NaN (G : Global.config) (D : nat) (t : number)
    (p : list number) (k : nat) :
  (2 <= D)%nat -> Global.DIMENSIONS G = Z.of_nat D ->
  length p = D -> p !! k = Some NaN ->
  Renderer.transformPoint G t p = Return (replicate D NaN).
Proof.
  intros HD HG Hp Hk. unfold Renderer.transformPoint, Renderer.rotationsGenerator.
  rewrite HG, planes_spec, Nat2Z.id.
  destruct (planes_first D HD) as [rest Hrest].
  destruct (rotations_NaN G D
              (JS.mul (JS.mul t (Global.SPEED G)) Renderer.degree)
              (Spec.planes D) ltac:(lia) p k (Num 1) Hp Hk) as [mu' Hmu'].
  rewrite Hmu'. rewrite Hrest. cbn [mbind outcome_bind JS.bind].
  rewrite toPoint_toMatrix. reflexivity.
Qed.

Lemma transform_spreads_NaN_witness :
  Renderer.transformPoint Global.defaults (Num 2)
    [Num 1; Num 2; NaN; Num 4; Num 5]
  = Return (replicate 5 NaN).
Proof.
  apply (transform_spreads_NaN Global.defaults 5 (Num 2)
           [Num 1; Num 2; NaN; Num 4; Num 5] 2);
    [lia | reflexivity | reflexivity | reflexivity].
Defined.

(* ================================================================== *)
(** * The edges at a vertex, and their length *)
(* ================================================================== *)

Lemma neighbours_block (D : nat) (i : nat) (a : list ascii) :
  (1 <= D)%nat -> binaryPoints D !! i = Some a ->
  length
    (flat_map (fun '(j, b) =>
       if (i =? j)%nat then []
       else if negb (Z.of_nat (agree Ascii.eqb a b) =? Z.of_nat D - 1) then []
       else [(i, j)])
       (Renderer.entries (binaryPoints D))) = D.
Proof.
  intros HD Hi.
  pose proof (binaryPoints_uniform D HD) as U. rewrite List.Forall_forall in U.
  assert (Ha : In a (binaryPoints D)).
  { apply list_elem_of_In. eapply list_elem_of_lookup_2. exact Hi. }
  rewrite (flat_map_ext_in _
             (fun jb => if (agree Ascii.eqb a (snd jb) =? D - 1)%nat
                        then [(i, fst jb)] else [])).
  - rewrite (length_flat_map_cond
               (fun jb => (agree Ascii.eqb a (snd jb) =? D - 1)%nat)
               (fun jb => (i, fst jb))).
    transitivity (length (List.filter
                            (fun b => (agree Ascii.eqb a b =? D - 1)%nat)
                            (map snd (Renderer.entries (binaryPoints D))))).
    + rewrite filter_map_swap, length_map. reflexivity.
    + rewrite entries_snd. now apply neighbours_count.
  - intros [j b] Hj. cbn [fst snd].
    destruct (Nat.eqb_spec i j) as [->|Hne].
    + apply entries_In in Hj. rewrite Hi in Hj. inversion Hj; subst b.
      rewrite agree_refl, (U a Ha).
      destruct (Nat.eqb_spec D (D - 1)); [lia|reflexivity].
    + destruct (Z.eqb_spec (Z.of_nat (agree Ascii.eqb a b)) (Z.of_nat D - 1)),
               (Nat.eqb_spec (agree Ascii.eqb a b) (D - 1));
        try reflexivity; lia.
Qed.

Lemma filter_flat_map_key {X} (F : nat * X -> list (nat * nat))
    (l : list (nat * X)) :
  List.NoDup (map fst l) ->
  (forall x y, In y (F x) -> fst y = fst x) ->
  forall i a, In (i, a) l ->
  List.filter (fun e => (fst e =? i)%nat) (flat_map F l) = F (i, a).
Proof.
  intros Hnd HF i a.
  assert (Hall : forall x, fst x = i ->
            List.filter (fun e => (fst e =? i)%nat) (F x) = F x).
  { intros x Hx. apply forallb_filter_id. apply forallb_forall.
    intros y Hy. rewrite (HF x y Hy), Hx. apply Nat.eqb_refl. }
  assert (Hnone : forall x, fst x <> i ->
            List.filter (fun e => (fst e =? i)%nat) (F x) = []).
  { intros x Hx.
    destruct (List.filter (fun e => (fst e =? i)%nat) (F x)) as [|y ys] eqn:E;
      [reflexivity|].
    assert (Hy : In y (List.filter (fun e => (fst e =? i)%nat) (F x)))
      by (rewrite E; left; reflexivity).
    apply filter_In in Hy. destruct Hy as [Hy Hyi].
    apply Nat.eqb_eq in Hyi. rewrite (HF x y Hy) in Hyi. contradiction. }
  induction l as [|x l IH]; intros Hin; [destruct Hin|].
  cbn [flat_map]. rewrite List.filter_app.
  cbn [map] in Hnd. apply List.NoDup_cons_iff in Hnd. destruct Hnd as [Hx Hnd].
  destruct Hin as [-> | Hin].
  - rewrite (Hall (i, a) eq_refl).
    assert (Hrest : List.filter (fun e => (fst e =? i)%nat) (flat_map F l) = []).
    { clear IH. induction l as [|z l IHl]; [reflexivity|].
      cbn [flat_map]. rewrite List.filter_app.
      rewrite Hnone.
      - apply IHl.
        + intros H. apply Hx. right. exact H.
        + apply List.NoDup_cons_iff in Hnd. tauto.
      - intros Hz. apply Hx. left. exact Hz. }
    rewrite Hrest. apply app_nil_r.
  - rewrite (Hnone x).
    + apply IH; assumption.
    + intros Hxi. apply Hx. apply in_map_iff. exists (i, a).
      split; [symmetry; exact Hxi | exact Hin].
Qed.

(** X28. In the list of pairs yielded for the cube of dimension D >= 1,
    of a size for which the two computed coordinate values -size/2 and
    +size/2 are different under [===], every vertex is the first
    component of exactly D pairs: each vertex has D neighbours. *)
Theorem every_vertex_has_D_edges (D : nat) (s : R) (i : nat) :
  (1 <= D)%nat -> separated (Num s) = true -> (i < 2 ^ D)%nat ->
  exists es,
    Renderer.edgeGenerator JS.strictEq (Z.of_nat D)
      (Renderer.cubePointsGenerator (Z.of_nat D) (Num s)) = Return es /\
    length (List.filter (fun e => (fst e =? i)%nat) es) = D.
Proof.
  intros HD Hsep Hi. pose proof (separated_nonzero s Hsep) as Hs.
  exists (edgesOf Ascii.eqb (Z.of_nat D) (binaryPoints D)). split.
  - rewrite edgeGenerator_binary by assumption.
    apply (edgeGenerator_pure _ _ D); [exact HD|].
    apply binaryPoints_uniform. exact HD.
  - pose proof (binaryPoints_lookup D i Hi) as Hl.
    unfold edgesOf.
    erewrite filter_flat_map_key.
    + apply neighbours_block; [exact HD | exact Hl].
    + rewrite entries_fst. apply List.seq_NoDup.
    + intros [i' a] [x y] Hy. cbn [fst].
      apply in_flat_map in Hy. destruct Hy as [[j b] [_ Hy]].
      destruct (i' =? j)%nat; [destruct Hy|].
      destruct (negb _); [destruct Hy|].
      destruct Hy as [Hy | []]. inversion Hy. reflexivity.
    + apply entries_In. exact Hl.
Qed.

Lemma every_vertex_has_D_edges_witness :
  exists es,
    Renderer.edgeGenerator JS.strictEq (Z.of_nat 3)
      (Renderer.cubePointsGenerator (Z.of_nat 3) (Num 2)) = Return es /\
    length (List.filter (fun e => (fst e =? 5)%nat) es) = 3%nat.
Proof.
  apply (every_vertex_has_D_edges 3 2 5);
    [lia | apply separated_Num; lra | simpl; lia].
Defined.

Lemma realCoordinate_zero (s : R) : realCoordinate s "0" = (- (s / 2))%R.
Proof. unfold realCoordinate. simpl. lra. Qed.

Lemma realCoordinate_one (s : R) : realCoordinate s "1" = (s / 2)%R.
Proof. unfold realCoordinate. simpl. lra. Qed.

Lemma distSq_digits (s : R) (a : list ascii) :
  forall b : list ascii,
  length a = length b -> Forall isDigit a -> Forall isDigit b ->
  Geometry.distSq (map (realCoordinate s) a) (map (realCoordinate s) b)
  = (INR (differ Ascii.eqb a b) * s * s)%R.
Proof.
  unfold Geometry.distSq, differ.
  induction a as [|x a IH]; intros [|y b] Hlen Ha Hb; try discriminate.
  - simpl. lra.
  - apply Forall_cons_1 in Ha, Hb. destruct Ha as [Hx Ha], Hb as [Hy Hb].
    injection Hlen as Hlen.
    change (agree Ascii.eqb (x :: a) (y :: b))
      with ((if Ascii.eqb x y then 1 else 0) + agree Ascii.eqb a b)%nat.
    cbn [map zip_with Geometry.normSq length].
    rewrite (IH b Hlen Ha Hb).
    pose proof (agree_le Ascii.eqb a b) as Hle.
    destruct Hx as [-> | ->], Hy as [-> | ->];
      rewrite ?realCoordinate_zero, ?realCoordinate_one.
    + change (Ascii.eqb "0" "0") with true. cbv iota.
      replace (S (length a) - (1 + agree Ascii.eqb a b))%nat
        with (length a - agree Ascii.eqb a b)%nat by lia. lra.
    + change (Ascii.eqb "0" "1") with false. cbv iota.
      replace (S (length a) - (0 + agree Ascii.eqb a b))%nat
        with (S (length a - agree Ascii.eqb a b))%nat by lia.
      rewrite S_INR. lra.
    + change (Ascii.eqb "1" "0") with false. cbv iota.
      replace (S (length a) - (0 + agree Ascii.eqb a b))%nat
        with (S (length a - agree Ascii.eqb a b))%nat by lia.
      rewrite S_INR. lra.
    + change (Ascii.eqb "1" "1") with true. cbv iota.
      replace (S (length a) - (1 + agree Ascii.eqb a b))%nat
        with (length a - agree Ascii.eqb a b)%nat by lia. lra.
Qed.

(** X29. The size of the cube is the length of its edges: the two
    vertices of every pair yielded by the edge generator (D >= 1, size
    s other than zero) lie at the distance |s|, the square of which is
    s^2. *)
Theorem edges_have_the_length_of_the_size (D : nat) (s : R) (i j : nat)
    (es : list (nat * nat)) :
  (1 <= D)%nat -> s <> 0%R ->
  Renderer.edgeGenerator JS.strictEq (Z.of_nat D)
    (Renderer.cubePointsGenerator (Z.of_nat D) (Num s)) = Return es ->
  In (i, j) es ->
  exists p q,
    Renderer.cubePointsGenerator (Z.of_nat D) (Num s) !! i = Some (map Num p) /\
    Renderer.cubePointsGenerator (Z.of_nat D) (Num s) !! j = Some (map Num q) /\
    Geometry.distSq p q = (s * s)%R.
Proof.
  intros HD Hs Hes Hin.
  rewrite edgeGenerator_binary in Hes by assumption.
  rewrite (edgeGenerator_pure _ _ D) in Hes
    by (try exact HD; apply binaryPoints_uniform; exact HD).
  injection Hes as <-.
  apply edgesOf_In in Hin. destruct Hin as (a & b & Ha & Hb & Hij & Hag).
  pose proof (binaryPoints_shape D HD) as Hsh. rewrite Forall_lookup in Hsh.
  destruct (Hsh i a Ha) as [La Da], (Hsh j b Hb) as [Lb Db].
  exists (map (realCoordinate s) a), (map (realCoordinate s) b).
  assert (Hi : (i < 2 ^ D)%nat)
    by (rewrite <- binaryPoints_length; eapply lookup_lt_Some; exact Ha).
  assert (Hj : (j < 2 ^ D)%nat)
    by (rewrite <- binaryPoints_length; eapply lookup_lt_Some; exact Hb).
  rewrite (binaryPoints_lookup D i Hi) in Ha.
  rewrite (binaryPoints_lookup D j Hj) in Hb.
  injection Ha as <-. injection Hb as <-.
  split; [apply cubePoints_lookup; exact Hi|].
  split; [apply cubePoints_lookup; exact Hj|].
  rewrite distSq_digits by (congruence || assumption).
  unfold differ. rewrite La.
  replace (D - agree Ascii.eqb (binaryPoint D i) (binaryPoint D j))%nat
    with 1%nat by lia.
  simpl. lra.
Qed.

Lemma edges_have_the_length_of_the_size_witness :
  exists p q,
    Renderer.cubePointsGenerator (Z.of_nat 2) (Num 2) !! 0%nat
      = Some (map Num p) /\
    Renderer.cubePointsGenerator (Z.of_nat 2) (Num 2) !! 1%nat
      = Some (map Num q) /\
    Geometry.distSq p q = (2 * 2)%R.
Proof.
  apply (edges_have_the_length_of_the_size 2 2 0 1
           (edgesOf Ascii.eqb (Z.of_nat 2) (binaryPoints 2)));
    [lia | lra | | vm_compute; tauto].
  rewrite edgeGenerator_binary by (lia || lra).
  apply (edgeGenerator_pure _ _ 2); [lia | apply binaryPoints_uniform; lia].
Defined.
